(** * redisX: the RESP3 codec and the connection core, embedded in Rocq

    The development follows the TypeScript sources:
    - [parser_writer/parser.ts]  ([Resp3Parser], module [Parser] below),
    - [parser_writer/writer.ts]  ([Resp3Writer], module [Writer]),
    - [core/connection.ts]       ([ConnectionManager], module [Connection]),
    - [core/client.ts]           ([RedisClient._normalizeOptions], [_parseUrl] and
                                   [_validateOptions], module [Client]).

    Conventions of the embedding.
    - A [Buffer] is a list of bytes.  A JavaScript string is represented by
      its UTF-8 bytes, so [Buffer.toString('utf8')] and
      [Buffer.from(s, 'utf8')] are the identity on the representation (this
      is exact for well-formed UTF-8 input).
    - JavaScript numbers that hold lengths, offsets and counters are exact
      integers ([Z]); doubles proper are [spec_float] (binary64).
    - Mutable objects become explicit state: the parser is a record threaded
      through a small state-and-exception monad, the [Map] of pending
      commands is an association list in insertion order.
    - The two number built-ins [Number.parseFloat] and
      [Number.prototype.toString] are parameters of the development, and so
      is the constructor [URL] of the platform. *)

From Stdlib Require Import ZArith List Lia Bool Ascii String.
From Stdlib Require Import DecimalZ DecimalN DecimalPos.
From Stdlib Require Import Floats.SpecFloat.
From Stdlib Require Import Permutation.
Import ListNotations.

Local Open Scope Z_scope.

(** ** Bytes *)

Definition Buffer : Type := list ascii.
Definition text : Type := list ascii.

(** [B] is the helper of the test-suites: the bytes of a string literal. *)
Definition B (s : string) : Buffer := list_ascii_of_string s.

Definition CR : ascii := "013"%char.
Definition LF : ascii := "010"%char.
Definition CRLF : Buffer := [CR; LF].

(** ** The JavaScript built-ins the sources call *)

Module Js.

Definition length (b : Buffer) : Z := Z.of_nat (List.length b).

(** [buf[i]]: [undefined] outside the buffer. *)
Definition at_ (b : Buffer) (i : Z) : option ascii :=
  if i <? 0 then None else nth_error b (Z.to_nat i).

(** Relative index of [subarray] and [indexOf]: negative counts from the end. *)
Definition relIndex (len i : Z) : Z :=
  if i <? 0 then Z.max (len + i) 0 else Z.min i len.

(** [buf.subarray(start, end)] *)
Definition subarray (b : Buffer) (start end_ : Z) : Buffer :=
  let s := relIndex (length b) start in
  let e := relIndex (length b) end_ in
  firstn (Z.to_nat (e - s)) (skipn (Z.to_nat s) b).

(** [buf.subarray(start)] *)
Definition subarrayFrom (b : Buffer) (start : Z) : Buffer :=
  subarray b start (length b).

(** [buf.toString('utf8', start, end)], a string being held as its UTF-8
    bytes: what [toString] yields when these bytes are well-formed
    UTF-8. *)
Definition toStringRange (b : Buffer) (start end_ : Z) : text :=
  let s := Z.min (Z.max start 0) (length b) in
  let e := Z.min (Z.max end_ 0) (length b) in
  firstn (Z.to_nat (e - s)) (skipn (Z.to_nat s) b).

(** First position of the two bytes CR LF. *)
Fixpoint findCRLF (b : Buffer) : option nat :=
  match b with
  | c1 :: tl =>
      match tl with
      | c2 :: _ =>
          if Ascii.eqb c1 CR && Ascii.eqb c2 LF then Some 0%nat
          else option_map S (findCRLF tl)
      | [] => None
      end
  | [] => None
  end.

(** [buf.indexOf('\r\n', byteOffset, 'utf8')]; [None] is [-1]. *)
Definition indexOfCRLF (b : Buffer) (byteOffset : Z) : option Z :=
  let s := relIndex (length b) byteOffset in
  match findCRLF (skipn (Z.to_nat s) b) with
  | Some k => Some (s + Z.of_nat k)
  | None => None
  end.

(** [str.indexOf(c)]; [None] is [-1]. *)
Fixpoint indexOf (c : ascii) (s : text) : option nat :=
  match s with
  | [] => None
  | x :: tl => if Ascii.eqb x c then Some 0%nat else option_map S (indexOf c tl)
  end.

(** [str.slice(0, n)] and [str.slice(n)] for [0 <= n]. *)
Definition sliceTo (s : text) (n : nat) : text := firstn n s.
Definition sliceFrom (s : text) (n : nat) : text := skipn n s.

Definition isDigit (c : ascii) : bool :=
  let n := nat_of_ascii c in (48 <=? n)%nat && (n <=? 57)%nat.

(** The white space that [parseInt] and [BigInt] strip (the ASCII part of
    StrWhiteSpaceChar: TAB, LF, VT, FF, CR, SP). *)
Definition isWhiteSpace (c : ascii) : bool :=
  let n := nat_of_ascii c in
  ((9 <=? n)%nat && (n <=? 13)%nat) || (n =? 32)%nat.

Fixpoint trimStart (s : text) : text :=
  match s with
  | c :: tl => if isWhiteSpace c then trimStart tl else s
  | [] => []
  end.

Definition trim (s : text) : text := rev (trimStart (rev (trimStart s))).

(** Value of a digit in a radix up to 16. *)
Definition digitValue (c : ascii) : option Z :=
  let n := Z.of_nat (nat_of_ascii c) in
  if (48 <=? n) && (n <=? 57) then Some (n - 48)
  else if (97 <=? n) && (n <=? 102) then Some (n - 87)
  else if (65 <=? n) && (n <=? 70) then Some (n - 55)
  else None.

Definition digitIn (radix : Z) (c : ascii) : option Z :=
  match digitValue c with
  | Some d => if d <? radix then Some d else None
  | None => None
  end.

(** Longest prefix of digits of [s], accumulated most significant first;
    returns the value and the number of digits read. *)
Fixpoint digitsPrefix (radix : Z) (s : text) (acc : Z) (n : nat) : Z * nat :=
  match s with
  | c :: tl =>
      match digitIn radix c with
      | Some d => digitsPrefix radix tl (acc * radix + d) (S n)
      | None => (acc, n)
      end
  | [] => (acc, n)
  end.

(** The whole of [s] is a non-empty run of digits. *)
Definition allDigits (radix : Z) (s : text) : option Z :=
  let '(v, n) := digitsPrefix radix s 0 0%nat in
  if (0 <? n)%nat && (n =? List.length s)%nat then Some v else None.

(** [Number.parseInt(s, 10)] of a text of ASCII characters: [None] is
    [NaN]. *)
Definition parseInt (s : text) : option Z :=
  let s := trimStart s in
  let '(neg, s) :=
    match s with
    | "-"%char :: tl => (true, tl)
    | "+"%char :: tl => (false, tl)
    | _ => (false, s)
    end in
  let '(v, n) := digitsPrefix 10 s 0 0%nat in
  if (n =? 0)%nat then None else Some (if neg then - v else v).

(** A parsed integer of this magnitude rounds to [Infinity] as a double. *)
Definition overflowsDouble (n : Z) : bool := 2 ^ 1024 - 2 ^ 970 <=? Z.abs n.

(** [BigInt(s)] (StringToBigInt) of a text of ASCII characters: [None] is
    the [SyntaxError]. *)
Definition BigInt (s : text) : option Z :=
  match trim s with
  | [] => Some 0
  | "-"%char :: tl => option_map Z.opp (allDigits 10 tl)
  | "+"%char :: tl => allDigits 10 tl
  | "0"%char :: ("x"%char :: tl) | "0"%char :: ("X"%char :: tl) => allDigits 16 tl
  | "0"%char :: ("o"%char :: tl) | "0"%char :: ("O"%char :: tl) => allDigits 8 tl
  | "0"%char :: ("b"%char :: tl) | "0"%char :: ("B"%char :: tl) => allDigits 2 tl
  | t => allDigits 10 t
  end.

Fixpoint uintDigits (d : Decimal.uint) : text :=
  match d with
  | Decimal.Nil => []
  | Decimal.D0 l => "0"%char :: uintDigits l
  | Decimal.D1 l => "1"%char :: uintDigits l
  | Decimal.D2 l => "2"%char :: uintDigits l
  | Decimal.D3 l => "3"%char :: uintDigits l
  | Decimal.D4 l => "4"%char :: uintDigits l
  | Decimal.D5 l => "5"%char :: uintDigits l
  | Decimal.D6 l => "6"%char :: uintDigits l
  | Decimal.D7 l => "7"%char :: uintDigits l
  | Decimal.D8 l => "8"%char :: uintDigits l
  | Decimal.D9 l => "9"%char :: uintDigits l
  end.

(** [n.toString()] of a bigint, and of a number that holds an integer
    (a length or a size). *)
Definition intToString (n : Z) : text :=
  match Z.to_int n with
  | Decimal.Pos d => uintDigits d
  | Decimal.Neg d => "-"%char :: uintDigits d
  end.

Definition toLowerChar (c : ascii) : ascii :=
  let n := nat_of_ascii c in
  if (65 <=? n)%nat && (n <=? 90)%nat then ascii_of_nat (n + 32) else c.

(** [str.toLowerCase()] on the ASCII letters. *)
Definition toLowerCase (s : text) : text := map toLowerChar s.

Fixpoint text_eqb (a b : text) : bool :=
  match a, b with
  | [], [] => true
  | x :: a', y :: b' => Ascii.eqb x y && text_eqb a' b'
  | _, _ => false
  end.

(** Doubles. *)
Definition number : Type := spec_float.
Definition Infinity : number := S754_infinity false.
Definition NegInfinity : number := S754_infinity true.
Definition NaN : number := S754_nan.

Definition isNaN (v : number) : bool :=
  match v with S754_nan => true | _ => false end.

Definition isFinite (v : number) : bool :=
  match v with S754_zero _ | S754_finite _ _ _ => true | _ => false end.

(** [Number(b)] for a bigint [b]: the nearest double, ties to even. *)
Definition NumberOfBigInt (b : Z) : number := binary_normalize 53 1024 b 0 false.

(** The integer a double denotes, when it denotes one. *)
Definition integerValue (v : number) : option Z :=
  match v with
  | S754_zero _ => Some 0
  | S754_finite s m e =>
      let z := if s then Z.neg m else Z.pos m in
      if 0 <=? e then Some (z * 2 ^ e)
      else if Z.pos m mod 2 ^ (- e) =? 0 then Some (z / 2 ^ (- e)) else None
  | _ => None
  end.

End Js.

(** ** The RESP3 value model ([parser.ts]) *)

(** [Buffer | string]: the payload of a blob string ([string] only under
    the [decodeBlobAsString] option). *)
Inductive Blob : Type :=
  | BufferOf (b : Buffer)
  | StringOf (s : text).

(** [bigint | string] *)
Inductive BigNumberValue : Type :=
  | BigIntOf (z : Z)
  | DigitsOf (s : text).

(** A node is its tagged payload and the optional [attributes] field.  A JS
    [Map] whose keys are freshly parsed nodes (distinct objects) is the list
    of its entries in insertion order; the value of an entry may be
    [undefined]. A [Set] of nodes is the list of its elements in insertion
    order. *)
Inductive Resp3 : Type :=
  | Node (body : Body) (attributes : option (list (Resp3 * option Resp3)))
with Body : Type :=
  | simple_string (value : text)
  | error (code : option text) (message : text)
  | integer (value : Z)
  | double (value : Js.number)
  | big_number (value : BigNumberValue)
  | boolean (value : bool)
  | null
  | blob_string (value : option Blob)
  | blob_error (code : option text) (message : text)
  | verbatim_string (format : text) (value : text)
  | array (value : option (list Resp3))
  | map (value : option (list (Resp3 * option Resp3)))
  | set (value : option (list Resp3))
  | push (value : list Resp3).

Definition Resp3Attributes : Type := list (Resp3 * option Resp3).

(** A freshly built object literal: no [attributes] property. *)
Definition plain (b : Body) : Resp3 := Node b None.

Definition body_of (n : Resp3) : Body := let '(Node b _) := n in b.
Definition attributes_of (n : Resp3) : option Resp3Attributes :=
  let '(Node _ a) := n in a.
Definition with_attributes (n : Resp3) (a : Resp3Attributes) : Resp3 :=
  Node (body_of n) (Some a).

Inductive AggregateKind : Type :=
  | k_array | k_map | k_set | k_attributes | k_push.

(** A frame of the aggregate stack. *)
Record Frame : Type := mkFrame {
  kind : AggregateKind;
  remaining : Z;
  items : list Resp3;
  attrs : option Resp3Attributes
}.

(** What a thrown JavaScript exception carries. *)
Inductive JsError : Type :=
  | Error (message : text)
  | TypeError (message : text).

(** Result of running a piece of the parser: normal completion, a thrown
    exception, or the recursion budget of the embedding ran out. *)
Inductive Completion (A : Type) : Type :=
  | Normal (a : A)
  | Throw (e : JsError)
  | OutOfFuel.
Arguments Normal {A} a.
Arguments Throw {A} e.
Arguments OutOfFuel {A}.

(** [Resp3 | typeof NEED_MORE | undefined] *)
Inductive Parsed : Type :=
  | Value (node : Resp3)
  | NEED_MORE
  | Undefined.

(** [ParserOptions].  A callback acts on the state [S] of whoever owns the
    parser and may itself throw. *)
Record ParserOptions (S : Type) : Type := mkOptions {
  onReply : option (Resp3 -> S -> S * option JsError);
  onPush : option (Resp3 -> S -> S * option JsError);
  onError : option (JsError -> S -> S);
  decodeBlobAsString : bool
}.
Arguments onReply {S} _.
Arguments onPush {S} _.
Arguments onError {S} _.
Arguments decodeBlobAsString {S} _.
Arguments mkOptions {S} _ _ _ _.

Module Parser.

(** The private fields of [Resp3Parser]; [_frames] has the innermost
    (last pushed) frame first. *)
Record Resp3Parser : Type := mkParser {
  _buffer : Buffer;
  _offset : Z;
  _frames : list Frame;
  _pendingAttributes : option Resp3Attributes
}.

Definition initial : Resp3Parser := mkParser [] 0 [] None.

Definition M (A : Type) : Type := Resp3Parser -> Completion A * Resp3Parser.

Definition ret {A} (a : A) : M A := fun p => (Normal a, p).
Definition throw {A} (e : JsError) : M A := fun p => (Throw e, p).
Definition outOfFuel {A} : M A := fun p => (OutOfFuel, p).
Definition bind {A C} (m : M A) (k : A -> M C) : M C :=
  fun p =>
    match m p with
    | (Normal a, p') => k a p'
    | (Throw e, p') => (Throw e, p')
    | (OutOfFuel, p') => (OutOfFuel, p')
    end.

Notation "x <- m ;; k" := (bind m (fun x => k))
  (at level 61, m at next level, right associativity).
Notation "m ;;; k" := (bind m (fun _ => k))
  (at level 61, right associativity).

Definition get {A} (f : Resp3Parser -> A) : M A := fun p => (Normal (f p), p).
Definition setOffset (o : Z) : M unit :=
  fun p => (Normal tt, mkParser (_buffer p) o (_frames p) (_pendingAttributes p)).
Definition setFrames (fs : list Frame) : M unit :=
  fun p => (Normal tt, mkParser (_buffer p) (_offset p) fs (_pendingAttributes p)).
Definition setPendingAttributes (a : option Resp3Attributes) : M unit :=
  fun p => (Normal tt, mkParser (_buffer p) (_offset p) (_frames p) a).

Definition quote : ascii := "034"%char.
Definition quoted (s : text) : text := quote :: s ++ [quote].

Definition hexDigit (n : nat) : ascii :=
  if (n <? 10)%nat then ascii_of_nat (48 + n) else ascii_of_nat (87 + n).
(** [prefix.toString(16)] of a byte *)
Definition hexOfByte (c : ascii) : text :=
  let n := nat_of_ascii c in
  if (n <? 16)%nat then [hexDigit n]
  else [hexDigit (n / 16); hexDigit (n mod 16)].

(** [[k1, v1, k2, v2, ...]] into map entries, as the two [for] loops of
    [finalizeFrameInstant] do; a trailing key gets [undefined]. *)
Fixpoint entriesOf (items : list Resp3) : list (Resp3 * option Resp3) :=
  match items with
  | k :: v :: tl => (k, Some v) :: entriesOf tl
  | [k] => [(k, None)]
  | [] => []
  end.

Section WithOptions.
Context {S : Type}.
Variable parseFloat : text -> Js.number.
Variable opts : ParserOptions S.

Definition attachAttrs (node : Resp3) : M Resp3 :=
  pending <- get _pendingAttributes ;;
  match pending with
  | Some a => setPendingAttributes None ;;; ret (with_attributes node a)
  | None => ret node
  end.

Definition attachExplicitAttrs (node : Resp3) (a : option Resp3Attributes) : Resp3 :=
  match a with
  | Some a => with_attributes node a
  | None => node
  end.

(** The guard every leaf parser starts with:
    [if (this._buffer[this._offset] !== c) return NEED_MORE]. *)
Definition prefixIs (c : ascii) : M bool :=
  b <- get _buffer ;; o <- get _offset ;;
  ret (match Js.at_ b o with Some x => Ascii.eqb x c | None => false end).

(** [None] is [NEED_MORE]. *)
Definition readLine : M (option text) :=
  b <- get _buffer ;; o <- get _offset ;;
  match Js.indexOfCRLF b o with
  | None => ret None
  | Some i =>
      let line := Js.toStringRange b (o + 1) i in
      setOffset (i + 2) ;;; ret (Some line)
  end.

Definition readLenAfterPrefix : M (option Z) :=
  b <- get _buffer ;; o <- get _offset ;;
  match Js.indexOfCRLF b (o + 1) with
  | None => ret None
  | Some i =>
      let s := Js.toStringRange b (o + 1) i in
      setOffset (i + 2) ;;;
      match Js.parseInt s with
      | Some n =>
          if Js.overflowsDouble n
          then throw (Error (B "Invalid length " ++ quoted s))
          else ret (Some n)
      | None => throw (Error (B "Invalid length " ++ quoted s))
      end
  end.

Definition ensure (n : Z) : M bool :=
  b <- get _buffer ;; o <- get _offset ;;
  ret (n <=? Js.length b - o).

(** [sp > 0 ? text.slice(0, sp) : undefined] and the message that goes
    with it. *)
Definition splitCode (line : text) : option text * text :=
  match Js.indexOf " "%char line with
  | Some (Datatypes.S sp') =>
      (Some (Js.sliceTo line (Datatypes.S sp')), Js.sliceFrom line (Datatypes.S sp' + 1))
  | _ => (None, line)
  end.

Definition parseSimpleString : M Parsed :=
  ok <- prefixIs "+"%char ;;
  if negb ok then ret NEED_MORE else
  line <- readLine ;;
  match line with
  | None => ret NEED_MORE
  | Some line => n <- attachAttrs (plain (simple_string line)) ;; ret (Value n)
  end.

Definition parseError : M Parsed :=
  ok <- prefixIs "-"%char ;;
  if negb ok then ret NEED_MORE else
  line <- readLine ;;
  match line with
  | None => ret NEED_MORE
  | Some line =>
      let '(code, message) := splitCode line in
      n <- attachAttrs (plain (error code message)) ;; ret (Value n)
  end.

Definition parseInteger : M Parsed :=
  ok <- prefixIs ":"%char ;;
  if negb ok then ret NEED_MORE else
  line <- readLine ;;
  match line with
  | None => ret NEED_MORE
  | Some line =>
      match Js.BigInt line with
      | Some v => n <- attachAttrs (plain (integer v)) ;; ret (Value n)
      | None => throw (Error (B "Invalid integer " ++ quoted line))
      end
  end.

Definition parseBlobStringLike (isBlobErr : bool) : M Parsed :=
  ok <- prefixIs (if isBlobErr then "!"%char else "$"%char) ;;
  if negb ok then ret NEED_MORE else
  len <- readLenAfterPrefix ;;
  match len with
  | None => ret NEED_MORE
  | Some len =>
      if len =? -1 then
        if isBlobErr
        then n <- attachAttrs (plain (blob_error None [])) ;; ret (Value n)
        else n <- attachAttrs (plain (blob_string None)) ;; ret (Value n)
      else
        enough <- ensure (len + 2) ;;
        if negb enough then ret NEED_MORE else
        b <- get _buffer ;; o <- get _offset ;;
        let payload := Js.subarray b o (o + len) in
        setOffset (o + len) ;;;
        enough2 <- ensure 2 ;;
        if negb enough2 then ret NEED_MORE else
        o <- get _offset ;;
        match Js.at_ b o, Js.at_ b (o + 1) with
        | Some c1, Some c2 =>
            if Ascii.eqb c1 CR && Ascii.eqb c2 LF then
              setOffset (o + 2) ;;;
              if isBlobErr then
                let '(code, message) := splitCode payload in
                n <- attachAttrs (plain (blob_error code message)) ;; ret (Value n)
              else if decodeBlobAsString opts then
                n <- attachAttrs (plain (blob_string (Some (StringOf payload)))) ;;
                ret (Value n)
              else
                n <- attachAttrs (plain (blob_string (Some (BufferOf payload)))) ;;
                ret (Value n)
            else throw (Error (B "Blob not terminated by CRLF"))
        | _, _ => throw (Error (B "Blob not terminated by CRLF"))
        end
  end.

(** [colon > 0 ? text.slice(0, colon) : 'txt'] and the value. *)
Definition splitFormat (payload : text) : text * text :=
  match Js.indexOf ":"%char payload with
  | Some (Datatypes.S c') =>
      (Js.sliceTo payload (Datatypes.S c'), Js.sliceFrom payload (Datatypes.S c' + 1))
  | _ => (B "txt", payload)
  end.

Definition parseVerbatimString : M Parsed :=
  ok <- prefixIs "="%char ;;
  if negb ok then ret NEED_MORE else
  len <- readLenAfterPrefix ;;
  match len with
  | None => ret NEED_MORE
  | Some len =>
      if len <? 0 then throw (Error (B "Invalid verbatim length")) else
      enough <- ensure (len + 2) ;;
      if negb enough then ret NEED_MORE else
      b <- get _buffer ;; o <- get _offset ;;
      let payload := Js.subarray b o (o + len) in
      setOffset (o + len) ;;;
      enough2 <- ensure 2 ;;
      if negb enough2 then ret NEED_MORE else
      o <- get _offset ;;
      match Js.at_ b o, Js.at_ b (o + 1) with
      | Some c1, Some c2 =>
          if Ascii.eqb c1 CR && Ascii.eqb c2 LF then
            setOffset (o + 2) ;;;
            let '(format, value) := splitFormat payload in
            n <- attachAttrs (plain (verbatim_string format value)) ;; ret (Value n)
          else throw (Error (B "Verbatim not terminated by CRLF"))
      | _, _ => throw (Error (B "Verbatim not terminated by CRLF"))
      end
  end.

Definition aggregateNull (k : AggregateKind) : Resp3 :=
  match k with
  | k_array => plain (array None)
  | k_map => plain (map None)
  | k_set => plain (set None)
  | k_push => plain (push [])
  | k_attributes => plain null
  end.

Definition stealPendingAttributes : M (option Resp3Attributes) :=
  a <- get _pendingAttributes ;;
  setPendingAttributes None ;;; ret a.

Definition finalizeFrameInstant (frame : Frame) : M Resp3 :=
  match kind frame with
  | k_array => ret (plain (array (Some (items frame))))
  | k_set => ret (plain (set (Some (items frame))))
  | k_map => ret (plain (map (Some (entriesOf (items frame)))))
  | k_attributes =>
      setPendingAttributes (Some (entriesOf (items frame))) ;;;
      ret (plain null)
  | k_push => ret (plain (push (items frame)))
  end.

Definition parseNull : M Parsed :=
  ok <- prefixIs "_"%char ;;
  if negb ok then ret NEED_MORE else
  line <- readLine ;;
  match line with
  | None => ret NEED_MORE
  | Some line =>
      if negb (Js.text_eqb line []) then throw (Error (B "Invalid null marker"))
      else n <- attachAttrs (plain null) ;; ret (Value n)
  end.

Definition parseBoolean : M Parsed :=
  ok <- prefixIs "#"%char ;;
  if negb ok then ret NEED_MORE else
  line <- readLine ;;
  match line with
  | None => ret NEED_MORE
  | Some line =>
      if negb (Js.text_eqb line (B "t")) && negb (Js.text_eqb line (B "f"))
      then throw (Error (B "Invalid boolean " ++ quoted line))
      else n <- attachAttrs (plain (boolean (Js.text_eqb line (B "t")))) ;; ret (Value n)
  end.

Definition parseDouble : M Parsed :=
  ok <- prefixIs ","%char ;;
  if negb ok then ret NEED_MORE else
  line <- readLine ;;
  match line with
  | None => ret NEED_MORE
  | Some line =>
      let lower := Js.toLowerCase line in
      let v :=
        if Js.text_eqb lower (B "inf") then Js.Infinity
        else if Js.text_eqb lower (B "-inf") then Js.NegInfinity
        else if Js.text_eqb lower (B "nan") then Js.NaN
        else parseFloat line in
      if Js.isNaN v && negb (Js.text_eqb lower (B "nan"))
      then throw (Error (B "Invalid double " ++ quoted line))
      else n <- attachAttrs (plain (double v)) ;; ret (Value n)
  end.

Definition parseBigNumber : M Parsed :=
  ok <- prefixIs "("%char ;;
  if negb ok then ret NEED_MORE else
  line <- readLine ;;
  match line with
  | None => ret NEED_MORE
  | Some line =>
      match Js.BigInt line with
      | Some v => n <- attachAttrs (plain (big_number (BigIntOf v))) ;; ret (Value n)
      | None => n <- attachAttrs (plain (big_number (DigitsOf line))) ;; ret (Value n)
      end
  end.

Definition expectedPrefix (k : AggregateKind) : ascii :=
  match k with
  | k_array => "*"%char
  | k_map => "%"%char
  | k_set => "~"%char
  | k_push => ">"%char
  | k_attributes => "|"%char
  end.

(** [parseAggregate], with the call [this.consumeNested()] it ends in
    passed as [consume]. *)
Definition parseAggregateWith (consume : M Parsed) (k : AggregateKind) : M Parsed :=
  ok <- prefixIs (expectedPrefix k) ;;
  if negb ok then ret NEED_MORE else
  len <- readLenAfterPrefix ;;
  match len with
  | None => ret NEED_MORE
  | Some len =>
      if len =? -1 then n <- attachAttrs (aggregateNull k) ;; ret (Value n) else
      stolen <- stealPendingAttributes ;;
      let frame :=
        mkFrame k
          (match k with k_map | k_attributes => len * 2 | _ => len end)
          [] stolen in
      if remaining frame =? 0 then
        done <- finalizeFrameInstant frame ;;
        n <- attachAttrs done ;; ret (Value n)
      else
        fs <- get _frames ;;
        setFrames (frame :: fs) ;;;
        consume
  end.

(** [parseOne], with [this.consumeNested] passed as [consume]. *)
Definition parseOneWith (consume : M Parsed) : M Parsed :=
  b <- get _buffer ;; o <- get _offset ;;
  if Js.length b <=? o then ret Undefined else
  match Js.at_ b o with
  | None => ret NEED_MORE
  | Some prefix =>
      match prefix with
      | "+"%char => parseSimpleString
      | "-"%char => parseError
      | ":"%char => parseInteger
      | "$"%char => parseBlobStringLike false
      | "!"%char => parseBlobStringLike true
      | "="%char => parseVerbatimString
      | "*"%char => parseAggregateWith consume k_array
      | "%"%char => parseAggregateWith consume k_map
      | "~"%char => parseAggregateWith consume k_set
      | ">"%char => parseAggregateWith consume k_push
      | "|"%char => parseAggregateWith consume k_attributes
      | "_"%char => parseNull
      | "#"%char => parseBoolean
      | ","%char => parseDouble
      | "("%char => parseBigNumber
      | _ => throw (Error (B "Unknown RESP3 prefix: 0x" ++ hexOfByte prefix))
      end
  end.

(** [top.items.push(child); top.remaining -= 1] *)
Definition pushItem (f : Frame) (child : Resp3) : Frame :=
  mkFrame (kind f) (remaining f - 1) (items f ++ [child]) (attrs f).

Definition undefinedItems : JsError :=
  TypeError (B "Cannot read properties of undefined (reading 'items')").

(** [consumeNested].  Every turn of its [while] loop, and every nested
    call reached through [parseOne], spends one unit of [fuel]. *)
Fixpoint consumeNested (fuel : nat) : M Parsed :=
  match fuel with
  | O => outOfFuel
  | Datatypes.S fuel' =>
      fs <- get _frames ;;
      match fs with
      | [] => ret Undefined
      | _ :: _ =>
          start <- get _offset ;;
          child <- parseOneWith (consumeNested fuel') ;;
          match child with
          | NEED_MORE | Undefined => setOffset start ;;; ret NEED_MORE
          | Value child =>
              fs <- get _frames ;;
              match fs with
              | [] => throw undefinedItems
              | top :: below =>
                  let top := pushItem top child in
                  setFrames (top :: below) ;;;
                  if remaining top >? 0 then consumeNested fuel' else
                  completed <- finalizeFrameInstant top ;;
                  setFrames below ;;;
                  let withAttrs := attachExplicitAttrs completed (attrs top) in
                  match below with
                  | [] => ret (Value withAttrs)
                  | parent :: above =>
                      setFrames (pushItem parent withAttrs :: above) ;;;
                      consumeNested fuel'
                  end
              end
          end
      end
  end.

Definition parseAggregate (fuel : nat) : AggregateKind -> M Parsed :=
  parseAggregateWith (consumeNested fuel).

Definition parseOne (fuel : nat) : M Parsed :=
  parseOneWith (consumeNested fuel).

(** Calling an optional callback. *)
Definition call {A} (cb : option (A -> S -> S * option JsError)) (a : A) (s : S)
  : S * option JsError :=
  match cb with
  | Some f => f a s
  | None => (s, None)
  end.

Definition isPlainNull (node : Resp3) : bool :=
  match node with
  | Node null None => true
  | _ => false
  end.

Definition isPush (node : Resp3) : bool :=
  match body_of node with
  | push _ => true
  | _ => false
  end.

Definition handleValue (node : Resp3) (p : Resp3Parser) (s : S) : S * option JsError :=
  if isPlainNull node && negb (List.length (_frames p) =? 0)%nat then (s, None)
  else if isPush node then
    match onPush opts with
    | Some f => f node s
    | None => call (onReply opts) node s
    end
  else call (onReply opts) node s.

Definition reportError (e : JsError) (s : S) : S :=
  match onError opts with
  | Some f => f e s
  | None => s
  end.

Definition reset (p : Resp3Parser) : Resp3Parser := mkParser [] 0 [] None.

(** The [try { while (true) ... } catch] of [feed]; [None] when the
    budget is spent before the loop is left. *)
Fixpoint feedLoop (fuel : nat) (p : Resp3Parser) (s : S) : option (Resp3Parser * S) :=
  match fuel with
  | O => None
  | Datatypes.S fuel' =>
      let start := _offset p in
      match parseOne fuel' p with
      | (OutOfFuel, _) => None
      | (Throw e, p') => Some (reset p', reportError e s)
      | (Normal NEED_MORE, p') =>
          Some (mkParser (_buffer p') start (_frames p') (_pendingAttributes p'), s)
      | (Normal Undefined, p') => Some (p', s)
      | (Normal (Value node), p') =>
          match handleValue node p' s with
          | (s', None) => feedLoop fuel' p' s'
          | (s', Some e) => Some (reset p', reportError e s')
          end
      end
  end.

(** [feed(chunk)] *)
Definition feed (fuel : nat) (chunk : Buffer) (p : Resp3Parser) (s : S)
  : option (Resp3Parser * S) :=
  if (List.length chunk =? 0)%nat then Some (p, s) else
  let p1 :=
    if (_offset p =? 0) && (Js.length (_buffer p) =? 0)
    then mkParser chunk (_offset p) (_frames p) (_pendingAttributes p)
    else
      let p0 :=
        if _offset p >? 0
        then mkParser (Js.subarrayFrom (_buffer p) (_offset p)) 0
                      (_frames p) (_pendingAttributes p)
        else p in
      mkParser (_buffer p0 ++ chunk) (_offset p0) (_frames p0) (_pendingAttributes p0) in
  feedLoop fuel p1 s.

(** Feeding the chunks one after the other. *)
Fixpoint feedAll (fuel : nat) (chunks : list Buffer) (p : Resp3Parser) (s : S)
  : option (Resp3Parser * S) :=
  match chunks with
  | [] => Some (p, s)
  | c :: rest =>
      match feed fuel c p s with
      | Some (p', s') => feedAll fuel rest p' s'
      | None => None
      end
  end.

End WithOptions.

(** [m2] agrees with [m1] wherever [m1] finishes within its budget. *)
Definition refines {A} (m1 m2 : M A) : Prop :=
  forall p r p', m1 p = (r, p') -> r <> OutOfFuel -> m2 p = (r, p').

End Parser.

(** ** The recording sinks of the parser test-suite ([mkParser]) *)

Record Sinks : Type := mkSinks {
  replies : list Resp3;
  pushes : list Resp3;
  errors : list JsError
}.

Definition noSinks : Sinks := mkSinks [] [] [].

Definition recorder : ParserOptions Sinks :=
  mkOptions
    (Some (fun v s => (mkSinks (replies s ++ [v]) (pushes s) (errors s), None)))
    (Some (fun v s => (mkSinks (replies s) (pushes s ++ [v]) (errors s), None)))
    (Some (fun e s => mkSinks (replies s) (pushes s) (errors s ++ [e])))
    false.

(** The same without a push sink: pushes surface through [onReply]. *)
Definition recorderNoPush : ParserOptions Sinks :=
  mkOptions (onReply recorder) None (onError recorder) false.

(** ** The encoder ([writer.ts]) *)

(** An argument of [encodeCommand]: [string | number | Buffer], and a
    boolean for the final [String(arg)] branch. *)
Inductive CommandArg : Type :=
  | ArgString (s : text)
  | ArgNumber (n : Js.number)
  | ArgBuffer (b : Buffer)
  | ArgBoolean (b : bool).

Module Writer.

(** The state of [Resp3Writer] is the written part of its growable buffer,
    [this._buffer.subarray(0, this._offset)]; [ensureCapacity] only
    enlarges the store behind it. *)
Definition W : Type := Buffer.

Definition reset (w : W) : W := [].

Definition writeByte (byte : ascii) (w : W) : W := w ++ [byte].
Definition writeBytes (data : Buffer) (w : W) : W := w ++ data.
Definition writeString (str : text) (w : W) : W := writeBytes str w.
Definition writeCRLF (w : W) : W := w ++ [CR; LF].

(** Do [f], then [g]. *)
Definition andThen (f g : W -> W) : W -> W := fun w => g (f w).
Infix ">>" := andThen (at level 50, left associativity).

Definition sizeToString {A} (l : list A) : text :=
  Js.intToString (Z.of_nat (List.length l)).

(** [this._buffer.set(str, offset)] with a string for the data: every
    character goes through [ToNumber]. *)
Definition charToByte (c : ascii) : ascii :=
  if Js.isDigit c then ascii_of_nat (nat_of_ascii c - 48) else zero.

Section WithToString.
Variable numberToString : Js.number -> text.

Definition writeSimpleString (str : text) : W -> W :=
  writeByte "+"%char >> writeString str >> writeCRLF.

(** [if (code)]: the empty string is falsy. *)
Definition codeAndMessage (code : option text) (message : text) : text :=
  match code with
  | Some (c :: cs) => (c :: cs) ++ " "%char :: message
  | _ => message
  end.

Definition writeError (code : option text) (message : text) : W -> W :=
  writeByte "-"%char >> writeString (codeAndMessage code message) >> writeCRLF.

Definition writeInteger (value : Z) : W -> W :=
  writeByte ":"%char >> writeString (Js.intToString value) >> writeCRLF.

Definition writeDouble (value : Js.number) : W -> W :=
  writeByte ","%char >>
  (if Js.isFinite value then writeString (numberToString value)
   else if Js.isNaN value then writeString (B "nan")
   else match value with
        | S754_infinity false => writeString (B "inf")
        | S754_infinity true => writeString (B "-inf")
        | _ => writeString (numberToString value)
        end) >>
  writeCRLF.

Definition writeBigNumber (value : BigNumberValue) : W -> W :=
  writeByte "("%char >>
  writeString (match value with
               | BigIntOf z => Js.intToString z
               | DigitsOf s => s
               end) >>
  writeCRLF.

Definition writeBoolean (value : bool) : W -> W :=
  writeByte "#"%char >> writeString (if value then B "t" else B "f") >> writeCRLF.

Definition writeNull : W -> W :=
  writeByte "_"%char >> writeCRLF.

Definition writeBlobString (value : option Blob) : W -> W :=
  writeByte "$"%char >>
  match value with
  | None => writeString (B "-1") >> writeCRLF
  | Some (BufferOf b) =>
      writeString (sizeToString b) >> writeCRLF >> writeBytes b >> writeCRLF
  | Some (StringOf s) =>
      writeString (sizeToString s) >> writeCRLF >>
      writeBytes (List.map charToByte s) >> writeCRLF
  end.

Definition writeBlobError (code : option text) (message : text) : W -> W :=
  let contentBytes := codeAndMessage code message in
  writeByte "!"%char >>
  writeString (sizeToString contentBytes) >> writeCRLF >>
  writeBytes contentBytes >> writeCRLF.

Definition writeVerbatimString (format value : text) : W -> W :=
  let contentBytes := format ++ ":"%char :: value in
  writeByte "="%char >>
  writeString (sizeToString contentBytes) >> writeCRLF >>
  writeBytes contentBytes >> writeCRLF.

Definition writeArrayHeader (length : Z) : W -> W :=
  writeByte "*"%char >> writeString (Js.intToString length) >> writeCRLF.

Definition writeBulkString (value : Buffer) : W -> W :=
  writeByte "$"%char >>
  writeString (sizeToString value) >> writeCRLF >>
  writeBytes value >> writeCRLF.

(** [for (const value of values) this.writeValue(value)] *)
Fixpoint writeEach (writeValue : Resp3 -> W -> W) (values : list Resp3) (w : W) : W :=
  match values with
  | [] => w
  | v :: tl => writeEach writeValue tl (writeValue v w)
  end.

(** The loop over the entries of a [Map], with [convertToResp3] on the
    key and on the value: a node is returned as it is, [undefined]
    becomes [{ __type: 'null' }]. *)
Fixpoint writeEntries (writeValue : Resp3 -> W -> W)
    (entries : list (Resp3 * option Resp3)) (w : W) : W :=
  match entries with
  | [] => w
  | (k, v) :: tl =>
      let w := writeValue k w in
      let w := match v with
               | Some v => writeValue v w
               | None => writeNull w
               end in
      writeEntries writeValue tl w
  end.

Fixpoint writeValue (value : Resp3) (w : W) {struct value} : W :=
  match value with
  | Node body attributes =>
      let w :=
        match attributes with
        | Some (e :: es) =>
            writeEntries writeValue (e :: es)
              ((writeByte "|"%char >> writeString (sizeToString (e :: es)) >> writeCRLF) w)
        | _ => w
        end in
      match body with
      | simple_string value => writeSimpleString value w
      | error code message => writeError code message w
      | integer value => writeInteger value w
      | double value => writeDouble value w
      | big_number value => writeBigNumber value w
      | boolean value => writeBoolean value w
      | null => writeNull w
      | blob_string value => writeBlobString value w
      | blob_error code message => writeBlobError code message w
      | verbatim_string format value => writeVerbatimString format value w
      | array None => (writeByte "*"%char >> writeString (B "-1") >> writeCRLF) w
      | array (Some values) =>
          writeEach writeValue values
            ((writeByte "*"%char >> writeString (sizeToString values) >> writeCRLF) w)
      | map None => (writeByte "%"%char >> writeString (B "-1") >> writeCRLF) w
      | map (Some entries) =>
          writeEntries writeValue entries
            ((writeByte "%"%char >> writeString (sizeToString entries) >> writeCRLF) w)
      | set None => (writeByte "~"%char >> writeString (B "-1") >> writeCRLF) w
      | set (Some values) =>
          writeEach writeValue values
            ((writeByte "~"%char >> writeString (sizeToString values) >> writeCRLF) w)
      | push values =>
          writeEach writeValue values
            ((writeByte ">"%char >> writeString (sizeToString values) >> writeCRLF) w)
      end
  end.

Definition writeAttributes (attributes : Resp3Attributes) : W -> W :=
  writeByte "|"%char >> writeString (sizeToString attributes) >> writeCRLF >>
  writeEntries writeValue attributes.

Definition writeArray (values : option (list Resp3)) : W -> W :=
  writeValue (plain (array values)).

(** [encode(value)] *)
Definition encode (value : Resp3) : Buffer := writeValue value (reset []).

(** [encodeArray(values)] *)
Definition encodeArray (values : list Resp3) : Buffer :=
  writeArray (Some values) (reset []).

Definition argBytes (arg : CommandArg) : Buffer :=
  match arg with
  | ArgString s => s
  | ArgNumber n => numberToString n
  | ArgBuffer b => b
  | ArgBoolean b => if b then B "true" else B "false"
  end.

(** [encodeCommand(command, ...args)] *)
Definition encodeCommand (command : text) (args : list CommandArg) : Buffer :=
  fold_left (fun w arg => writeBulkString (argBytes arg) w) args
    ((writeArrayHeader (Z.of_nat (List.length args) + 1) >> writeBulkString command)
       (reset [])).

End WithToString.

End Writer.

(** ** The connection core ([core/types.ts], [core/errors.ts],
       [core/connection.ts]) *)

Inductive ClientState : Type :=
  | disconnected | connecting | connected | disconnecting | error_state.

(** A numeric option: a JavaScript number that holds an integer, [NaN],
    or one of the two infinities. *)
Inductive Num : Type :=
  | Int (z : Z)
  | NotANumber
  | Infinite (negative : bool).

(** [a < b] and [a > b] on numbers: false as soon as one side is [NaN]. *)
Definition num_lt (a : Num) (b : Z) : bool :=
  match a with
  | Int z => z <? b
  | NotANumber => false
  | Infinite negative => negative
  end.
Definition num_gt (a : Num) (b : Z) : bool :=
  match a with
  | Int z => z >? b
  | NotANumber => false
  | Infinite negative => negb negative
  end.

Record RequiredClientOptions : Type := mkClientOptions {
  url : text;
  host : text;
  port : Num;
  username : text;
  password : text;
  clientName : text;
  autoConnect : bool;
  connectTimeout : Num;
  commandTimeout : Num;
  database : Num
}.

Definition DEFAULT_CLIENT_OPTIONS : RequiredClientOptions :=
  mkClientOptions [] (B "localhost") (Int 6379) [] [] [] true (Int 5000) (Int 5000) (Int 0).

(** [`cmd_${++this._commandIdCounter}_${Date.now()}`] *)
Record CommandId : Type := mkCommandId { counter : Z; stamp : Z }.

Definition CommandId_eqb (a b : CommandId) : bool :=
  (counter a =? counter b) && (stamp a =? stamp b).

(** The errors that travel through the connection manager. *)
Inductive CoreError : Type :=
  | ConnectionRequiredError (command : text) (currentState : ClientState)
  | CommandTimeoutError (command : text) (timeoutMs : Num) (args : list CommandArg)
  | ParseError (message : text) (cause : JsError)
  | TransformError (command : text) (actualValue : Resp3) (cause : JsError)
  | ConfigurationError (message : text) (option_ : text)
  | Plain (e : JsError)
  (** [new Error(`Unexpected handshake response: ${JSON.stringify(resp3)}`)] *)
  | UnexpectedHandshakeResponse (resp3 : Resp3)
  (** [new Error('Handshake timeout')] *)
  | HandshakeTimeout.

(** What [_transformResponse] hands to [resolve]. *)
Inductive JsValue : Type :=
  | js_string (s : text)
  | js_number (n : Js.number)
  | js_boolean (b : bool)
  | js_null
  | js_array (l : list Resp3)
  | js_Map (m : list (Resp3 * option Resp3))
  | js_Set (s : list Resp3).

Inductive Settlement : Type :=
  | Resolved (value : JsValue)
  | Rejected (e : CoreError).

(** A pending command; its [resolve] and [reject] closures are the
    functions [resolvePending] and [rejectPending] below, its [timeout]
    handle is the membership of [id] in the armed timers. *)
Record PendingCommand : Type := mkPending {
  id : CommandId;
  command : text;
  args : list CommandArg
}.

Inductive Emitted : Type :=
  | ev_error (e : CoreError)
  | ev_push (p : Resp3)
  | ev_connect
  | ev_disconnect (reason : text)
  | ev_state_change (old new : ClientState)
  | ev_command_start (command : text) (args : list CommandArg)
  | ev_command_end (command : text) (value : JsValue)
  | ev_command_error (command : text) (e : CoreError).

(** State of a promise. *)
Inductive Promise (A : Type) : Type :=
  | NotCreated
  | Pending
  | Fulfilled (a : A)
  | RejectedWith (e : CoreError).
Arguments NotCreated {A}.
Arguments Pending {A}.
Arguments Fulfilled {A} a.
Arguments RejectedWith {A} e.

Module Connection.

(** The fields of [ConnectionManager], followed by what the outside
    observes of it: the buffers handed to [transport.write], the events
    emitted, how the promises of [sendCommand] were settled, the armed
    command timers, and the promises of [connect] and of the handshake.
    [_onReplySwapped] holds while [this._parser.opts.onReply] is the
    closure installed by [_performHandshake]; [_handshakeTimer] while the
    handshake timer is armed. *)
Record ConnectionManager : Type := mkCM {
  _transport : bool;
  _parser : option Parser.Resp3Parser;
  _writer : bool;
  _state : ClientState;
  _pendingCommands : list (CommandId * PendingCommand);
  _commandIdCounter : Z;
  _options : RequiredClientOptions;
  _isHandshakeComplete : bool;
  _onReplySwapped : bool;
  _handshakeTimer : bool;
  handshakePromise : Promise unit;
  connectPromise : Promise unit;
  written : list Buffer;
  emitted : list Emitted;
  settled : list (CommandId * Settlement);
  timers : list CommandId
}.

Definition create (options : RequiredClientOptions) : ConnectionManager :=
  mkCM false None false disconnected [] 0 options false false false
       NotCreated NotCreated [] [] [] [].

(** Field updates. *)
Definition emit (e : Emitted) (cm : ConnectionManager) : ConnectionManager :=
  mkCM (_transport cm) (_parser cm) (_writer cm) (_state cm) (_pendingCommands cm)
       (_commandIdCounter cm) (_options cm) (_isHandshakeComplete cm)
       (_onReplySwapped cm) (_handshakeTimer cm) (handshakePromise cm)
       (connectPromise cm) (written cm) (emitted cm ++ [e]) (settled cm) (timers cm).

Definition setPending (m : list (CommandId * PendingCommand)) (cm : ConnectionManager) :=
  mkCM (_transport cm) (_parser cm) (_writer cm) (_state cm) m
       (_commandIdCounter cm) (_options cm) (_isHandshakeComplete cm)
       (_onReplySwapped cm) (_handshakeTimer cm) (handshakePromise cm)
       (connectPromise cm) (written cm) (emitted cm) (settled cm) (timers cm).

Definition setTimers (t : list CommandId) (cm : ConnectionManager) :=
  mkCM (_transport cm) (_parser cm) (_writer cm) (_state cm) (_pendingCommands cm)
       (_commandIdCounter cm) (_options cm) (_isHandshakeComplete cm)
       (_onReplySwapped cm) (_handshakeTimer cm) (handshakePromise cm)
       (connectPromise cm) (written cm) (emitted cm) (settled cm) t.

Definition setParser (p : option Parser.Resp3Parser) (cm : ConnectionManager) :=
  mkCM (_transport cm) p (_writer cm) (_state cm) (_pendingCommands cm)
       (_commandIdCounter cm) (_options cm) (_isHandshakeComplete cm)
       (_onReplySwapped cm) (_handshakeTimer cm) (handshakePromise cm)
       (connectPromise cm) (written cm) (emitted cm) (settled cm) (timers cm).

Definition write (data : Buffer) (cm : ConnectionManager) :=
  mkCM (_transport cm) (_parser cm) (_writer cm) (_state cm) (_pendingCommands cm)
       (_commandIdCounter cm) (_options cm) (_isHandshakeComplete cm)
       (_onReplySwapped cm) (_handshakeTimer cm) (handshakePromise cm)
       (connectPromise cm) (written cm ++ [data]) (emitted cm) (settled cm) (timers cm).

Definition setHandshake (swapped timer : bool) (hp : Promise unit)
    (cm : ConnectionManager) :=
  mkCM (_transport cm) (_parser cm) (_writer cm) (_state cm) (_pendingCommands cm)
       (_commandIdCounter cm) (_options cm) (_isHandshakeComplete cm)
       swapped timer hp
       (connectPromise cm) (written cm) (emitted cm) (settled cm) (timers cm).

Definition setConnect (complete : bool) (cp : Promise unit) (cm : ConnectionManager) :=
  mkCM (_transport cm) (_parser cm) (_writer cm) (_state cm) (_pendingCommands cm)
       (_commandIdCounter cm) (_options cm) complete
       (_onReplySwapped cm) (_handshakeTimer cm) (handshakePromise cm)
       cp (written cm) (emitted cm) (settled cm) (timers cm).

(** A promise settles once: later calls of [resolve] or [reject] are
    ignored. *)
Definition isSettled (i : CommandId) (cm : ConnectionManager) : bool :=
  existsb (fun e => CommandId_eqb (fst e) i) (settled cm).

Definition settle (i : CommandId) (s : Settlement) (cm : ConnectionManager) :=
  if isSettled i cm then cm else
  mkCM (_transport cm) (_parser cm) (_writer cm) (_state cm) (_pendingCommands cm)
       (_commandIdCounter cm) (_options cm) (_isHandshakeComplete cm)
       (_onReplySwapped cm) (_handshakeTimer cm) (handshakePromise cm)
       (connectPromise cm) (written cm) (emitted cm) (settled cm ++ [(i, s)]) (timers cm).

(** [Map.prototype.delete], [set] and the first entry in insertion order. *)
Definition mapDelete {V} (k : CommandId) (m : list (CommandId * V)) : list (CommandId * V) :=
  filter (fun e => negb (CommandId_eqb (fst e) k)) m.

Fixpoint mapSet {V} (k : CommandId) (v : V) (m : list (CommandId * V))
  : list (CommandId * V) :=
  match m with
  | [] => [(k, v)]
  | (k', v') :: tl =>
      if CommandId_eqb k' k then (k, v) :: tl else (k', v') :: mapSet k v tl
  end.

Definition clearTimeout (i : CommandId) (cm : ConnectionManager) : ConnectionManager :=
  setTimers (filter (fun t => negb (CommandId_eqb t i)) (timers cm)) cm.

Definition isConnected (cm : ConnectionManager) : bool :=
  match _state cm with
  | connected => _isHandshakeComplete cm
  | _ => false
  end.

Definition _setState (newState : ClientState) (cm : ConnectionManager) :=
  let oldState := _state cm in
  emit (ev_state_change oldState newState)
    (mkCM (_transport cm) (_parser cm) (_writer cm) newState (_pendingCommands cm)
       (_commandIdCounter cm) (_options cm) (_isHandshakeComplete cm)
       (_onReplySwapped cm) (_handshakeTimer cm) (handshakePromise cm)
       (connectPromise cm) (written cm) (emitted cm) (settled cm) (timers cm)).

(** The [resolve] closure of a pending command. *)
Definition resolvePending (pc : PendingCommand) (value : JsValue)
    (cm : ConnectionManager) : ConnectionManager :=
  let cm := clearTimeout (id pc) cm in
  let cm := setPending (mapDelete (id pc) (_pendingCommands cm)) cm in
  let cm := emit (ev_command_end (command pc) value) cm in
  settle (id pc) (Resolved value) cm.

(** The [reject] closure of a pending command. *)
Definition rejectPending (pc : PendingCommand) (e : CoreError)
    (cm : ConnectionManager) : ConnectionManager :=
  let cm := clearTimeout (id pc) cm in
  let cm := setPending (mapDelete (id pc) (_pendingCommands cm)) cm in
  let cm := emit (ev_command_error (command pc) e) cm in
  settle (id pc) (Rejected e) cm.

(** The callback given to [setTimeout] in [sendCommand]; it runs only
    while the timer of the command is armed. *)
Definition commandTimeoutFires (pc : PendingCommand) (cm : ConnectionManager)
  : ConnectionManager :=
  if existsb (CommandId_eqb (id pc)) (timers cm) then
    let cm := clearTimeout (id pc) cm in
    let cm := setPending (mapDelete (id pc) (_pendingCommands cm)) cm in
    settle (id pc)
      (Rejected (CommandTimeoutError (command pc) (commandTimeout (_options cm)) (args pc)))
      cm
  else cm.

(** [`${resp3.code || 'ERROR'}: ${resp3.message}`] *)
Definition serverErrorMessage (code : option text) (message : text) : text :=
  match code with
  | Some (c :: cs) => (c :: cs) ++ B ": " ++ message
  | _ => B "ERROR: " ++ message
  end.

(** [resp3.value?.toString('utf8') || null]; the string is held as its
    UTF-8 bytes, which is what [toString] yields of well-formed UTF-8. *)
Definition blobToJs (value : option Blob) : JsValue :=
  match value with
  | Some (BufferOf (c :: cs)) => js_string (c :: cs)
  | Some (StringOf (c :: cs)) => js_string (c :: cs)
  | _ => js_null
  end.

Definition _transformResponse (resp3 : Resp3) (command : text) : JsValue + CoreError :=
  match body_of resp3 with
  | simple_string value => inl (js_string value)
  | error code message =>
      inr (TransformError command resp3 (Error (serverErrorMessage code message)))
  | integer value => inl (js_number (Js.NumberOfBigInt value))
  | double value => inl (js_number value)
  | big_number (BigIntOf z) => inl (js_number (Js.NumberOfBigInt z))
  | big_number (DigitsOf s) => inl (js_string s)
  | boolean value => inl (js_boolean value)
  | null => inl js_null
  | blob_string value => inl (blobToJs value)
  | blob_error code message =>
      inr (TransformError command resp3 (Error (serverErrorMessage code message)))
  | verbatim_string _ value => inl (js_string value)
  | array (Some l) => inl (js_array l)
  | array None => inl js_null
  | map (Some m) => inl (js_Map m)
  | map None => inl js_null
  | set (Some s) => inl (js_Set s)
  | set None => inl js_null
  | push l => inl (js_array l)
  end.

Definition notIterable : JsError :=
  TypeError (B "undefined is not iterable (cannot read property Symbol(Symbol.iterator))").

(** [_handleReply]: the array pattern that takes the first entry of the
    map throws on an empty map. *)
Definition _handleReply (resp3 : Resp3) (cm : ConnectionManager)
  : ConnectionManager * option JsError :=
  match _pendingCommands cm with
  | [] => (cm, Some notIterable)
  | (_, pending) :: _ =>
      match _transformResponse resp3 (command pending) with
      | inl transformed => (resolvePending pending transformed cm, None)
      | inr e => (rejectPending pending e cm, None)
      end
  end.

Definition _handlePush (p : Resp3) (cm : ConnectionManager)
  : ConnectionManager * option JsError :=
  (emit (ev_push p) cm, None).

Definition errorMessage (e : JsError) : text :=
  match e with Error m | TypeError m => m end.

Definition _handleParseError (e : JsError) (cm : ConnectionManager) : ConnectionManager :=
  emit (ev_error (ParseError (errorMessage e) e)) cm.

(** [JSON.stringify] throws a [TypeError] on a bigint it reaches; it
    walks object properties and arrays, and prints a [Map] or a [Set] as
    an empty object without looking inside. *)
Fixpoint stringifyThrows (resp3 : Resp3) : bool :=
  match resp3 with
  | Node body _ =>
      match body with
      | integer _ => true
      | big_number (BigIntOf _) => true
      | array (Some l) => existsb stringifyThrows l
      | push l => existsb stringifyThrows l
      | _ => false
      end
  end.

Definition cannotSerialize : JsError :=
  TypeError (B "Do not know how to serialize a BigInt").

Definition isSimpleOK (resp3 : Resp3) : bool :=
  match body_of resp3 with
  | simple_string value => Js.text_eqb value (B "OK")
  | _ => false
  end.

(** [resolve] and [reject] of the promise of [_performHandshake], and the
    rest of [connect] that waits on it. *)
Definition handshakeResolve (cm : ConnectionManager) : ConnectionManager :=
  match handshakePromise cm with
  | Pending =>
      let cm := setHandshake (_onReplySwapped cm) (_handshakeTimer cm) (Fulfilled tt) cm in
      let cm := setConnect true (Fulfilled tt) cm in
      emit ev_connect cm
  | _ => cm
  end.

Definition handshakeReject (e : CoreError) (cm : ConnectionManager) : ConnectionManager :=
  match handshakePromise cm with
  | Pending =>
      let cm := setHandshake (_onReplySwapped cm) (_handshakeTimer cm) (RejectedWith e) cm in
      let cm := _setState error_state cm in
      let cm := emit (ev_error e) cm in
      setConnect (_isHandshakeComplete cm) (RejectedWith e) cm
  | _ => cm
  end.

(** The [onReply] closure installed by [_performHandshake]. *)
Definition handshakeOnReply (resp3 : Resp3) (cm : ConnectionManager)
  : ConnectionManager * option JsError :=
  let cm := setHandshake false false (handshakePromise cm) cm in
  if isSimpleOK resp3 then (handshakeResolve cm, None)
  else if stringifyThrows resp3 then (cm, Some cannotSerialize)
  else (handshakeReject (UnexpectedHandshakeResponse resp3) cm, None).

(** The handshake timer. *)
Definition handshakeTimeoutFires (cm : ConnectionManager) : ConnectionManager :=
  if _handshakeTimer cm then
    handshakeReject HandshakeTimeout
      (setHandshake (_onReplySwapped cm) false (handshakePromise cm) cm)
  else cm.

(** The options the parser is created with in [connect]; its [onReply]
    slot is overwritten during the handshake. *)
Definition parserOptions : ParserOptions ConnectionManager :=
  mkOptions
    (Some (fun v cm => if _onReplySwapped cm then handshakeOnReply v cm
                       else _handleReply v cm))
    (Some _handlePush)
    (Some _handleParseError)
    false.

Section WithBuiltins.
Variable parseFloat : text -> Js.number.
Variable numberToString : Js.number -> text.

(** The ['data'] handler of the transport; [None] when the parser does
    not come back within [fuel]. *)
Definition onData (fuel : nat) (data : Buffer) (cm : ConnectionManager)
  : option ConnectionManager :=
  match _parser cm with
  | Some p =>
      match Parser.feed parseFloat parserOptions fuel data p cm with
      | Some (p', cm') => Some (setParser (Some p') cm')
      | None => None
      end
  | None => Some cm
  end.

(** [connect], up to the [await] on [transport.connect()]. *)
Definition connect (cm : ConnectionManager) : ConnectionManager :=
  match _state cm with
  | connected | connecting => cm
  | _ =>
      let cm := _setState connecting cm in
      mkCM true (Some Parser.initial) true (_state cm) (_pendingCommands cm)
           (_commandIdCounter cm) (_options cm) (_isHandshakeComplete cm)
           (_onReplySwapped cm) (_handshakeTimer cm) (handshakePromise cm)
           Pending (written cm) (emitted cm) (settled cm) (timers cm)
  end.

(** [_performHandshake] *)
Definition _performHandshake (cm : ConnectionManager) : ConnectionManager :=
  let helloBuffer := Writer.encodeCommand numberToString (B "HELLO") [ArgString (B "3")] in
  let cm := write helloBuffer cm in
  setHandshake true true Pending cm.

(** [connect], resumed when [transport.connect()] has succeeded. *)
Definition transportConnected (cm : ConnectionManager) : ConnectionManager :=
  _performHandshake (_setState connected cm).

(** [sendCommand] at time [now]; the result is the id behind the
    returned promise, or the error the call throws. *)
Definition sendCommand (now : Z) (cmd : text) (arguments : list CommandArg)
    (cm : ConnectionManager) : ConnectionManager * (CommandId + CoreError) :=
  if negb (isConnected cm) then (cm, inr (ConnectionRequiredError cmd (_state cm)))
  else if negb (_transport cm) || negb (_writer cm)
  then (cm, inr (ConnectionRequiredError cmd (_state cm)))
  else
    let n := _commandIdCounter cm + 1 in
    let commandId := mkCommandId n now in
    let pending := mkPending commandId cmd arguments in
    let cm :=
      mkCM (_transport cm) (_parser cm) (_writer cm) (_state cm)
           (mapSet commandId pending (_pendingCommands cm))
           n (_options cm) (_isHandshakeComplete cm)
           (_onReplySwapped cm) (_handshakeTimer cm) (handshakePromise cm)
           (connectPromise cm) (written cm) (emitted cm) (settled cm)
           (timers cm ++ [commandId]) in
    let cm := write (Writer.encodeCommand numberToString cmd arguments) cm in
    (emit (ev_command_start cmd arguments) cm, inl commandId).

End WithBuiltins.

(** How the promise of command [i] was settled, if it was. *)
Definition outcome (i : CommandId) (cm : ConnectionManager) : option Settlement :=
  match find (fun e => CommandId_eqb (fst e) i) (settled cm) with
  | Some (_, s) => Some s
  | None => None
  end.

Definition pendingIds (cm : ConnectionManager) : list CommandId :=
  List.map fst (_pendingCommands cm).

End Connection.

(** ** Option validation of the client ([core/client.ts]) *)

Module Client.

(** What [_parseUrl] reads of the object [new URL(url)] builds. *)
Module URL.
Record t : Type := mk {
  protocol : text;
  hostname : text;
  port : text;
  username : text;
  password : text;
  pathname : text
}.
End URL.

Definition _validateOptions (options : RequiredClientOptions) : option CoreError :=
  if num_lt (port options) 1 || num_gt (port options) 65535 then
    Some (ConfigurationError (B "Port must be between 1 and 65535") (B "port"))
  else if num_lt (connectTimeout options) 0 then
    Some (ConfigurationError (B "Connect timeout must be non-negative") (B "connectTimeout"))
  else if num_lt (commandTimeout options) 0 then
    Some (ConfigurationError (B "Command timeout must be non-negative") (B "commandTimeout"))
  else if num_lt (database options) 0 then
    Some (ConfigurationError (B "Database must be non-negative") (B "database"))
  else None.

(** [ClientOptions]: every field may be left out. *)
Record ClientOptions : Type := mkPartial {
  o_url : option text;
  o_host : option text;
  o_port : option Num;
  o_username : option text;
  o_password : option text;
  o_clientName : option text;
  o_autoConnect : option bool;
  o_connectTimeout : option Num;
  o_commandTimeout : option Num;
  o_database : option Num
}.

Definition noOptions : ClientOptions :=
  mkPartial None None None None None None None None None None.

Definition orDefault {A} (o : option A) (d : A) : A :=
  match o with Some a => a | None => d end.

(** [{ ...DEFAULT_CLIENT_OPTIONS, ...options }] *)
Definition merge (options : ClientOptions) : RequiredClientOptions :=
  let d := DEFAULT_CLIENT_OPTIONS in
  mkClientOptions
    (orDefault (o_url options) (url d))
    (orDefault (o_host options) (host d))
    (orDefault (o_port options) (port d))
    (orDefault (o_username options) (username d))
    (orDefault (o_password options) (password d))
    (orDefault (o_clientName options) (clientName d))
    (orDefault (o_autoConnect options) (autoConnect d))
    (orDefault (o_connectTimeout options) (connectTimeout d))
    (orDefault (o_commandTimeout options) (commandTimeout d))
    (orDefault (o_database options) (database d)).

(** [`${error}`], that is [Error.prototype.toString]: the name alone when
    the message is empty. *)
Definition errorToString (thrown : JsError) : text :=
  match thrown with
  | Error [] => B "Error"
  | Error message => B "Error: " ++ message
  | TypeError [] => B "TypeError"
  | TypeError message => B "TypeError: " ++ message
  end.

(** [parseInt(s, 10)] as a number: the double nearest to the integer that
    is read, [NaN] when no digit is read. *)
Definition parseIntNumber (s : text) : Num :=
  match Js.parseInt s with
  | None => NotANumber
  | Some z =>
      match Js.NumberOfBigInt z with
      | S754_infinity negative => Infinite negative
      | v => match Js.integerValue v with Some z' => Int z' | None => NotANumber end
      end
  end.

(** The object [_parseUrl] returns. *)
Record ParsedUrl : Type := mkParsedUrl {
  p_host : text;
  p_port : Num;
  p_username : text;
  p_password : text;
  p_database : Num
}.

(** The object literal of [_parseUrl]; [x || ''] of a string is the
    string. *)
Definition fromURL (parsed : URL.t) : ParsedUrl :=
  mkParsedUrl
    (URL.hostname parsed)
    (match URL.port parsed with
     | [] => Int 6379
     | p => parseIntNumber p
     end)
    (URL.username parsed)
    (URL.password parsed)
    (match URL.pathname parsed with
     | [] => Int 0
     | p => parseIntNumber (Js.sliceFrom p 1)
     end).

(** [Object.assign(normalized, parsed)] *)
Definition assign (normalized : RequiredClientOptions) (parsed : ParsedUrl)
  : RequiredClientOptions :=
  mkClientOptions (url normalized) (p_host parsed) (p_port parsed)
    (p_username parsed) (p_password parsed)
    (clientName normalized) (autoConnect normalized)
    (connectTimeout normalized) (commandTimeout normalized) (p_database parsed).

Section WithURL.
(** [new URL(url)]: the parsed URL, or the error the constructor throws. *)
Variable newURL : text -> URL.t + JsError.

(** [_parseUrl]: whatever is thrown inside the [try], by [new URL] or by
    the test of the protocol, is caught and wrapped. *)
Definition _parseUrl (url : text) : ParsedUrl + CoreError :=
  let caught (thrown : JsError) : CoreError :=
    ConfigurationError (B "Invalid Redis URL: " ++ errorToString thrown) (B "url") in
  match newURL url with
  | inr thrown => inr (caught thrown)
  | inl parsed =>
      if negb (Js.text_eqb (URL.protocol parsed) (B "redis:"))
         && negb (Js.text_eqb (URL.protocol parsed) (B "rediss:"))
      then inr (caught (Error (B "Invalid protocol. Expected redis: or rediss:")))
      else inl (fromURL parsed)
  end.

(** [_normalizeOptions]: the merge with the defaults, the URL when there
    is a non-empty one, then the validation. *)
Definition _normalizeOptions (options : ClientOptions) : RequiredClientOptions + CoreError :=
  let normalized := merge options in
  let withUrl :=
    match url normalized with
    | [] => inl normalized
    | _ :: _ =>
        match _parseUrl (url normalized) with
        | inl parsed => inl (assign normalized parsed)
        | inr e => inr e
        end
    end in
  match withUrl with
  | inl normalized =>
      match _validateOptions normalized with
      | Some e => inr e
      | None => inl normalized
      end
  | inr e => inr e
  end.

(** [new RedisClient(options)]: the connection manager it builds, or the
    error the constructor throws. *)
Definition construct (options : ClientOptions) : Connection.ConnectionManager + CoreError :=
  match _normalizeOptions options with
  | inl o => inl (Connection.create o)
  | inr e => inr e
  end.

End WithURL.

End Client.

(** ** Runs of the session: submissions, replies and push frames *)

Inductive SessionEvent : Type :=
  | Submit (now : Z) (cmd : text) (arguments : list CommandArg)
  | Reply (resp3 : Resp3)
  | PushFrame (p : Resp3).

Module Session.
Import Connection.

Section WithBuiltins.
Variable numberToString : Js.number -> text.

Definition step (cm : ConnectionManager) (ev : SessionEvent) : ConnectionManager :=
  match ev with
  | Submit now cmd arguments => fst (sendCommand numberToString now cmd arguments cm)
  | Reply resp3 => fst (_handleReply resp3 cm)
  | PushFrame p => fst (_handlePush p cm)
  end.

Definition run (trace : list SessionEvent) (cm : ConnectionManager) : ConnectionManager :=
  fold_left step trace cm.
End WithBuiltins.

(** The ids [sendCommand] hands out along a trace, from counter [c]. *)
Fixpoint submittedIds (c : Z) (trace : list SessionEvent) : list CommandId :=
  match trace with
  | [] => []
  | Submit now _ _ :: tl => mkCommandId (c + 1) now :: submittedIds (c + 1) tl
  | _ :: tl => submittedIds c tl
  end.

(** How [_handleReply] settles the command [cmd] on the reply [resp3]. *)
Definition settlementOf (resp3 : Resp3) (cmd : text) : Settlement :=
  match _transformResponse resp3 cmd with
  | inl v => Resolved v
  | inr e => Rejected e
  end.

(** Well-formed manager: the ids of the map are distinct, were handed out
    by the counter, and belong to promises that are still open. *)
Definition wellFormed (cm : ConnectionManager) : Prop :=
  NoDup (List.map counter (pendingIds cm)) /\
  (forall k pc, In (k, pc) (_pendingCommands cm) ->
     id pc = k /\ counter k <= _commandIdCounter cm /\ isSettled k cm = false) /\
  (forall e, In e (settled cm) -> counter (fst e) <= _commandIdCounter cm).

End Session.

(** A connected manager with a fresh parser and nothing in flight: the
    state [connect] reaches with a successful handshake, but for the
    parser - which then still holds the bytes of the reply, all read -
    and for the record of what was written and emitted ([handshaken]
    below is the manager with these). *)
Definition connectedManager (options : RequiredClientOptions) : Connection.ConnectionManager :=
  Connection.mkCM true (Some Parser.initial) true connected [] 0 options true false false
    (Fulfilled tt) (Fulfilled tt) [] [] [] [].

(** The bytes of text lines, each followed by CR LF. *)
Fixpoint lines (ls : list string) : Buffer :=
  match ls with
  | [] => []
  | l :: tl => B l ++ CRLF ++ lines tl
  end.

(** [feeds chunks p s r]: fed the chunks one after the other from the
    state [p] (sinks [s]), the parser returns from every [feed] and ends in
    [r]. *)
Definition feeds {S : Type} (parseFloat : text -> Js.number) (opts : ParserOptions S)
    (chunks : list Buffer) (p : Parser.Resp3Parser) (s : S)
    (r : Parser.Resp3Parser * S) : Prop :=
  exists fuel, Parser.feedAll parseFloat opts fuel chunks p s = Some r.

(** What a fresh parser with the recording sinks has emitted once the
    chunks are fed. *)
Definition decodesTo (parseFloat : text -> Js.number) (chunks : list Buffer)
    (out : Sinks) : Prop :=
  exists p, feeds parseFloat recorder chunks Parser.initial noSinks (p, out).


(** ** Concrete scenarios *)

(** Stand-ins for the two number built-ins where they are never called. *)
Definition noParseFloat : text -> Js.number := fun _ => Js.NaN.
Definition noNumberToString : Js.number -> text := fun _ => [].

(** A manager that has sent HELLO 3 and waits for the reply. *)
Definition handshaking (numberToString : Js.number -> text) : Connection.ConnectionManager :=
  Connection.transportConnected numberToString
    (Connection.connect (Connection.create DEFAULT_CLIENT_OPTIONS)).

(** Commands A = [GET a], submitted at time 1, and B = [GET b], submitted
    at time 2, on a connected manager. *)
Definition commandA : PendingCommand :=
  mkPending (mkCommandId 1 1) (B "GET") [ArgString (B "a")].
Definition commandB : PendingCommand :=
  mkPending (mkCommandId 2 2) (B "GET") [ArgString (B "b")].

Definition oneInFlight (numberToString : Js.number -> text) : Connection.ConnectionManager :=
  fst (Connection.sendCommand numberToString 1 (B "GET") [ArgString (B "a")]
         (connectedManager DEFAULT_CLIENT_OPTIONS)).

Definition twoInFlight (numberToString : Js.number -> text) : Connection.ConnectionManager :=
  fst (Connection.sendCommand numberToString 2 (B "GET") [ArgString (B "b")]
         (oneInFlight numberToString)).

(** [n < b] and [n > b] hold of a numeric option. *)
Definition below (n : Num) (b : Z) : Prop :=
  (exists z, n = Int z /\ z < b) \/ n = Infinite true.
Definition above (n : Num) (b : Z) : Prop :=
  (exists z, n = Int z /\ z > b) \/ n = Infinite false.

(** The constructor throws a configuration error. *)
Definition rejected (r : Connection.ConnectionManager + CoreError) : Prop :=
  exists msg opt, r = inr (ConfigurationError msg opt).

Definition refused (options : RequiredClientOptions) : Prop :=
  exists msg opt, Client._validateOptions options = Some (ConfigurationError msg opt).

(** The options that [_validateOptions] refuses. *)
Definition outOfRange (options : RequiredClientOptions) : Prop :=
  below (port options) 1 \/ above (port options) 65535 \/
  below (connectTimeout options) 0 \/
  below (commandTimeout options) 0 \/
  below (database options) 0.

(** A stand-in for [new URL] that knows one URL, of a scheme that is not
    Redis'; every other text is refused. *)
Definition oneURL : text -> Client.URL.t + JsError :=
  fun s =>
    if Js.text_eqb s (B "invalid://url")
    then inl (Client.URL.mk (B "invalid:") (B "url") [] [] [] [])
    else inr (TypeError (B "Invalid URL")).


(** ** The values that survive an encode-decode round trip *)

Definition noCRLF (s : text) : Prop := Js.findCRLF s = None.

Definition codeOk (code : option text) (message : text) : Prop :=
  match code with
  | Some c => c <> [] /\ Js.indexOf " "%char c = None
  | None => match Js.indexOf " "%char message with
            | Some (Datatypes.S _) => False
            | _ => True
            end
  end.

Definition smallSize {A} (l : list A) : Prop := Z.of_nat (List.length l) < 2 ^ 53.

Section RoundTripClass.
Variable parseFloat : text -> Js.number.
Variable numberToString : Js.number -> text.

Definition doubleOk (v : Js.number) : Prop :=
  Js.isFinite v = false \/
  (noCRLF (numberToString v) /\ parseFloat (numberToString v) = v /\
   Js.text_eqb (Js.toLowerCase (numberToString v)) (B "inf") = false /\
   Js.text_eqb (Js.toLowerCase (numberToString v)) (B "-inf") = false /\
   Js.text_eqb (Js.toLowerCase (numberToString v)) (B "nan") = false).

Definition leaf (b : Body) : Prop :=
  match b with
  | simple_string value => noCRLF value
  | error code message => codeOk code message /\ noCRLF (Writer.codeAndMessage code message)
  | integer _ => True
  | double value => doubleOk value
  | big_number (BigIntOf _) => True
  | big_number (DigitsOf s) => noCRLF s /\ Js.BigInt s = None
  | boolean _ => True
  | null => True
  | blob_string None => True
  | blob_string (Some (BufferOf b)) => smallSize b
  | blob_string (Some (StringOf _)) => False
  | blob_error code message =>
      codeOk code message /\ smallSize (Writer.codeAndMessage code message)
  | verbatim_string format value =>
      format <> [] /\ Js.indexOf ":"%char format = None /\
      smallSize (format ++ ":"%char :: value)
  | array None | map None | set None => True
  | array (Some []) | map (Some []) | set (Some []) | push [] => True
  | _ => False
  end.

Definition frameless (v : Resp3) : Prop :=
  attributes_of v = None /\ leaf (body_of v).

Definition flat (v : Resp3) : Prop :=
  attributes_of v = None /\
  match body_of v with
  | array (Some (c :: l)) | set (Some (c :: l)) | push (c :: l) =>
      smallSize (c :: l) /\ Forall frameless (c :: l)
  | map (Some (e :: l)) =>
      smallSize (e :: l) /\
      Forall (fun kv => frameless (fst kv) /\
                        exists v, snd kv = Some v /\ frameless v) (e :: l)
  | b => leaf b
  end.
End RoundTripClass.


(** [bytes] at any place of the buffer are parsed as the value [v], with
    whatever aggregate is in progress, and the offset moves past them. *)
Definition parses {S : Type} (parseFloat : text -> Js.number) (opts : ParserOptions S)
    (v : Resp3) (bytes : Buffer) : Prop :=
  forall consume pre post fs,
    Parser.parseOneWith parseFloat opts consume
      (Parser.mkParser (pre ++ bytes ++ post) (Js.length pre) fs None)
    = (Normal (Value v),
       Parser.mkParser (pre ++ bytes ++ post) (Js.length pre + Js.length bytes) fs None).

(** The encodings of several values, one after the other. *)
Definition encodeAll (numberToString : Js.number -> text) (l : list Resp3) : Buffer :=
  List.concat (List.map (fun v => Writer.writeValue numberToString v []) l).

(** What [finalizeFrameInstant] builds from the items of a frame. *)
Definition finalized (k : AggregateKind) (its : list Resp3) : Resp3 :=
  match k with
  | k_array => plain (array (Some its))
  | k_set => plain (set (Some its))
  | k_map => plain (map (Some (Parser.entriesOf its)))
  | k_push => plain (push its)
  | k_attributes => plain null
  end.

(** The keys and values of map entries in the order they are written. *)
Fixpoint flattenEntries (entries : list (Resp3 * option Resp3)) : list Resp3 :=
  match entries with
  | [] => []
  | (k, Some v) :: tl => k :: v :: flattenEntries tl
  | (k, None) :: tl => k :: plain null :: flattenEntries tl
  end.


(** Value of a run of decimal digits, most significant first. *)
Fixpoint value10 (s : text) (acc : Z) : Z :=
  match s with
  | [] => acc
  | c :: tl => value10 tl (acc * 10 + (Z.of_nat (nat_of_ascii c) - 48))
  end.

(** What the recording sinks hold after the one value [v]. *)
Definition emittedOnce (v : Resp3) : Sinks :=
  if Parser.isPush v then mkSinks [] [v] [] else mkSinks [v] [] [].

(** ** Closing the connection ([core/connection.ts]) *)

Module Lifecycle.
Import Connection.

(** [this._pendingCommands.has(k)] *)
Definition hasKey {V} (k : CommandId) (m : list (CommandId * V)) : bool :=
  existsb (fun e => CommandId_eqb (fst e) k) m.

(** [new ConnectionRequiredError('DISCONNECT', 'disconnecting')] *)
Definition disconnectError : CoreError :=
  ConnectionRequiredError (B "DISCONNECT") disconnecting.

(** The loop [for (const [_id, pending] of this._pendingCommands)] of
    [disconnect]: [pending.reject(...)], then [clearTimeout].  The
    iterator of a [Map] passes over an entry that was deleted before it
    was reached. *)
Definition rejectEach (entries : list (CommandId * PendingCommand))
    (cm : ConnectionManager) : ConnectionManager :=
  fold_left
    (fun cm e =>
       if hasKey (fst e) (_pendingCommands cm)
       then clearTimeout (id (snd e)) (rejectPending (snd e) disconnectError cm)
       else cm)
    entries cm.

(** The end of [disconnect], from the statement after the transport is
    closed. *)
Definition disconnectFinish (cm : ConnectionManager) : ConnectionManager :=
  let cm :=
    mkCM false None false (_state cm) (_pendingCommands cm)
         (_commandIdCounter cm) (_options cm) false
         (_onReplySwapped cm) (_handshakeTimer cm) (handshakePromise cm)
         (connectPromise cm) (written cm) (emitted cm) (settled cm) (timers cm) in
  emit (ev_disconnect (B "Client disconnect")) (_setState disconnected cm).

(** [disconnect], up to the [await] on [transport.close()] when there is a
    transport, to its end when there is none. *)
Definition disconnect (cm : ConnectionManager) : ConnectionManager :=
  match _state cm with
  | disconnected | disconnecting => cm
  | _ =>
      let cm := _setState disconnecting cm in
      let cm := rejectEach (_pendingCommands cm) cm in
      let cm := setPending [] cm in
      if _transport cm then cm else disconnectFinish cm
  end.

(** The ['close'] handler that [_setupTransportHandlers] gives the
    transport. *)
Definition onTransportClose (cm : ConnectionManager) : ConnectionManager :=
  emit (ev_disconnect (B "Transport closed")) (_setState disconnected cm).

(** [pendingCommandCount] *)
Definition pendingCommandCount (cm : ConnectionManager) : Z :=
  Z.of_nat (List.length (_pendingCommands cm)).

End Lifecycle.

(** ** Runs of the session in which command timers fire *)

Inductive TimedEvent : Type :=
  | Occurs (ev : SessionEvent)
  | TimerFires (pc : PendingCommand).

Module Timed.
Import Connection.

Section WithBuiltins.
Variable numberToString : Js.number -> text.

Definition step (cm : ConnectionManager) (ev : TimedEvent) : ConnectionManager :=
  match ev with
  | Occurs ev => Session.step numberToString cm ev
  | TimerFires pc => commandTimeoutFires pc cm
  end.

Definition run (trace : list TimedEvent) (cm : ConnectionManager) : ConnectionManager :=
  fold_left step trace cm.
End WithBuiltins.

(** The submissions of a trace. *)
Fixpoint submissions (trace : list TimedEvent) : list SessionEvent :=
  match trace with
  | [] => []
  | Occurs ev :: tl => ev :: submissions tl
  | TimerFires _ :: tl => submissions tl
  end.

(** The bookkeeping a run keeps: the map is well formed and a timer is
    armed for exactly the commands of the map, in the same order. *)
Definition inv (cm : ConnectionManager) : Prop :=
  Session.wellFormed cm /\ timers cm = pendingIds cm.

End Timed.

(** ** The basic commands and their registry ([core/commands/basic.ts],
       [core/commands/index.ts]) *)

Module Commands.

(** [SetOptions]: every field may be left out. *)
Record SetOptions : Type := mkSetOptions {
  EX : option Js.number;
  PX : option Js.number;
  EXAT : option Js.number;
  PXAT : option Js.number;
  NX : option bool;
  XX : option bool;
  KEEPTTL : option bool;
  GET : option bool
}.

Record GetOptions : Type := mkGetOptions { binary : option bool }.

(** [if (options.NX)]: [undefined] and [false] are falsy. *)
Definition truthy (b : option bool) : bool :=
  match b with Some true => true | _ => false end.

(** What a call of a command gives back: the manager afterwards, and the
    id behind the promise of [sendCommand] or the error the promise is
    rejected with at once. *)
Definition Sent : Type := Connection.ConnectionManager * (CommandId + CoreError).

Section WithToString.
Variable numberToString : Js.number -> text.

(** [if (options.EX !== undefined) args.push('EX', options.EX.toString())] *)
Definition withValue (name : text) (v : option Js.number) : list text :=
  match v with
  | Some n => [name; numberToString n]
  | None => []
  end.

(** [if (options.NX) args.push('NX')] *)
Definition withFlag (name : text) (b : option bool) : list text :=
  if truthy b then [name] else [].

Definition _buildSetArgs (key value : text) (options : option SetOptions) : list text :=
  [key; value] ++
  match options with
  | Some o =>
      withValue (B "EX") (EX o) ++ withValue (B "PX") (PX o) ++
      withValue (B "EXAT") (EXAT o) ++ withValue (B "PXAT") (PXAT o) ++
      withFlag (B "NX") (NX o) ++ withFlag (B "XX") (XX o) ++
      withFlag (B "KEEPTTL") (KEEPTTL o) ++ withFlag (B "GET") (GET o)
  | None => []
  end.

(** The methods of [BasicCommands]; [context.connection] is the manager,
    [now] the clock read by [sendCommand]. *)
Definition ping (now : Z) (message : option text) (cm : Connection.ConnectionManager)
  : Sent :=
  let args := match message with
              | Some (c :: s) => [ArgString (c :: s)]
              | _ => []
              end in
  Connection.sendCommand numberToString now (B "PING") args cm.

Definition echo (now : Z) (message : text) (cm : Connection.ConnectionManager) : Sent :=
  Connection.sendCommand numberToString now (B "ECHO") [ArgString message] cm.

Definition get (now : Z) (key : text) (_options : option GetOptions)
    (cm : Connection.ConnectionManager) : Sent :=
  Connection.sendCommand numberToString now (B "GET") [ArgString key] cm.

Definition set (now : Z) (key value : text) (options : option SetOptions)
    (cm : Connection.ConnectionManager) : Sent :=
  Connection.sendCommand numberToString now (B "SET")
    (List.map ArgString (_buildSetArgs key value options)) cm.

Definition del (now : Z) (keys : list text) (cm : Connection.ConnectionManager) : Sent :=
  match keys with
  | [] => (cm, inr (Plain (Error (B "DEL requires at least one key"))))
  | _ => Connection.sendCommand numberToString now (B "DEL") (List.map ArgString keys) cm
  end.

Definition exists_ (now : Z) (keys : list text) (cm : Connection.ConnectionManager) : Sent :=
  match keys with
  | [] => (cm, inr (Plain (Error (B "EXISTS requires at least one key"))))
  | _ => Connection.sendCommand numberToString now (B "EXISTS") (List.map ArgString keys) cm
  end.

(** What [sendCommand] does for the command [name] with the arguments
    [arguments]: one buffer, the encoded command, is written, and one
    entry for it is added at the end of the map. *)
Definition sends (cm : Connection.ConnectionManager) (now : Z) (name : text)
    (arguments : list CommandArg) (r : Sent) : Prop :=
  Connection.written (fst r)
    = Connection.written cm ++ [Writer.encodeCommand numberToString name arguments] /\
  Connection._pendingCommands (fst r)
    = Connection._pendingCommands cm ++
      [(mkCommandId (Connection._commandIdCounter cm + 1) now,
        mkPending (mkCommandId (Connection._commandIdCounter cm + 1) now) name arguments)] /\
  snd r = inl (mkCommandId (Connection._commandIdCounter cm + 1) now).

End WithToString.

(** [CommandRegistry]: the [Map] from lower-cased names to executors, in
    insertion order. *)
Section Registry.
Variable Executor : Type.

Definition CommandRegistry : Type := list (text * Executor).

(** [Map.prototype.set] and [get] on string keys. *)
Fixpoint mapSet (k : text) (v : Executor) (m : CommandRegistry) : CommandRegistry :=
  match m with
  | [] => [(k, v)]
  | (k', v') :: tl =>
      if Js.text_eqb k' k then (k, v) :: tl else (k', v') :: mapSet k v tl
  end.

Fixpoint mapGet (k : text) (m : CommandRegistry) : option Executor :=
  match m with
  | [] => None
  | (k', v') :: tl => if Js.text_eqb k' k then Some v' else mapGet k tl
  end.

Definition register (name : text) (executor : Executor) (r : CommandRegistry)
  : CommandRegistry :=
  mapSet (Js.toLowerCase name) executor r.

Definition lookup (name : text) (r : CommandRegistry) : option Executor :=
  mapGet (Js.toLowerCase name) r.

(** [execute], up to the call of the executor it found. *)
Definition execute (command : text) (r : CommandRegistry) : Executor + JsError :=
  match lookup command r with
  | Some executor => inl executor
  | None => inr (Error (B "Unknown command: " ++ command))
  end.

(** The six closures that [_registerBasicCommands] registers. *)
Record BasicExecutors : Type := mkBasic {
  onPing : Executor;
  onEcho : Executor;
  onGet : Executor;
  onSet : Executor;
  onDel : Executor;
  onExists : Executor
}.

Definition _registerBasicCommands (b : BasicExecutors) (r : CommandRegistry)
  : CommandRegistry :=
  let r := register (B "ping") (onPing b) r in
  let r := register (B "echo") (onEcho b) r in
  let r := register (B "get") (onGet b) r in
  let r := register (B "set") (onSet b) r in
  let r := register (B "del") (onDel b) r in
  register (B "exists") (onExists b) r.

(** [new CommandRegistry()] *)
Definition createCommandRegistry (b : BasicExecutors) : CommandRegistry :=
  _registerBasicCommands b [].

End Registry.

End Commands.

(** A name made of ASCII characters only. *)
Definition isAscii (s : text) : Prop :=
  Forall (fun c => (nat_of_ascii c < 128)%nat) s.

(** ** Notions used to state further properties of the code *)

(** The two nodes of a map entry, and the nodes directly inside a value:
    those of its attributes, then those of its body. *)
Definition entryChildren (e : Resp3 * option Resp3) : list Resp3 :=
  match e with
  | (k, Some v) => [k; v]
  | (k, None) => [k]
  end.

Definition children (v : Resp3) : list Resp3 :=
  match v with
  | Node body attributes =>
      match attributes with
      | Some es => flat_map entryChildren es
      | None => []
      end ++
      match body with
      | array (Some l) | set (Some l) | push l => l
      | map (Some es) => flat_map entryChildren es
      | _ => []
      end
  end.

(** A bulk string holding the bytes [b]. *)
Definition bulkString (b : Buffer) : Resp3 := plain (blob_string (Some (BufferOf b))).

(** The recording sinks after one more value, and what they hold after
    the values [vs], fed to a fresh parser one after the other. *)
Definition record (s : Sinks) (v : Resp3) : Sinks :=
  if Parser.isPush v then mkSinks (replies s) (pushes s ++ [v]) (errors s)
  else mkSinks (replies s ++ [v]) (pushes s) (errors s).

Definition emittedAll (vs : list Resp3) : Sinks :=
  mkSinks (filter (fun v => negb (Parser.isPush v)) vs) (filter Parser.isPush vs) [].

(** The prefix bytes of the values that are read with [readLine], and of
    those that start with a length read by [readLenAfterPrefix]. *)
Definition lineTypes : list ascii :=
  ["+"; "-"; ":"; "_"; "#"; ","; "("]%char.
Definition lengthTypes : list ascii :=
  ["$"; "!"; "="; "*"; "%"; "~"; ">"; "|"]%char.

(** The parser asks for more: it returns [NEED_MORE] and leaves buffer,
    frames and pending attributes as they are. *)
Definition asksForMore {S : Type} (parseFloat : text -> Js.number) (opts : ParserOptions S)
    (consume : Parser.M Parsed) (pre a : Buffer) (fs : list Frame) : Prop :=
  exists o,
    Parser.parseOneWith parseFloat opts consume
      (Parser.mkParser (pre ++ a) (Js.length pre) fs None)
    = (Normal NEED_MORE, Parser.mkParser (pre ++ a) o fs None).

(** [a] is the start of the encoding of the next value, cut before its
    end: empty, or a part of it that is neither empty nor the whole. *)
Definition cutOf (numberToString : Js.number -> text)
    (a : Buffer) (next : list Resp3) : Prop :=
  a = [] \/
  exists v rest b,
    next = v :: rest /\ a <> [] /\ b <> [] /\
    a ++ b = Writer.writeValue numberToString v [].

(** No promise was settled with a parse error. *)
Definition noParseRejection (cm : Connection.ConnectionManager) : Prop :=
  forall k message cause,
    ~ In (k, Rejected (ParseError message cause)) (Connection.settled cm).

(** A parser that has read all it was given: nothing is left of the
    buffer, no aggregate is open and no attributes wait for a value. *)
Definition drained (p : Parser.Resp3Parser) : Prop :=
  Parser._offset p = Js.length (Parser._buffer p) /\
  Parser._frames p = [] /\
  Parser._pendingAttributes p = None.

(** The manager when the server has answered [HELLO 3] with [+OK]. *)
Definition handshaken : Connection.ConnectionManager :=
  match Connection.onData noParseFloat 3 (lines ["+OK"%string])
          (handshaking noNumberToString) with
  | Some cm => cm
  | None => handshaking noNumberToString
  end.

(** The header of an array of one element. *)
Definition headerOfOne : Buffer := "*"%char :: Js.intToString 1 ++ CRLF.

(** * Facts *)

Example parseInt_examples :
  Js.parseInt (B "12") = Some 12 /\ Js.parseInt (B "-1") = Some (-1) /\
  Js.parseInt (B "") = None /\ Js.parseInt (B " +7x") = Some 7 /\
  Js.parseInt (B "abc") = None.
Proof. repeat split. Qed.

Example BigInt_examples :
  Js.BigInt (B "42") = Some 42 /\ Js.BigInt (B "-42") = Some (-42) /\
  Js.BigInt (B "+123") = Some 123 /\ Js.BigInt (B "") = Some 0 /\
  Js.BigInt (B "0x1F") = Some 31 /\ Js.BigInt (B "1.5") = None /\
  Js.BigInt (B "12a") = None /\ Js.BigInt (B " 7 ") = Some 7.
Proof. repeat split. Qed.

Example intToString_examples :
  Js.intToString 0 = B "0" /\ Js.intToString (-120) = B "-120" /\
  Js.intToString 3600 = B "3600".
Proof. repeat split. Qed.


(** ** The recursion budget does not influence a result *)

Module ParserFacts.
Import Parser.

Lemma refines_refl {A} (m : M A) : refines m m.
Proof. intros p r p' H _. exact H. Qed.

Lemma refines_bind {A C} (m1 m2 : M A) (k1 k2 : A -> M C) :
  refines m1 m2 -> (forall a, refines (k1 a) (k2 a)) ->
  refines (bind m1 k1) (bind m2 k2).
Proof.
  intros Hm Hk p r p' H Hr. unfold bind in *.
  destruct (m1 p) as [c q] eqn:E.
  destruct c as [a|e|].
  - rewrite (Hm _ _ _ E) by discriminate. apply Hk; assumption.
  - rewrite (Hm _ _ _ E) by discriminate. assumption.
  - inversion H; subst. congruence.
Qed.

Ltac refines_step :=
  first
    [ apply refines_refl
    | apply refines_bind; [ | intros ]
    | match goal with
      | |- refines (if ?b then _ else _) (if ?b then _ else _) => destruct b
      | |- refines (match ?x with _ => _ end) (match ?x with _ => _ end) => destruct x
      end ].

Section Mono.
Context {S : Type} (parseFloat : text -> Js.number) (opts : ParserOptions S).

Lemma parseAggregateWith_refines (c1 c2 : M Parsed) k :
  refines c1 c2 ->
  refines (parseAggregateWith c1 k) (parseAggregateWith c2 k).
Proof.
  intros H. unfold parseAggregateWith.
  repeat (assumption || refines_step).
Qed.

Lemma parseOneWith_refines (c1 c2 : M Parsed) :
  refines c1 c2 ->
  refines (parseOneWith parseFloat opts c1) (parseOneWith parseFloat opts c2).
Proof.
  intros H. unfold parseOneWith.
  apply refines_bind; [apply refines_refl|intros b].
  apply refines_bind; [apply refines_refl|intros o].
  destruct (Js.length b <=? o); [apply refines_refl|].
  destruct (Js.at_ b o) as [c|]; [|apply refines_refl].
  destruct c as [[] [] [] [] [] [] [] []];
    try apply refines_refl; apply parseAggregateWith_refines; exact H.
Qed.

Lemma consumeNested_mono n :
  forall m, (n <= m)%nat ->
  refines (consumeNested parseFloat opts n) (consumeNested parseFloat opts m).
Proof.
  induction n as [|n IH]; intros m Hm.
  - intros p r p' H Hr. cbn in H. inversion H; subst. congruence.
  - destruct m as [|m]; [lia|].
    assert (Hnm : (n <= m)%nat) by lia.
    specialize (IH m Hnm).
    cbn [consumeNested].
    apply refines_bind; [apply refines_refl|intros fs].
    destruct fs; [apply refines_refl|].
    apply refines_bind; [apply refines_refl|intros start].
    apply refines_bind; [apply parseOneWith_refines; exact IH|intros child].
    destruct child; try apply refines_refl.
    apply refines_bind; [apply refines_refl|intros fs'].
    destruct fs' as [|top below]; [apply refines_refl|].
    apply refines_bind; [apply refines_refl|intros _].
    destruct (remaining (pushItem top node) >? 0); [exact IH|].
    apply refines_bind; [apply refines_refl|intros completed].
    apply refines_bind; [apply refines_refl|intros _].
    destruct below; [apply refines_refl|].
    apply refines_bind; [apply refines_refl|intros _].
    exact IH.
Qed.

Lemma parseOne_mono n m :
  (n <= m)%nat -> refines (parseOne parseFloat opts n) (parseOne parseFloat opts m).
Proof.
  intros H. apply parseOneWith_refines, consumeNested_mono, H.
Qed.

Lemma feedLoop_mono n :
  forall m p s r, (n <= m)%nat ->
  feedLoop parseFloat opts n p s = Some r -> feedLoop parseFloat opts m p s = Some r.
Proof.
  induction n as [|n IH]; intros m p s r Hm H; [discriminate|].
  destruct m as [|m]; [lia|].
  cbn [feedLoop] in *.
  destruct (parseOne parseFloat opts n p) as [c p'] eqn:E.
  assert (Hc : c <> OutOfFuel) by (intros ->; discriminate).
  rewrite (parseOne_mono n m ltac:(lia) _ _ _ E Hc).
  destruct c as [[node| |]|e|]; try exact H; try congruence.
  destruct (handleValue opts node p' s) as [s' [e|]]; [exact H|].
  apply IH; [lia|exact H].
Qed.

Lemma feed_mono n m chunk p s r :
  (n <= m)%nat ->
  feed parseFloat opts n chunk p s = Some r -> feed parseFloat opts m chunk p s = Some r.
Proof.
  intros Hm. unfold feed.
  destruct (List.length chunk =? 0)%nat; [auto|].
  apply feedLoop_mono, Hm.
Qed.

Lemma feedAll_mono n m chunks :
  forall p s r, (n <= m)%nat ->
  feedAll parseFloat opts n chunks p s = Some r ->
  feedAll parseFloat opts m chunks p s = Some r.
Proof.
  induction chunks as [|c rest IH]; intros p s r Hm H; [exact H|].
  cbn [feedAll] in *.
  destruct (feed parseFloat opts n c p s) as [[p' s']|] eqn:E; [|discriminate].
  rewrite (feed_mono n m _ _ _ _ Hm E). apply IH; assumption.
Qed.

(** The result of feeding is unique: it does not depend on the budget
    that sufficed. *)
Lemma feeds_deterministic chunks p s r1 r2 :
  feeds parseFloat opts chunks p s r1 -> feeds parseFloat opts chunks p s r2 -> r1 = r2.
Proof.
  intros [n1 H1] [n2 H2].
  apply (feedAll_mono n1 (Nat.max n1 n2)) in H1; [|lia].
  apply (feedAll_mono n2 (Nat.max n1 n2)) in H2; [|lia].
  congruence.
Qed.
End Mono.

Lemma decodesTo_deterministic parseFloat chunks out1 out2 :
  decodesTo parseFloat chunks out1 -> decodesTo parseFloat chunks out2 -> out1 = out2.
Proof.
  intros [p1 H1] [p2 H2].
  pose proof (feeds_deterministic _ _ _ _ _ _ _ H1 H2) as E. congruence.
Qed.

End ParserFacts.

Local Open Scope string_scope.
Local Open Scope list_scope.

Ltac decode_by_computation :=
  eexists; exists 40%nat; vm_compute; reflexivity.

Section DecoderClaims.
Variable parseFloat : text -> Js.number.

(** The scenarios S1, S2, S3 and S6 of the specification. *)
Example scenario_S1 :
  decodesTo parseFloat [lines ["+OK"]] (mkSinks [plain (simple_string (B "OK"))] [] []).
Proof. decode_by_computation. Qed.

Example scenario_S2 :
  decodesTo parseFloat [(B "$5" ++ CRLF ++ B "he")%list] noSinks /\
  decodesTo parseFloat [(B "$5" ++ CRLF ++ B "he")%list; B "llo"] noSinks /\
  decodesTo parseFloat [(B "$5" ++ CRLF ++ B "he")%list; B "llo"; CRLF]
    (mkSinks [plain (blob_string (Some (BufferOf (B "hello"))))] [] []).
Proof. repeat split; decode_by_computation. Qed.

Example scenario_S3 :
  decodesTo parseFloat [lines ["*3"; "+a"; "$-1"; ":7"]]
    (mkSinks [plain (array (Some [plain (simple_string (B "a"));
                                  plain (blob_string None);
                                  plain (integer 7)]))] [] []).
Proof. decode_by_computation. Qed.

Example scenario_S6 :
  decodesTo parseFloat [lines ["?bad"; "+OK"]; lines ["+OK"]]
    (mkSinks [plain (simple_string (B "OK"))] []
             [Error (B "Unknown RESP3 prefix: 0x3f")]).
Proof. decode_by_computation. Qed.

(** C1.  Feeding [*2 CRLF +a CRLF +b CRLF] in one chunk emits the array
    of [a] and [b]; feeding the same bytes as the two chunks
    [*2 CRLF +a CRLF] and [+b CRLF] emits nothing: after the first chunk
    the offset is rolled back to the start of the array while its frame
    stays on the stack, the second [feed] parses the header again and
    pushes a second frame, and the completed array is filed into the
    stale frame instead of being emitted. *)
Theorem chunked_array_is_not_emitted :
  decodesTo parseFloat [lines ["*2"; "+a"; "+b"]]
    (mkSinks [plain (array (Some [plain (simple_string (B "a"));
                                  plain (simple_string (B "b"))]))] [] []) /\
  decodesTo parseFloat [lines ["*2"; "+a"]; lines ["+b"]] noSinks.
Proof. split; decode_by_computation. Qed.

(** C2.  For the bytes [|1 CRLF +ttl CRLF :3600 CRLF +OK CRLF] the
    on-reply sink receives two values: first the placeholder null of the
    attributes frame, then the simple string OK carrying the attribute
    ttl -> 3600. *)
Theorem attributes_placeholder_is_emitted :
  decodesTo parseFloat [lines ["|1"; "+ttl"; ":3600"; "+OK"]]
    (mkSinks
       [plain null;
        Node (simple_string (B "OK"))
             (Some [(plain (simple_string (B "ttl")), Some (plain (integer 3600)))])]
       [] []).
Proof. decode_by_computation. Qed.

(** C9.  [$0 CRLF CRLF] decodes to an empty blob string and [$-1 CRLF]
    to the null blob string, and the two differ; [*-1], [%-1] and [~-1]
    decode to the null array, the null map and the null set; [>-1]
    decodes to a push without elements that goes to the push sink. *)
Theorem null_and_empty_boundaries :
  decodesTo parseFloat [(B "$0" ++ CRLF ++ CRLF)%list]
    (mkSinks [plain (blob_string (Some (BufferOf [])))] [] []) /\
  decodesTo parseFloat [lines ["$-1"]] (mkSinks [plain (blob_string None)] [] []) /\
  plain (blob_string (Some (BufferOf []))) <> plain (blob_string None) /\
  decodesTo parseFloat [lines ["*-1"]] (mkSinks [plain (array None)] [] []) /\
  decodesTo parseFloat [lines ["%-1"]] (mkSinks [plain (map None)] [] []) /\
  decodesTo parseFloat [lines ["~-1"]] (mkSinks [plain (set None)] [] []) /\
  decodesTo parseFloat [lines [">-1"]] (mkSinks [] [plain (push [])] []).
Proof.
  repeat split; try decode_by_computation. discriminate.
Qed.

End DecoderClaims.

Module SessionFacts.
Import Connection Session.

Lemma CommandId_eqb_eq a b : CommandId_eqb a b = true <-> a = b.
Proof.
  destruct a as [c1 s1], b as [c2 s2]. unfold CommandId_eqb; cbn.
  rewrite andb_true_iff, !Z.eqb_eq. split; [intros [-> ->]; reflexivity|].
  intros H; inversion H; auto.
Qed.

Lemma CommandId_eqb_refl a : CommandId_eqb a a = true.
Proof. apply CommandId_eqb_eq. reflexivity. Qed.

Lemma CommandId_eqb_counter a b : counter a <> counter b -> CommandId_eqb a b = false.
Proof.
  intros H. destruct (CommandId_eqb a b) eqn:E; [|reflexivity].
  apply CommandId_eqb_eq in E. subst. congruence.
Qed.

Lemma mapDelete_fresh {V} k (m : list (CommandId * V)) :
  ~ In (counter k) (List.map counter (List.map fst m)) -> mapDelete k m = m.
Proof.
  induction m as [|[k' v] tl IH]; cbn; intros H; [reflexivity|].
  rewrite CommandId_eqb_counter by (intros E; apply H; left; exact E).
  cbn. f_equal. apply IH. intros E. apply H. right. exact E.
Qed.

Lemma mapDelete_head {V} k (v : V) m :
  NoDup (List.map counter (List.map fst ((k, v) :: m))) -> mapDelete k ((k, v) :: m) = m.
Proof.
  cbn. intros H. inversion H; subst.
  rewrite CommandId_eqb_refl. cbn. apply mapDelete_fresh. assumption.
Qed.

Lemma mapSet_fresh {V} k (v : V) m :
  ~ In (counter k) (List.map counter (List.map fst m)) -> mapSet k v m = m ++ [(k, v)].
Proof.
  induction m as [|[k' v'] tl IH]; cbn; intros H; [reflexivity|].
  rewrite CommandId_eqb_counter by (intros E; apply H; left; exact E).
  f_equal. apply IH. intros E. apply H. right. exact E.
Qed.

Lemma NoDup_snoc {A} (l : list A) x : NoDup l -> ~ In x l -> NoDup (l ++ [x]).
Proof.
  induction l as [|a l IH]; cbn; intros Hnd Hx.
  - constructor; [tauto|constructor].
  - apply NoDup_cons_iff in Hnd. destruct Hnd as [Ha Hnd].
    constructor.
    + intros Hin. apply in_app_or in Hin. destruct Hin as [Hin|[Hin|[]]]; [tauto|].
      subst. tauto.
    + apply IH; tauto.
Qed.

Lemma isSettled_false_iff i cm :
  isSettled i cm = false <-> ~ In i (List.map fst (settled cm)).
Proof.
  unfold isSettled. induction (settled cm) as [|[k s] tl IH]; cbn.
  - split; auto.
  - rewrite orb_false_iff, IH. split.
    + intros [H1 H2] [E|E]; [|tauto]. subst. rewrite CommandId_eqb_refl in H1. discriminate.
    + intros H. split; [|tauto].
      destruct (CommandId_eqb k i) eqn:E; [|reflexivity].
      apply CommandId_eqb_eq in E. tauto.
Qed.

(** Effect of [_handleReply] on a well-formed manager with a command in flight. *)
Lemma handleReply_head r cm k pc rest :
  wellFormed cm -> _pendingCommands cm = (k, pc) :: rest ->
  snd (_handleReply r cm) = None /\
  settled (fst (_handleReply r cm)) = settled cm ++ [(k, settlementOf r (command pc))] /\
  _pendingCommands (fst (_handleReply r cm)) = rest /\
  _commandIdCounter (fst (_handleReply r cm)) = _commandIdCounter cm /\
  isConnected (fst (_handleReply r cm)) = isConnected cm /\
  _transport (fst (_handleReply r cm)) = _transport cm /\
  _writer (fst (_handleReply r cm)) = _writer cm.
Proof.
  intros (Hnd & Hp & Hs) E.
  assert (Hk : id pc = k /\ counter k <= _commandIdCounter cm /\ isSettled k cm = false)
    by (apply Hp; rewrite E; left; reflexivity).
  destruct Hk as (Hid & _ & Hopen).
  unfold pendingIds in Hnd. rewrite E in Hnd.
  pose proof (mapDelete_head k pc rest Hnd) as Hdel.
  unfold _handleReply, settlementOf. rewrite E.
  unfold isSettled in Hopen.
  destruct (_transformResponse r (command pc)) as [v|e]; cbn [fst snd];
    unfold resolvePending, rejectPending, settle, isSettled, isConnected, clearTimeout,
      setTimers, setPending, emit;
    cbn -[mapDelete CommandId_eqb existsb filter];
    rewrite Hid, E, Hdel, Hopen; cbn -[mapDelete CommandId_eqb existsb filter];
    repeat split; reflexivity.
Qed.

Lemma handleReply_empty r cm :
  _pendingCommands cm = [] -> _handleReply r cm = (cm, Some notIterable).
Proof. intros E. unfold _handleReply. rewrite E. reflexivity. Qed.

Lemma handleReply_wellFormed r cm :
  wellFormed cm -> wellFormed (fst (_handleReply r cm)).
Proof.
  intros Hwf. destruct (_pendingCommands cm) as [|[k pc] rest] eqn:E.
  - rewrite handleReply_empty by assumption. exact Hwf.
  - destruct (handleReply_head r cm k pc rest Hwf E) as (_ & Hs & Hp & Hc & _).
    destruct Hwf as (Hnd & Hpend & Hset).
    unfold pendingIds in Hnd. rewrite E in Hnd. cbn in Hnd.
    apply NoDup_cons_iff in Hnd. destruct Hnd as [Hnotin Hnd].
    unfold wellFormed, pendingIds. rewrite Hp, Hc. split; [assumption|]. split.
    + intros k0 pc0 Hin.
      destruct (Hpend k0 pc0) as (H1 & H2 & H3); [rewrite E; right; assumption|].
      repeat split; try assumption.
      apply isSettled_false_iff. rewrite Hs, map_app. cbn. intros Hin'.
      apply in_app_or in Hin'. destruct Hin' as [Hin'|[Hin'|[]]].
      * apply isSettled_false_iff in H3. tauto.
      * apply Hnotin.
        apply (in_map fst) in Hin. apply (in_map counter) in Hin.
        cbn in Hin. rewrite Hin'. exact Hin.
    + intros e He. rewrite Hs in He. apply in_app_or in He.
      destruct He as [He|[<-|[]]]; [apply Hset; assumption|].
      cbn. apply (Hpend k pc). rewrite E. left. reflexivity.
Qed.

Section WithBuiltins.
Variable numberToString : Js.number -> text.

Lemma sendCommand_connected now cmd arguments cm :
  wellFormed cm -> isConnected cm = true -> _transport cm = true -> _writer cm = true ->
  snd (sendCommand numberToString now cmd arguments cm)
    = inl (mkCommandId (_commandIdCounter cm + 1) now) /\
  _pendingCommands (fst (sendCommand numberToString now cmd arguments cm))
    = _pendingCommands cm ++
      [(mkCommandId (_commandIdCounter cm + 1) now,
        mkPending (mkCommandId (_commandIdCounter cm + 1) now) cmd arguments)] /\
  settled (fst (sendCommand numberToString now cmd arguments cm)) = settled cm /\
  _commandIdCounter (fst (sendCommand numberToString now cmd arguments cm))
    = _commandIdCounter cm + 1 /\
  isConnected (fst (sendCommand numberToString now cmd arguments cm)) = true /\
  _transport (fst (sendCommand numberToString now cmd arguments cm)) = true /\
  _writer (fst (sendCommand numberToString now cmd arguments cm)) = true /\
  wellFormed (fst (sendCommand numberToString now cmd arguments cm)).
Proof.
  intros (Hnd & Hpend & Hset) Hc Ht Hw.
  assert (Hfresh : ~ In (_commandIdCounter cm + 1)
                     (List.map counter (List.map fst (_pendingCommands cm)))).
  { intros Hin. apply in_map_iff in Hin. destruct Hin as (k & Hk & Hin).
    apply in_map_iff in Hin. destruct Hin as ([k' pc] & Hk' & Hin). cbn in Hk'. subst k'.
    destruct (Hpend k pc Hin) as (_ & Hle & _). lia. }
  unfold sendCommand. rewrite Hc, Ht, Hw. cbn [negb orb fst snd].
  unfold write, emit, isConnected in *. cbn -[mapSet Writer.encodeCommand].
  rewrite mapSet_fresh by exact Hfresh.
  repeat split; try assumption.
  - unfold pendingIds. cbn. rewrite !map_app. cbn.
    apply NoDup_snoc; assumption.
  - cbn in H. apply in_app_or in H. destruct H as [H|[H|[]]].
    + apply (Hpend k pc H).
    + inversion H; subst. reflexivity.
  - cbn in H. apply in_app_or in H. destruct H as [H|[H|[]]].
    + cbn. destruct (Hpend k pc H) as (_ & Hle & _). lia.
    + inversion H; subst. cbn. lia.
  - cbn in H. apply in_app_or in H. destruct H as [H|[H|[]]].
    + apply (Hpend k pc H).
    + inversion H; subst. apply isSettled_false_iff. cbn. intros Hin.
      apply in_map_iff in Hin. destruct Hin as (e & He & Hin).
      pose proof (Hset e Hin) as Hle. rewrite He in Hle. cbn in Hle. lia.
  - intros e He. cbn in *. pose proof (Hset e He). lia.
Qed.

(** Invariant of a run without timeouts: the promises settled so far,
    followed by the commands in flight, are the commands in the order
    of their submission. *)
Lemma run_order trace :
  forall cm,
  wellFormed cm -> isConnected cm = true -> _transport cm = true -> _writer cm = true ->
  List.map fst (settled (run numberToString trace cm))
    ++ pendingIds (run numberToString trace cm)
  = List.map fst (settled cm) ++ pendingIds cm
    ++ submittedIds (_commandIdCounter cm) trace.
Proof.
  induction trace as [|ev trace IH]; intros cm Hwf Hc Ht Hw.
  - cbn. rewrite app_nil_r. reflexivity.
  - cbn [run fold_left]. change (fold_left (step numberToString) trace ?x)
      with (run numberToString trace x).
    destruct ev as [now cmd arguments|r|p]; cbn [step submittedIds].
    + destruct (sendCommand_connected now cmd arguments cm Hwf Hc Ht Hw)
        as (_ & Hp & Hs & Hn & Hc' & Ht' & Hw' & Hwf').
      rewrite IH by assumption. rewrite Hs, Hn. unfold pendingIds. rewrite Hp.
      rewrite map_app. cbn. rewrite <- !app_assoc. reflexivity.
    + destruct (_pendingCommands cm) as [|[k pc] rest] eqn:E.
      * rewrite handleReply_empty by assumption. cbn [fst]. apply IH; assumption.
      * destruct (handleReply_head r cm k pc rest Hwf E)
          as (_ & Hs & Hp & Hn & Hc' & Ht' & Hw').
        rewrite IH; [|apply handleReply_wellFormed; assumption|congruence..].
        rewrite Hs, Hn. unfold pendingIds. rewrite Hp, E, map_app. cbn.
        rewrite <- !app_assoc. reflexivity.
    + cbn [_handlePush fst]. rewrite IH; [reflexivity|assumption..].
Qed.
End WithBuiltins.

Lemma NoDup_map_filter {A C} (f : A -> C) (q : A -> bool) (l : list A) :
  NoDup (List.map f l) -> NoDup (List.map f (filter q l)).
Proof.
  induction l as [|a l IH]; cbn; intros H; [constructor|].
  apply NoDup_cons_iff in H. destruct H as [Ha H].
  destruct (q a); cbn; [|auto].
  constructor; [|auto].
  intros Hin. apply Ha. apply in_map_iff in Hin. destruct Hin as (x & Hx & Hin).
  apply filter_In in Hin. rewrite <- Hx. apply in_map. tauto.
Qed.

Lemma outcome_new i s cm l :
  settled cm = l ++ [(i, s)] -> ~ In i (List.map fst l) -> outcome i cm = Some s.
Proof.
  intros E Hi. unfold outcome. rewrite E. clear E.
  induction l as [|[k s'] l IH]; cbn.
  - rewrite CommandId_eqb_refl. reflexivity.
  - destruct (CommandId_eqb k i) eqn:Ek.
    + apply CommandId_eqb_eq in Ek. subst. exfalso. apply Hi. left. reflexivity.
    + apply IH. intros Hin. apply Hi. right. exact Hin.
Qed.

Lemma existsb_timer i l : In i l -> existsb (CommandId_eqb i) l = true.
Proof.
  intros H. apply existsb_exists. exists i. split; [exact H|apply CommandId_eqb_refl].
Qed.

(** What the timer of a command in flight does. *)
Lemma commandTimeoutFires_spec cm pc :
  wellFormed cm -> In (id pc, pc) (_pendingCommands cm) -> In (id pc) (timers cm) ->
  _pendingCommands (commandTimeoutFires pc cm) = mapDelete (id pc) (_pendingCommands cm) /\
  settled (commandTimeoutFires pc cm)
    = settled cm ++
      [(id pc, Rejected (CommandTimeoutError (command pc) (commandTimeout (_options cm))
                           (args pc)))] /\
  _commandIdCounter (commandTimeoutFires pc cm) = _commandIdCounter cm /\
  wellFormed (commandTimeoutFires pc cm).
Proof.
  intros (Hnd & Hpend & Hset) Hin Ht.
  destruct (Hpend _ _ Hin) as (_ & Hle & Hopen).
  unfold commandTimeoutFires. rewrite (existsb_timer _ _ Ht).
  unfold settle, clearTimeout, setTimers, setPending.
  assert (Hopen' : isSettled (id pc)
            (mkCM (_transport cm) (_parser cm) (_writer cm) (_state cm)
               (mapDelete (id pc) (_pendingCommands cm)) (_commandIdCounter cm)
               (_options cm) (_isHandshakeComplete cm) (_onReplySwapped cm)
               (_handshakeTimer cm) (handshakePromise cm) (connectPromise cm)
               (written cm) (emitted cm) (settled cm)
               (filter (fun t => negb (CommandId_eqb t (id pc))) (timers cm))) = false)
    by exact Hopen.
  cbn -[mapDelete CommandId_eqb existsb filter isSettled]. rewrite Hopen'.
  cbn -[mapDelete CommandId_eqb existsb filter isSettled].
  repeat split.
  - unfold pendingIds. cbn -[mapDelete]. rewrite map_map. unfold mapDelete.
    apply NoDup_map_filter. rewrite <- map_map. exact Hnd.
  - cbn -[mapDelete] in H. apply filter_In in H. apply (Hpend k pc0). tauto.
  - cbn -[mapDelete] in H. apply filter_In in H.
    destruct (Hpend k pc0) as (_ & ? & _); tauto.
  - cbn -[mapDelete] in H. apply filter_In in H. destruct H as [H Hne].
    destruct (Hpend k pc0 H) as (_ & _ & Ho).
    apply isSettled_false_iff. cbn. rewrite map_app. cbn. intros Hin'.
    apply in_app_or in Hin'. destruct Hin' as [Hin'|[Hin'|[]]].
    + apply isSettled_false_iff in Ho. tauto.
    + cbn in Hne. rewrite <- Hin', CommandId_eqb_refl in Hne. discriminate.
  - intros e He. cbn in He. apply in_app_or in He. destruct He as [He|[<-|[]]].
    + apply Hset. exact He.
    + cbn. exact Hle.
Qed.
End SessionFacts.

Module NumberFacts.

Lemma digits2_pos_bounds m :
  2 ^ (Z.pos (digits2_pos m) - 1) <= Z.pos m < 2 ^ Z.pos (digits2_pos m).
Proof.
  induction m as [m IH|m IH|]; cbn [digits2_pos].
  - rewrite Pos2Z.inj_succ. replace (Z.succ (Z.pos (digits2_pos m)) - 1) with (Z.pos (digits2_pos m)) by lia.
    rewrite Z.pow_succ_r by lia.
    replace (Z.pos (digits2_pos m)) with (Z.succ (Z.pos (digits2_pos m) - 1)) at 1 by lia.
    rewrite Z.pow_succ_r by lia. lia.
  - rewrite Pos2Z.inj_succ. replace (Z.succ (Z.pos (digits2_pos m)) - 1) with (Z.pos (digits2_pos m)) by lia.
    rewrite Z.pow_succ_r by lia.
    replace (Z.pos (digits2_pos m)) with (Z.succ (Z.pos (digits2_pos m) - 1)) at 1 by lia.
    rewrite Z.pow_succ_r by lia. lia.
  - cbn. lia.
Qed.

Lemma digits2_pos_le m k : 0 <= k -> Z.pos m < 2 ^ k -> Z.pos (digits2_pos m) <= k.
Proof.
  intros Hk H. destruct (Z_le_gt_dec (Z.pos (digits2_pos m)) k) as [|Hgt]; [assumption|].
  pose proof (digits2_pos_bounds m) as [Hlo _].
  assert (2 ^ k <= 2 ^ (Z.pos (digits2_pos m) - 1)) by (apply Z.pow_le_mono_r; lia).
  lia.
Qed.

Lemma iter_xO_value m k : Z.pos (Pos.iter xO m k) = Z.pos m * 2 ^ Z.pos k.
Proof.
  revert m. induction k using Pos.peano_ind; intros m.
  - cbn. lia.
  - rewrite Pos.iter_succ. rewrite Pos2Z.inj_succ, Z.pow_succ_r by lia.
    change (Z.pos (Pos.iter xO m k)~0) with (2 * Z.pos (Pos.iter xO m k)).
    rewrite IHk. lia.
Qed.

Lemma iter_xO_digits m k :
  digits2_pos (Pos.iter xO m k) = (digits2_pos m + k)%positive.
Proof.
  induction k using Pos.peano_ind.
  - cbn. lia.
  - rewrite Pos.iter_succ. cbn [digits2_pos]. rewrite IHk. lia.
Qed.

(** A mantissa of exactly 53 bits with a small exponent is left alone. *)
Lemma binary_round_aux_exact s mz ez :
  digits2_pos mz = 53%positive -> -1074 <= ez <= 971 ->
  binary_round_aux 53 1024 s (Z.pos mz) ez loc_Exact = S754_finite s mz ez.
Proof.
  intros Hd He. unfold binary_round_aux, shr_fexp, fexp, emin, Zdigits2.
  rewrite Hd. cbn [shr_record_of_loc].
  replace (Z.max (53 + ez - 53) (3 - 1024 - 53) - ez) with 0 by lia.
  cbn [shr shr_m loc_of_shr_record round_nearest_even Zdigits2].
  rewrite Hd.
  replace (Z.max (53 + ez - 53) (3 - 1024 - 53) - ez) with 0 by lia.
  cbn [shr shr_m shr_record_of_loc].
  destruct (Z.leb_spec ez (1024 - 53)); [reflexivity|lia].
Qed.

Lemma binary_round_small s m :
  Z.pos m < 2 ^ 53 ->
  exists mz ez, binary_round 53 1024 s m 0 = S754_finite s mz ez /\
                -52 <= ez <= 0 /\ Z.pos mz = Z.pos m * 2 ^ (- ez).
Proof.
  intros Hm. pose proof (digits2_pos_le m 53 ltac:(lia) Hm) as Hd.
  unfold binary_round, shl_align, fexp, emin.
  replace (Z.max (Z.pos (digits2_pos m) + 0 - 53) (3 - 1024 - 53))
    with (Z.pos (digits2_pos m) - 53) by lia.
  destruct (Z.pos (digits2_pos m) - 53 - 0) as [|p|p] eqn:E; [| lia |].
  - exists m, 0. replace (Z.pos (digits2_pos m) - 53) with 0 by lia.
    rewrite binary_round_aux_exact by lia. split; [reflexivity|]. cbn. lia.
  - exists (Pos.iter xO m p), (Z.pos (digits2_pos m) - 53).
    rewrite binary_round_aux_exact.
    + split; [reflexivity|]. split; [lia|].
      rewrite iter_xO_value. f_equal. f_equal. lia.
    + rewrite iter_xO_digits. lia.
    + lia.
Qed.

Lemma integerValue_finite_negexp s mz ez m :
  -52 <= ez <= 0 -> Z.pos mz = Z.pos m * 2 ^ (- ez) ->
  Js.integerValue (S754_finite s mz ez) = Some (if s then Z.neg m else Z.pos m).
Proof.
  intros He Hv. unfold Js.integerValue.
  destruct (Z.leb_spec 0 ez).
  - assert (ez = 0) by lia. subst ez. cbn in Hv.
    assert (mz = m) by lia. subst. destruct s; f_equal; lia.
  - assert (H2 : 0 < 2 ^ (- ez)) by (apply Z.pow_pos_nonneg; lia).
    rewrite Hv, Z.mod_mul by lia. cbn [Z.eqb].
    destruct s; f_equal.
    + replace (Z.neg mz) with ((- Z.pos m) * 2 ^ (- ez)) by lia.
      rewrite Z.div_mul by lia. reflexivity.
    + replace (Z.pos mz) with (Z.pos m * 2 ^ (- ez)) by lia.
      rewrite Z.div_mul by lia. reflexivity.
Qed.

(** [Number(b)] is exact up to [2 ^ 53] in magnitude. *)
Lemma NumberOfBigInt_exact v :
  Z.abs v <= 2 ^ 53 -> Js.integerValue (Js.NumberOfBigInt v) = Some v.
Proof.
  intros Hv. unfold Js.NumberOfBigInt.
  destruct (Z.eq_dec (Z.abs v) (2 ^ 53)) as [E|E].
  - destruct v as [|p|p]; [discriminate| |].
    + assert (Z.pos p = 2 ^ 53) by lia. inversion H. reflexivity.
    + assert (Z.neg p = - 2 ^ 53) by lia. inversion H. reflexivity.
  - destruct v as [|p|p]; [reflexivity| |]; cbn [binary_normalize].
    + destruct (binary_round_small false p) as (mz & ez & -> & He & Hm); [lia|].
      apply integerValue_finite_negexp with (m := p); assumption.
    + destruct (binary_round_small true p) as (mz & ez & -> & He & Hm); [lia|].
      apply integerValue_finite_negexp with (m := p); assumption.
Qed.
End NumberFacts.

(** Equality of texts. *)
Lemma text_eqb_eq a b : Js.text_eqb a b = true <-> a = b.
Proof.
  revert b. induction a as [|x a IH]; intros [|y b]; cbn; try (split; [discriminate|congruence]).
  - split; reflexivity.
  - rewrite andb_true_iff, Ascii.eqb_eq, IH. split; [intros [-> ->]; reflexivity|].
    intros H; inversion H; auto.
Qed.

Lemma text_eqb_refl a : Js.text_eqb a a = true.
Proof. apply text_eqb_eq. reflexivity. Qed.

Lemma text_eqb_neq a b : a <> b -> Js.text_eqb a b = false.
Proof.
  intros H. destruct (Js.text_eqb a b) eqn:E; [|reflexivity].
  apply text_eqb_eq in E. tauto.
Qed.

Section SessionClaims.
Import Connection Session SessionFacts.
Variable parseFloat : text -> Js.number.
Variable numberToString : Js.number -> text.

(** The scenario S5: PING and ECHO hi are in flight when a push frame,
    then PONG, then the blob hi arrive in one chunk. *)
Example scenario_S5 :
  exists fuel cm,
    onData parseFloat fuel (lines [">2"; "+chan"; "+msg"; "+PONG"; "$2"; "hi"])
      (fst (sendCommand numberToString 2 (B "ECHO") [ArgString (B "hi")]
         (fst (sendCommand numberToString 1 (B "PING") []
            (connectedManager DEFAULT_CLIENT_OPTIONS))))) = Some cm /\
    settled cm = [(mkCommandId 1 1, Resolved (js_string (B "PONG")));
                  (mkCommandId 2 2, Resolved (js_string (B "hi")))] /\
    List.filter (fun e => match e with ev_push _ => true | _ => false end) (emitted cm)
      = [ev_push (plain (push [plain (simple_string (B "chan"));
                               plain (simple_string (B "msg"))]))].
Proof. exists 40%nat. eexists. vm_compute. repeat split. Qed.

(** C6.  On a connected session whose bookkeeping is well formed:
    a non-push reply settles the oldest command in flight, with the
    transformed reply, and removes exactly that command; a push frame
    settles nothing and removes nothing; and along every run of
    submissions, replies and push frames (no timer fires), the commands
    settled so far followed by the commands in flight are the commands
    in the order of their submission - futures settle in submission
    order. *)
Theorem fifo_resolution_order cm :
  wellFormed cm -> isConnected cm = true -> _transport cm = true -> _writer cm = true ->
  (forall r k pc rest, _pendingCommands cm = (k, pc) :: rest ->
     settled (fst (_handleReply r cm)) = settled cm ++ [(k, settlementOf r (command pc))] /\
     _pendingCommands (fst (_handleReply r cm)) = rest) /\
  (forall p,
     settled (fst (_handlePush p cm)) = settled cm /\
     _pendingCommands (fst (_handlePush p cm)) = _pendingCommands cm) /\
  (forall trace,
     List.map fst (settled (run numberToString trace cm))
       ++ pendingIds (run numberToString trace cm)
     = List.map fst (settled cm) ++ pendingIds cm
       ++ submittedIds (_commandIdCounter cm) trace).
Proof.
  intros Hwf Hc Ht Hw. split; [|split].
  - intros r k pc rest E.
    destruct (handleReply_head r cm k pc rest Hwf E) as (_ & Hs & Hp & _). tauto.
  - intros p. split; reflexivity.
  - intros trace. apply run_order; assumption.
Qed.

(** C3, as the code has it.  When the timer of a command A in flight
    fires, the entry of A is deleted from the map of pending commands (no
    placeholder stays behind) and the future of A is rejected with the
    command-timeout error; the next non-push reply then settles the
    oldest command that is left, whichever command the server meant it
    for. *)
Theorem timeout_drops_entry_and_next_reply_settles_head cm pcA :
  wellFormed cm -> In (id pcA, pcA) (_pendingCommands cm) -> In (id pcA) (timers cm) ->
  _pendingCommands (commandTimeoutFires pcA cm)
    = mapDelete (id pcA) (_pendingCommands cm) /\
  ~ In (id pcA) (pendingIds (commandTimeoutFires pcA cm)) /\
  outcome (id pcA) (commandTimeoutFires pcA cm)
    = Some (Rejected (CommandTimeoutError (command pcA) (commandTimeout (_options cm))
                        (args pcA))) /\
  (forall r kB pcB rest,
     _pendingCommands (commandTimeoutFires pcA cm) = (kB, pcB) :: rest ->
     outcome kB (fst (_handleReply r (commandTimeoutFires pcA cm)))
       = Some (settlementOf r (command pcB)) /\
     _pendingCommands (fst (_handleReply r (commandTimeoutFires pcA cm))) = rest).
Proof.
  intros Hwf Hin Ht.
  destruct (commandTimeoutFires_spec cm pcA Hwf Hin Ht) as (Hp & Hs & Hn & Hwf').
  pose proof Hwf as (_ & Hpend & _).
  destruct (Hpend _ _ Hin) as (_ & _ & Hopen).
  repeat split.
  - exact Hp.
  - unfold pendingIds. rewrite Hp. intros Hin'. apply in_map_iff in Hin'.
    destruct Hin' as ([k pc] & Hk & Hin'). apply filter_In in Hin'. cbn in *. subst k.
    rewrite CommandId_eqb_refl in Hin'. destruct Hin'. discriminate.
  - apply outcome_new with (l := settled cm); [exact Hs|].
    apply isSettled_false_iff. exact Hopen.
  - destruct (handleReply_head r _ kB pcB rest Hwf' H) as (_ & Hs' & _).
    apply outcome_new with (l := settled (commandTimeoutFires pcA cm)); [exact Hs'|].
    apply isSettled_false_iff. destruct Hwf' as (_ & Hpend' & _).
    apply (Hpend' kB pcB). rewrite H. left. reflexivity.
  - destruct (handleReply_head r _ kB pcB rest Hwf' H) as (_ & _ & Hp' & _). exact Hp'.
Qed.

(** What the reply handler of the handshake does with the first reply. *)
Lemma handshakeOnReply_spec resp3 cm :
  handshakePromise cm = Pending ->
  (isSimpleOK resp3 = true ->
     snd (handshakeOnReply resp3 cm) = None /\
     connectPromise (fst (handshakeOnReply resp3 cm)) = Fulfilled tt /\
     _isHandshakeComplete (fst (handshakeOnReply resp3 cm)) = true) /\
  (isSimpleOK resp3 = false -> stringifyThrows resp3 = false ->
     snd (handshakeOnReply resp3 cm) = None /\
     connectPromise (fst (handshakeOnReply resp3 cm))
       = RejectedWith (UnexpectedHandshakeResponse resp3) /\
     _state (fst (handshakeOnReply resp3 cm)) = error_state) /\
  (isSimpleOK resp3 = false -> stringifyThrows resp3 = true ->
     handshakeOnReply resp3 cm
       = (setHandshake false false Pending cm, Some cannotSerialize)).
Proof.
  intros Hp. unfold handshakeOnReply, handshakeResolve, handshakeReject.
  repeat split; intros; cbn; rewrite ?Hp;
    repeat match goal with H : _ = _ |- _ => rewrite H end; cbn; rewrite ?Hp; reflexivity.
Qed.

(** C7.  The handshake sends exactly the bytes of HELLO 3, and the reply
    OK completes it.  When the first reply is the integer [:1], the reply
    handler has already cancelled the handshake timer and restored the
    regular handler when [JSON.stringify] throws on the bigint inside the
    reply; the promise of the handshake is then never settled, so
    [connect] neither completes nor fails: the only consequence is a
    parse-error event. *)
Theorem handshake_integer_reply_leaves_connect_pending :
  written (handshaking numberToString) = [lines ["*2"; "$5"; "HELLO"; "$1"; "3"]] /\
  (exists fuel cm,
     onData parseFloat fuel (lines ["+OK"]) (handshaking numberToString) = Some cm /\
     connectPromise cm = Fulfilled tt /\ isConnected cm = true) /\
  (exists fuel cm,
     onData parseFloat fuel (lines [":1"]) (handshaking numberToString) = Some cm /\
     connectPromise cm = Pending /\ handshakePromise cm = Pending /\
     _handshakeTimer cm = false /\ _onReplySwapped cm = false /\
     handshakeTimeoutFires cm = cm /\
     emitted cm = emitted (handshaking numberToString)
                  ++ [ev_error (ParseError (B "Do not know how to serialize a BigInt")
                                           cannotSerialize)]).
Proof.
  split; [reflexivity|]. split.
  - exists 40%nat. eexists. vm_compute. repeat split.
  - exists 40%nat. eexists. vm_compute. repeat split.
Qed.

Lemma num_lt_below n b : num_lt n b = true <-> below n b.
Proof.
  unfold below. destruct n as [z| |[|]]; cbn.
  - rewrite Z.ltb_lt. split.
    + intros H. left. exists z. auto.
    + intros [(z' & E & H)|E]; [congruence|discriminate].
  - split; [discriminate|intros [(z & E & _)|E]; discriminate].
  - split; [intros _; right; reflexivity|reflexivity].
  - split; [discriminate|intros [(z & E & _)|E]; discriminate].
Qed.

Lemma num_gt_above n b : num_gt n b = true <-> above n b.
Proof.
  unfold above. destruct n as [z| |[|]]; cbn.
  - rewrite Z.gtb_ltb, Z.ltb_lt. split.
    + intros H. left. exists z. split; [reflexivity|lia].
    + intros [(z' & E & H)|E]; [inversion E; lia|discriminate].
  - split; [discriminate|intros [(z & E & _)|E]; discriminate].
  - split; [discriminate|intros [(z & E & _)|E]; discriminate].
  - split; [intros _; right; reflexivity|reflexivity].
Qed.

(** The validation refuses exactly the options that are out of range,
    and always with a configuration error. *)
Lemma validateOptions_spec n :
  (refused n <-> outOfRange n) /\
  (Client._validateOptions n = None \/ refused n).
Proof.
  unfold refused, outOfRange, Client._validateOptions.
  rewrite <- !num_lt_below, <- num_gt_above.
  destruct (num_lt (port n) 1); cbn [orb]; [split; [split; eauto|eauto]|].
  destruct (num_gt (port n) 65535); [split; [split; eauto|eauto]|].
  destruct (num_lt (connectTimeout n) 0); [split; [split; eauto 6|eauto]|].
  destruct (num_lt (commandTimeout n) 0); [split; [split; eauto 6|eauto]|].
  destruct (num_lt (database n) 0); [split; [split; eauto 6|eauto]|].
  split; [|left; reflexivity].
  split; [intros (msg & opt & H); discriminate|].
  intros [H|[H|[H|[H|H]]]]; discriminate.
Qed.

Section ConfigurationClaims.
Variable newURL : text -> Client.URL.t + JsError.
Import Client.

(** Constructing with options that are normalized to [n]. *)
Lemma construct_validated o n :
  _normalizeOptions newURL o
  = match _validateOptions n with Some e => inr e | None => inl n end ->
  (rejected (construct newURL o) <-> outOfRange n) /\
  (rejected (construct newURL o) \/ construct newURL o = inl (Connection.create n)).
Proof.
  intros E. unfold construct, rejected. rewrite E.
  destruct (validateOptions_spec n) as [Hiff Hor].
  unfold refused in *.
  destruct (_validateOptions n) as [e|] eqn:Ev.
  - assert (Hr : exists msg opt, Some e = Some (ConfigurationError msg opt)).
    { destruct Hor as [Hor|Hor]; [discriminate|exact Hor]. }
    destruct Hr as (msg & opt & Hr). inversion Hr; subst e.
    split; [|left; eauto]. split; [intros _; apply Hiff; eauto|eauto].
  - split; [|right; reflexivity].
    split; [intros (msg & opt & H); discriminate|].
    intros H. apply Hiff in H. destruct H as (msg & opt & H). discriminate.
Qed.


End ConfigurationClaims.

(** C10, as the code has it.  An integer reply, and a big-number reply
    held as a bigint, reach the caller as [Number(value)].  Whenever the
    magnitude of the value is at most 2^53 the number the caller gets
    equals the value; for the reply 2^53 + 1 the caller gets 2^53. *)
Theorem integer_reply_exact_up_to_2_53 (v : Z) (attributes : option Resp3Attributes) cmd :
  Z.abs v <= 2 ^ 53 ->
  (exists n, _transformResponse (Node (integer v) attributes) cmd = inl (js_number n) /\
             Js.integerValue n = Some v) /\
  (exists n, _transformResponse (Node (big_number (BigIntOf v)) attributes) cmd
               = inl (js_number n) /\
             Js.integerValue n = Some v) /\
  (exists n, _transformResponse (plain (integer (2 ^ 53 + 1))) cmd = inl (js_number n) /\
             Js.integerValue n = Some (2 ^ 53)).
Proof.
  intros Hv. repeat split.
  - eexists. split; [reflexivity|]. apply NumberFacts.NumberOfBigInt_exact, Hv.
  - eexists. split; [reflexivity|]. apply NumberFacts.NumberOfBigInt_exact, Hv.
  - eexists. split; reflexivity.
Qed.

End SessionClaims.

(** ** Decimal numerals and buffer arithmetic *)

Module JsFacts.

Lemma length_app (a b : Buffer) : Js.length (a ++ b) = Js.length a + Js.length b.
Proof. unfold Js.length. rewrite List.length_app. lia. Qed.

Lemma at_app (pre : Buffer) c rest :
  Js.at_ (pre ++ c :: rest) (Js.length pre) = Some c.
Proof.
  unfold Js.at_, Js.length. destruct (Z.ltb_spec (Z.of_nat (List.length pre)) 0); [lia|].
  rewrite Nat2Z.id. rewrite nth_error_app2 by lia. rewrite Nat.sub_diag. reflexivity.
Qed.

Lemma relIndex_inside len i : 0 <= i <= len -> Js.relIndex len i = i.
Proof. intros H. unfold Js.relIndex. destruct (Z.ltb_spec i 0); lia. Qed.

Lemma skipn_app_exact {A} (pre rest : list A) :
  skipn (Z.to_nat (Z.of_nat (List.length pre))) (pre ++ rest) = rest.
Proof.
  rewrite Nat2Z.id, skipn_app, skipn_all, Nat.sub_diag. reflexivity.
Qed.

Lemma firstn_app_exact {A} (s rest : list A) n :
  n = List.length s -> firstn n (s ++ rest) = s.
Proof.
  intros ->. rewrite firstn_app, firstn_all, Nat.sub_diag. cbn. apply app_nil_r.
Qed.

Lemma findCRLF_app s post :
  Js.findCRLF s = None -> Js.findCRLF (s ++ CR :: LF :: post) = Some (List.length s).
Proof.
  induction s as [|c1 tl IH]; intros H.
  - reflexivity.
  - destruct tl as [|c2 tl'].
    + cbn. rewrite andb_false_r. reflexivity.
    + change (Js.findCRLF (c1 :: c2 :: tl'))
        with (if Ascii.eqb c1 CR && Ascii.eqb c2 LF then Some 0%nat
              else option_map S (Js.findCRLF (c2 :: tl'))) in H.
      change (Js.findCRLF ((c1 :: c2 :: tl') ++ CR :: LF :: post))
        with (if Ascii.eqb c1 CR && Ascii.eqb c2 LF then Some 0%nat
              else option_map S (Js.findCRLF ((c2 :: tl') ++ CR :: LF :: post))).
      destruct (Ascii.eqb c1 CR && Ascii.eqb c2 LF); [discriminate|].
      destruct (Js.findCRLF (c2 :: tl')) eqn:E; [discriminate|].
      rewrite IH by reflexivity. reflexivity.
Qed.

(** Searching CR LF from the start of [s], where [s] is free of it and is
    followed by CR LF. *)
Lemma indexOfCRLF_spec (pre s post : Buffer) :
  Js.findCRLF s = None ->
  Js.indexOfCRLF (pre ++ s ++ CRLF ++ post) (Js.length pre)
    = Some (Js.length pre + Js.length s).
Proof.
  intros H. unfold Js.indexOfCRLF.
  rewrite relIndex_inside by (rewrite length_app; unfold Js.length; lia).
  unfold Js.length at 1. rewrite skipn_app_exact.
  change (CRLF ++ post) with (CR :: LF :: post).
  rewrite findCRLF_app by assumption. reflexivity.
Qed.

Lemma toStringRange_spec (pre s post : Buffer) :
  Js.toStringRange (pre ++ s ++ post) (Js.length pre) (Js.length pre + Js.length s) = s.
Proof.
  unfold Js.toStringRange. rewrite !length_app.
  unfold Js.length.
  rewrite !Z.max_l by lia. rewrite !Z.min_l by lia.
  rewrite skipn_app_exact. apply firstn_app_exact. lia.
Qed.

Lemma subarray_spec (pre s post : Buffer) :
  Js.subarray (pre ++ s ++ post) (Js.length pre) (Js.length pre + Js.length s) = s.
Proof.
  unfold Js.subarray. rewrite !relIndex_inside by (rewrite !length_app; unfold Js.length; lia).
  unfold Js.length. rewrite skipn_app_exact. apply firstn_app_exact. lia.
Qed.

Lemma digitIn_digit c :
  Js.isDigit c = true -> Js.digitIn 10 c = Some (Z.of_nat (nat_of_ascii c) - 48).
Proof.
  unfold Js.isDigit, Js.digitIn, Js.digitValue. intros H.
  apply andb_true_iff in H. destruct H as [H1 H2].
  apply Nat.leb_le in H1. apply Nat.leb_le in H2.
  destruct (Z.leb_spec 48 (Z.of_nat (nat_of_ascii c))); [|lia].
  destruct (Z.leb_spec (Z.of_nat (nat_of_ascii c)) 57); [|lia]. cbn [andb].
  destruct (Z.ltb_spec (Z.of_nat (nat_of_ascii c) - 48) 10); [reflexivity|lia].
Qed.

Lemma uintDigits_digits d : Forall (fun c => Js.isDigit c = true) (Js.uintDigits d).
Proof. induction d; cbn; constructor; auto. Qed.

Lemma digitsPrefix_digits s : forall acc n rest,
  Forall (fun c => Js.isDigit c = true) s ->
  (match rest with [] => True | c :: _ => Js.digitIn 10 c = None end) ->
  Js.digitsPrefix 10 (s ++ rest) acc n = (value10 s acc, (n + List.length s)%nat).
Proof.
  induction s as [|c tl IH]; intros acc n rest Hs Hrest.
  - cbn [app value10 List.length]. destruct rest as [|c tl]; cbn.
    + f_equal. lia.
    + rewrite Hrest. f_equal. lia.
  - apply Forall_cons_iff in Hs. destruct Hs as [Hc Hs].
    cbn [app Js.digitsPrefix value10 List.length].
    rewrite (digitIn_digit c Hc). rewrite IH by assumption. f_equal. lia.
Qed.

Ltac eval_digit :=
  match goal with
  | |- context [Z.of_nat (nat_of_ascii ?c)] =>
      let v := eval vm_compute in (Z.of_nat (nat_of_ascii c)) in
      change (Z.of_nat (nat_of_ascii c)) with v
  end.

Lemma value10_acc d : forall acc,
  value10 (Js.uintDigits d) (Z.pos acc) = Z.pos (Pos.of_uint_acc d acc).
Proof.
  induction d; intros acc; cbn [Js.uintDigits value10 Pos.of_uint_acc];
    try reflexivity; rewrite <- IHd; f_equal; eval_digit; lia.
Qed.

Lemma value10_uint d : value10 (Js.uintDigits d) 0 = Z.of_N (Pos.of_uint d).
Proof.
  induction d; cbn [Js.uintDigits value10 Pos.of_uint]; try reflexivity;
    eval_digit; try exact IHd; cbn [Z.of_N]; rewrite <- value10_acc; reflexivity.
Qed.

Lemma value10_to_uint d : value10 (Js.uintDigits d) 0 = Z.of_uint d.
Proof. apply value10_uint. Qed.

Lemma digit_not_space c : Js.isDigit c = true -> Js.isWhiteSpace c = false.
Proof.
  unfold Js.isDigit, Js.isWhiteSpace. intros H.
  apply andb_true_iff in H. destruct H as [H1 H2].
  apply Nat.leb_le in H1. apply Nat.leb_le in H2.
  destruct (Nat.leb_spec (nat_of_ascii c) 13); [lia|]. rewrite andb_false_r. cbn [orb].
  apply Nat.eqb_neq. lia.
Qed.

Lemma trimStart_id c tl : Js.isWhiteSpace c = false -> Js.trimStart (c :: tl) = c :: tl.
Proof. intros H. cbn. rewrite H. reflexivity. Qed.

Lemma trim_id s :
  Forall (fun c => Js.isWhiteSpace c = false) s -> Js.trim s = s.
Proof.
  intros H. unfold Js.trim.
  assert (Hts : forall l, Forall (fun c => Js.isWhiteSpace c = false) l -> Js.trimStart l = l).
  { intros [|c tl] Hl; [reflexivity|]. apply trimStart_id. inversion Hl; assumption. }
  rewrite (Hts s H). rewrite Hts by (apply Forall_rev; exact H). apply rev_involutive.
Qed.

Lemma allDigits_digits s :
  s <> [] -> Forall (fun c => Js.isDigit c = true) s ->
  Js.allDigits 10 s = Some (value10 s 0).
Proof.
  intros Hne Hs. unfold Js.allDigits.
  pose proof (digitsPrefix_digits s 0 0%nat [] Hs I) as E. rewrite app_nil_r in E.
  rewrite E. cbn [Nat.add]. rewrite Nat.eqb_refl.
  destruct s; [congruence|]. reflexivity.
Qed.

Lemma parseInt_digits s :
  s <> [] -> Forall (fun c => Js.isDigit c = true) s ->
  Js.parseInt s = Some (value10 s 0).
Proof.
  intros Hne Hs. unfold Js.parseInt.
  destruct s as [|c tl]; [congruence|].
  pose proof Hs as Hs'. apply Forall_cons_iff in Hs'. destruct Hs' as [Hc _].
  rewrite trimStart_id by (apply digit_not_space; exact Hc).
  pose proof (digitsPrefix_digits (c :: tl) 0 0%nat [] Hs I) as E. rewrite app_nil_r in E.
  destruct c as [[] [] [] [] [] [] [] []]; try discriminate Hc;
    lazy beta iota; rewrite E; reflexivity.
Qed.

Lemma BigInt_digits s :
  s <> [] -> Forall (fun c => Js.isDigit c = true) s ->
  Js.BigInt s = Some (value10 s 0).
Proof.
  intros Hne Hs. unfold Js.BigInt.
  rewrite trim_id by (eapply Forall_impl; [|exact Hs]; apply digit_not_space).
  rewrite <- (allDigits_digits s Hne Hs).
  destruct s as [|c tl]; [congruence|].
  apply Forall_cons_iff in Hs. destruct Hs as [Hc Htl].
  destruct c as [[] [] [] [] [] [] [] []]; try discriminate Hc; try reflexivity.
  destruct tl as [|c2 tl2]; [reflexivity|].
  apply Forall_cons_iff in Htl. destruct Htl as [Hc2 _].
  destruct c2 as [[] [] [] [] [] [] [] []]; try discriminate Hc2; reflexivity.
Qed.

Lemma BigInt_minus_digits s :
  s <> [] -> Forall (fun c => Js.isDigit c = true) s ->
  Js.BigInt ("-"%char :: s) = Some (- value10 s 0).
Proof.
  intros Hne Hs. unfold Js.BigInt.
  rewrite trim_id.
  - rewrite (allDigits_digits s Hne Hs). reflexivity.
  - constructor; [reflexivity|]. eapply Forall_impl; [|exact Hs]. apply digit_not_space.
Qed.

Lemma to_uint_nonnil p : Js.uintDigits (Pos.to_uint p) <> [].
Proof.
  pose proof (DecimalPos.Unsigned.to_uint_nonnil p) as H.
  destruct (Pos.to_uint p); cbn; congruence.
Qed.

Lemma intToString_nonneg n :
  0 <= n ->
  exists u, Js.intToString n = Js.uintDigits u /\ Js.uintDigits u <> [] /\ Z.of_uint u = n.
Proof.
  intros Hn. unfold Js.intToString. pose proof (DecimalZ.of_to n) as E.
  destruct n as [|p|p]; [| |lia]; cbn [Z.to_int] in *.
  - exists (Decimal.D0 Decimal.Nil). repeat split. cbn. congruence.
  - exists (Pos.to_uint p). repeat split; [apply to_uint_nonnil|exact E].
Qed.

(** Decimal round trips. *)
Lemma parseInt_intToString n : 0 <= n -> Js.parseInt (Js.intToString n) = Some n.
Proof.
  intros Hn. destruct (intToString_nonneg n Hn) as (u & -> & Hne & <-).
  rewrite parseInt_digits by (auto using uintDigits_digits). rewrite value10_to_uint.
  reflexivity.
Qed.

Lemma BigInt_intToString z : Js.BigInt (Js.intToString z) = Some z.
Proof.
  destruct (Z_le_gt_dec 0 z) as [Hz|Hz].
  - destruct (intToString_nonneg z Hz) as (u & -> & Hne & <-).
    rewrite BigInt_digits by (auto using uintDigits_digits). rewrite value10_to_uint.
    reflexivity.
  - destruct z as [|p|p]; try lia. unfold Js.intToString. cbn [Z.to_int].
    rewrite BigInt_minus_digits by (auto using uintDigits_digits, to_uint_nonnil).
    rewrite value10_to_uint. f_equal.
    pose proof (DecimalZ.of_to (Z.neg p)) as E. cbn [Z.to_int Z.of_int] in E. exact E.
Qed.

Lemma intToString_noCRLF_digits n :
  0 <= n -> Forall (fun c => Js.isDigit c = true) (Js.intToString n).
Proof.
  intros Hn. destruct (intToString_nonneg n Hn) as (u & -> & _). apply uintDigits_digits.
Qed.

Lemma digits_findCRLF s :
  Forall (fun c => Js.isDigit c = true) s -> Js.findCRLF s = None.
Proof.
  induction s as [|c tl IH]; intros H; [reflexivity|].
  apply Forall_cons_iff in H. destruct H as [Hc Htl].
  destruct tl as [|c2 tl2]; [reflexivity|].
  change (Js.findCRLF (c :: c2 :: tl2))
    with (if Ascii.eqb c CR && Ascii.eqb c2 LF then Some 0%nat
          else option_map S (Js.findCRLF (c2 :: tl2))).
  rewrite IH by assumption.
  destruct (Ascii.eqb_spec c CR) as [->|]; [discriminate Hc|]. reflexivity.
Qed.

End JsFacts.

(** ** Values without children are parsed back from their encoding *)

Module LeafFacts.
Import Parser JsFacts.

Ltac run_monad :=
  unfold bind, get, ret, throw, setOffset, setFrames, setPendingAttributes;
  cbn [_buffer _offset _frames _pendingAttributes].

Ltac len :=
  unfold Js.length, CRLF, B;
  repeat first [rewrite List.length_app
               | progress cbn [List.length list_ascii_of_string]]; lia.

Lemma length_cons c (s : Buffer) : Js.length (c :: s) = 1 + Js.length s.
Proof. unfold Js.length. cbn [List.length]. lia. Qed.

Lemma length_CRLF : Js.length CRLF = 2.
Proof. reflexivity. Qed.

Lemma length_nonneg (s : Buffer) : 0 <= Js.length s.
Proof. unfold Js.length. lia. Qed.

Section Leaves.
Context {S : Type} (parseFloat : text -> Js.number) (opts : ParserOptions S).
Hypothesis buffers : decodeBlobAsString opts = false.

Lemma prefixIs_spec pre c rest fs :
  prefixIs c (mkParser (pre ++ c :: rest) (Js.length pre) fs None)
  = (Normal true, mkParser (pre ++ c :: rest) (Js.length pre) fs None).
Proof.
  unfold prefixIs. run_monad. rewrite at_app, Ascii.eqb_refl. reflexivity.
Qed.

Lemma readLine_spec pre c s post fs :
  Js.findCRLF (c :: s) = None ->
  readLine (mkParser (pre ++ c :: s ++ CRLF ++ post) (Js.length pre) fs None)
  = (Normal (Some s),
     mkParser (pre ++ c :: s ++ CRLF ++ post)
              (Js.length pre + Js.length (c :: s ++ CRLF)) fs None).
Proof.
  intros H. unfold readLine. run_monad.
  change (pre ++ c :: s ++ CRLF ++ post) with (pre ++ (c :: s) ++ CRLF ++ post).
  rewrite indexOfCRLF_spec by exact H. run_monad.
  f_equal.
  - f_equal. f_equal.
    replace (pre ++ (c :: s) ++ CRLF ++ post) with ((pre ++ [c]) ++ s ++ (CRLF ++ post))
      by (rewrite <- app_assoc; reflexivity).
    replace (Js.length pre + 1) with (Js.length (pre ++ [c])) by len.
    replace (Js.length pre + Js.length (c :: s)) with (Js.length (pre ++ [c]) + Js.length s)
      by len.
    apply toStringRange_spec.
  - f_equal. len.
Qed.

Lemma readLen_spec pre c n post fs :
  0 <= n < 2 ^ 53 ->
  readLenAfterPrefix
    (mkParser (pre ++ c :: Js.intToString n ++ CRLF ++ post) (Js.length pre) fs None)
  = (Normal (Some n),
     mkParser (pre ++ c :: Js.intToString n ++ CRLF ++ post)
              (Js.length pre + Js.length (c :: Js.intToString n ++ CRLF)) fs None).
Proof.
  intros Hn. unfold readLenAfterPrefix. run_monad.
  replace (pre ++ c :: Js.intToString n ++ CRLF ++ post)
    with ((pre ++ [c]) ++ Js.intToString n ++ CRLF ++ post)
    by (rewrite <- app_assoc; reflexivity).
  replace (Js.length pre + 1) with (Js.length (pre ++ [c])) by len.
  rewrite indexOfCRLF_spec
    by (apply digits_findCRLF, intToString_noCRLF_digits; lia).
  run_monad. rewrite toStringRange_spec.
  rewrite parseInt_intToString by lia.
  assert (Ho : Js.overflowsDouble n = false).
  { unfold Js.overflowsDouble. apply Z.leb_gt. rewrite Z.abs_eq by lia.
    assert (2 ^ 53 < 2 ^ 1024 - 2 ^ 970) by (vm_compute; reflexivity). lia. }
  rewrite Ho. run_monad. f_equal. f_equal. len.
Qed.
Lemma bind_normal {A C} (m : M A) (k : A -> M C) p a p' :
  m p = (Normal a, p') -> bind m k p = k a p'.
Proof. intros H. unfold bind. rewrite H. reflexivity. Qed.

Lemma cons_findCRLF c s : c <> CR -> Js.findCRLF s = None -> Js.findCRLF (c :: s) = None.
Proof.
  intros Hc Hs. destruct s as [|c2 tl]; [reflexivity|].
  change (Js.findCRLF (c :: c2 :: tl))
    with (if Ascii.eqb c CR && Ascii.eqb c2 LF then Some 0%nat
          else option_map Datatypes.S (Js.findCRLF (c2 :: tl))).
  rewrite Hs. destruct (Ascii.eqb_spec c CR); [contradiction|]. reflexivity.
Qed.

Lemma intToString_findCRLF z : Js.findCRLF (Js.intToString z) = None.
Proof.
  destruct (Z_le_gt_dec 0 z).
  - apply digits_findCRLF, intToString_noCRLF_digits. assumption.
  - destruct z as [|p|p]; try lia. unfold Js.intToString. cbn [Z.to_int].
    apply cons_findCRLF; [discriminate|]. apply digits_findCRLF, uintDigits_digits.
Qed.

Lemma indexOf_app ch (c rest : text) :
  Js.indexOf ch c = None -> Js.indexOf ch (c ++ ch :: rest) = Some (List.length c).
Proof.
  induction c as [|x tl IH]; cbn; intros H.
  - rewrite Ascii.eqb_refl. reflexivity.
  - destruct (Ascii.eqb x ch); [discriminate|].
    destruct (Js.indexOf ch tl); [discriminate|]. rewrite IH by reflexivity. reflexivity.
Qed.

Lemma splitCode_codeAndMessage code message :
  codeOk code message ->
  splitCode (Writer.codeAndMessage code message) = (code, message).
Proof.
  unfold codeOk, splitCode, Writer.codeAndMessage.
  destruct code as [[|c cs]|].
  - intros [H _]. congruence.
  - intros [_ H]. rewrite indexOf_app by exact H. cbn [List.length].
    unfold Js.sliceTo, Js.sliceFrom.
    rewrite firstn_app_exact by reflexivity.
    replace (Datatypes.S (List.length cs) + 1)%nat
      with (List.length ((c :: cs) ++ [" "%char]))
      by (rewrite List.length_app; reflexivity).
    replace ((c :: cs) ++ " "%char :: message) with (((c :: cs) ++ [" "%char]) ++ message)
      by (rewrite <- app_assoc; reflexivity).
    rewrite skipn_app, skipn_all, Nat.sub_diag. reflexivity.
  - destruct (Js.indexOf " "%char message) as [[|n]|]; tauto || reflexivity.
Qed.

Lemma splitFormat_spec format value :
  format <> [] -> Js.indexOf ":"%char format = None ->
  splitFormat (format ++ ":"%char :: value) = (format, value).
Proof.
  intros Hne H. unfold splitFormat. rewrite indexOf_app by exact H.
  destruct format as [|c cs]; [congruence|]. cbn [List.length].
  unfold Js.sliceTo, Js.sliceFrom.
  rewrite firstn_app_exact by reflexivity.
  replace (Datatypes.S (List.length cs) + 1)%nat
    with (List.length ((c :: cs) ++ [":"%char]))
    by (rewrite List.length_app; reflexivity).
  replace ((c :: cs) ++ ":"%char :: value) with (((c :: cs) ++ [":"%char]) ++ value)
    by (rewrite <- app_assoc; reflexivity).
  rewrite skipn_app, skipn_all, Nat.sub_diag. reflexivity.
Qed.

(** The dispatch of [parseOne] on a buffer that holds a byte at the offset. *)
Lemma parseOneWith_at consume pre c rest fs :
  parseOneWith parseFloat opts consume (mkParser (pre ++ c :: rest) (Js.length pre) fs None)
  = match c with
    | "+"%char => parseSimpleString
    | "-"%char => parseError
    | ":"%char => parseInteger
    | "$"%char => parseBlobStringLike opts false
    | "!"%char => parseBlobStringLike opts true
    | "="%char => parseVerbatimString
    | "*"%char => parseAggregateWith consume k_array
    | "%"%char => parseAggregateWith consume k_map
    | "~"%char => parseAggregateWith consume k_set
    | ">"%char => parseAggregateWith consume k_push
    | "|"%char => parseAggregateWith consume k_attributes
    | "_"%char => parseNull
    | "#"%char => parseBoolean
    | ","%char => parseDouble parseFloat
    | "("%char => parseBigNumber
    | _ => throw (Error (B "Unknown RESP3 prefix: 0x" ++ hexOfByte c))
    end (mkParser (pre ++ c :: rest) (Js.length pre) fs None).
Proof.
  unfold parseOneWith. run_monad.
  assert (H : (Js.length (pre ++ c :: rest) <=? Js.length pre)%Z = false)
    by (apply Z.leb_gt; len).
  rewrite H, at_app. reflexivity.
Qed.

(** A line-based value: prefix byte, text, CR LF. *)
Lemma line_parser_spec c (k : text -> M Parsed) s pre post fs :
  c <> CR -> noCRLF s ->
  (ok <- prefixIs c ;;
   if negb ok then ret NEED_MORE else
   line <- readLine ;;
   match line with
   | None => ret NEED_MORE
   | Some line => k line
   end)
    (mkParser (pre ++ (c :: s ++ CRLF) ++ post) (Js.length pre) fs None)
  = k s (mkParser (pre ++ (c :: s ++ CRLF) ++ post)
                  (Js.length pre + Js.length (c :: s ++ CRLF)) fs None).
Proof.
  intros Hc Hs.
  replace (pre ++ (c :: s ++ CRLF) ++ post) with (pre ++ c :: s ++ CRLF ++ post)
    by (cbn [app]; rewrite <- app_assoc; reflexivity).
  rewrite (bind_normal _ _ _ _ _ (prefixIs_spec pre c _ fs)). cbn [negb].
  rewrite (bind_normal _ _ _ _ _
             (readLine_spec pre c s post fs (cons_findCRLF c s Hc Hs))).
  reflexivity.
Qed.

Lemma attach_plain (b : Body) buf o fs :
  (n <- attachAttrs (plain b) ;; ret (Value n)) (mkParser buf o fs None)
  = (Normal (Value (plain b)), mkParser buf o fs None).
Proof. reflexivity. Qed.

(** The header of a length-prefixed value. *)
Lemma header_spec c (k : Z -> M Parsed) n pre post fs :
  0 <= n < 2 ^ 53 ->
  (ok <- prefixIs c ;;
   if negb ok then ret NEED_MORE else
   len <- readLenAfterPrefix ;;
   match len with
   | None => ret NEED_MORE
   | Some len => k len
   end)
    (mkParser (pre ++ (c :: Js.intToString n ++ CRLF) ++ post) (Js.length pre) fs None)
  = k n (mkParser (pre ++ (c :: Js.intToString n ++ CRLF) ++ post)
                  (Js.length pre + Js.length (c :: Js.intToString n ++ CRLF)) fs None).
Proof.
  intros Hn.
  replace (pre ++ (c :: Js.intToString n ++ CRLF) ++ post)
    with (pre ++ c :: Js.intToString n ++ CRLF ++ post)
    by (cbn [app]; rewrite <- app_assoc; reflexivity).
  rewrite (bind_normal _ _ _ _ _ (prefixIs_spec pre c _ fs)). cbn [negb].
  rewrite (bind_normal _ _ _ _ _ (readLen_spec pre c n post fs Hn)).
  reflexivity.
Qed.

(** The header [c -1 CR LF] of a null blob or aggregate. *)
Lemma null_header_spec c (k : Z -> M Parsed) pre post fs :
  (ok <- prefixIs c ;;
   if negb ok then ret NEED_MORE else
   len <- readLenAfterPrefix ;;
   match len with
   | None => ret NEED_MORE
   | Some len => k len
   end)
    (mkParser (pre ++ (c :: B "-1" ++ CRLF) ++ post) (Js.length pre) fs None)
  = k (-1) (mkParser (pre ++ (c :: B "-1" ++ CRLF) ++ post)
                     (Js.length pre + Js.length (c :: B "-1" ++ CRLF)) fs None).
Proof.
  replace (pre ++ (c :: B "-1" ++ CRLF) ++ post)
    with (pre ++ c :: B "-1" ++ CRLF ++ post)
    by (cbn [app]; reflexivity).
  rewrite (bind_normal _ _ _ _ _ (prefixIs_spec pre c _ fs)). cbn [negb].
  unfold readLenAfterPrefix at 1. unfold bind at 1. run_monad.
  replace (pre ++ c :: B "-1" ++ CRLF ++ post)
    with ((pre ++ [c]) ++ B "-1" ++ CRLF ++ post)
    by (rewrite <- app_assoc; reflexivity).
  replace (Js.length pre + 1) with (Js.length (pre ++ [c])) by len.
  rewrite indexOfCRLF_spec by reflexivity.
  run_monad. rewrite toStringRange_spec.
  change (Js.parseInt (B "-1")) with (Some (-1)).
  cbv beta iota. change (Js.overflowsDouble (-1)) with false. cbv beta iota.
  f_equal. f_equal. len.
Qed.

(** The payload of a length-prefixed value and the CR LF behind it. *)
Lemma payload_spec (k : Buffer -> M Parsed) (notTerminated : text)
    (head payload post : Buffer) fs :
  (enough <- ensure (Js.length payload + 2) ;;
   if negb enough then ret NEED_MORE else
   b <- get _buffer ;; o <- get _offset ;;
   let p := Js.subarray b o (o + Js.length payload) in
   setOffset (o + Js.length payload) ;;;
   enough2 <- ensure 2 ;;
   if negb enough2 then ret NEED_MORE else
   o <- get _offset ;;
   match Js.at_ b o, Js.at_ b (o + 1) with
   | Some c1, Some c2 =>
       if Ascii.eqb c1 CR && Ascii.eqb c2 LF then setOffset (o + 2) ;;; k p
       else throw (Error notTerminated)
   | _, _ => throw (Error notTerminated)
   end)
    (mkParser (head ++ (payload ++ CRLF) ++ post) (Js.length head) fs None)
  = k payload (mkParser (head ++ (payload ++ CRLF) ++ post)
                        (Js.length head + Js.length (payload ++ CRLF)) fs None).
Proof.
  assert (H1 : (Js.length payload + 2
                <=? Js.length (head ++ (payload ++ CRLF) ++ post) - Js.length head)%Z = true)
    by (apply Z.leb_le; len).
  assert (H2 : (2 <=? Js.length (head ++ (payload ++ CRLF) ++ post)
                      - (Js.length head + Js.length payload))%Z = true)
    by (apply Z.leb_le; len).
  assert (Hsub : Js.subarray (head ++ (payload ++ CRLF) ++ post) (Js.length head)
                   (Js.length head + Js.length payload) = payload).
  { rewrite <- (app_assoc payload). apply subarray_spec. }
  assert (Hat1 : Js.at_ (head ++ (payload ++ CRLF) ++ post)
                   (Js.length head + Js.length payload) = Some CR).
  { replace (head ++ (payload ++ CRLF) ++ post) with ((head ++ payload) ++ CR :: LF :: post)
      by (rewrite <- !app_assoc; reflexivity).
    replace (Js.length head + Js.length payload) with (Js.length (head ++ payload)) by len.
    apply at_app. }
  assert (Hat2 : Js.at_ (head ++ (payload ++ CRLF) ++ post)
                   (Js.length head + Js.length payload + 1) = Some LF).
  { replace (head ++ (payload ++ CRLF) ++ post)
      with (((head ++ payload) ++ [CR]) ++ LF :: post)
      by (rewrite <- !app_assoc; reflexivity).
    replace (Js.length head + Js.length payload + 1)
      with (Js.length ((head ++ payload) ++ [CR])) by len.
    apply at_app. }
  unfold ensure. run_monad. rewrite H1. cbn [negb]. run_monad.
  rewrite H2. cbn [negb]. run_monad. rewrite Hat1, Hat2, Hsub.
  cbn [Ascii.eqb Bool.eqb CR LF andb]. run_monad.
  f_equal. f_equal. len.
Qed.
Lemma parseOneWith_at' consume pre c rest post fs :
  parseOneWith parseFloat opts consume
    (mkParser (pre ++ (c :: rest) ++ post) (Js.length pre) fs None)
  = match c with
    | "+"%char => parseSimpleString
    | "-"%char => parseError
    | ":"%char => parseInteger
    | "$"%char => parseBlobStringLike opts false
    | "!"%char => parseBlobStringLike opts true
    | "="%char => parseVerbatimString
    | "*"%char => parseAggregateWith consume k_array
    | "%"%char => parseAggregateWith consume k_map
    | "~"%char => parseAggregateWith consume k_set
    | ">"%char => parseAggregateWith consume k_push
    | "|"%char => parseAggregateWith consume k_attributes
    | "_"%char => parseNull
    | "#"%char => parseBoolean
    | ","%char => parseDouble parseFloat
    | "("%char => parseBigNumber
    | _ => throw (Error (B "Unknown RESP3 prefix: 0x" ++ hexOfByte c))
    end (mkParser (pre ++ (c :: rest) ++ post) (Js.length pre) fs None).
Proof. apply (parseOneWith_at consume pre c (rest ++ post) fs). Qed.

Variable numberToString : Js.number -> text.

Local Notation "'enc'" := (fun v => Writer.writeValue numberToString v []).

Local Notation "'parsesAs'" := (parses parseFloat opts).

Lemma parse_simple_string s :
  noCRLF s -> parsesAs (plain (simple_string s)) ("+"%char :: s ++ CRLF).
Proof.
  intros H consume pre post fs. rewrite parseOneWith_at'. lazy beta iota.
  unfold parseSimpleString. rewrite line_parser_spec by (discriminate || assumption).
  reflexivity.
Qed.

Lemma parse_error code message :
  codeOk code message -> noCRLF (Writer.codeAndMessage code message) ->
  parsesAs (plain (error code message))
           ("-"%char :: Writer.codeAndMessage code message ++ CRLF).
Proof.
  intros Hc H consume pre post fs. rewrite parseOneWith_at'. lazy beta iota.
  unfold parseError. rewrite line_parser_spec by (discriminate || assumption).
  rewrite splitCode_codeAndMessage by assumption. reflexivity.
Qed.

Lemma parse_integer z :
  parsesAs (plain (integer z)) (":"%char :: Js.intToString z ++ CRLF).
Proof.
  intros consume pre post fs. rewrite parseOneWith_at'. lazy beta iota.
  unfold parseInteger.
  rewrite line_parser_spec by (discriminate || apply intToString_findCRLF).
  rewrite BigInt_intToString. reflexivity.
Qed.

Lemma parse_big_number_bigint z :
  parsesAs (plain (big_number (BigIntOf z))) ("("%char :: Js.intToString z ++ CRLF).
Proof.
  intros consume pre post fs. rewrite parseOneWith_at'. lazy beta iota.
  unfold parseBigNumber.
  rewrite line_parser_spec by (discriminate || apply intToString_findCRLF).
  rewrite BigInt_intToString. reflexivity.
Qed.

Lemma parse_big_number_digits s :
  noCRLF s -> Js.BigInt s = None ->
  parsesAs (plain (big_number (DigitsOf s))) ("("%char :: s ++ CRLF).
Proof.
  intros H Hb consume pre post fs. rewrite parseOneWith_at'. lazy beta iota.
  unfold parseBigNumber. rewrite line_parser_spec by (discriminate || assumption).
  rewrite Hb. reflexivity.
Qed.

Lemma parse_boolean b :
  parsesAs (plain (boolean b)) ("#"%char :: (if b then B "t" else B "f") ++ CRLF).
Proof.
  intros consume pre post fs. rewrite parseOneWith_at'. lazy beta iota.
  unfold parseBoolean.
  rewrite line_parser_spec by (discriminate || (destruct b; reflexivity)).
  destruct b; reflexivity.
Qed.

Lemma parse_null : parsesAs (plain null) ("_"%char :: [] ++ CRLF).
Proof.
  intros consume pre post fs. rewrite parseOneWith_at'. lazy beta iota.
  unfold parseNull. rewrite line_parser_spec by (discriminate || reflexivity).
  reflexivity.
Qed.

Lemma parse_double_special v (s : text) :
  (v = Js.Infinity /\ s = B "inf") \/ (v = Js.NegInfinity /\ s = B "-inf") \/
  (v = Js.NaN /\ s = B "nan") ->
  parsesAs (plain (double v)) (","%char :: s ++ CRLF).
Proof.
  intros H consume pre post fs. rewrite parseOneWith_at'. lazy beta iota.
  unfold parseDouble.
  destruct H as [[-> ->]|[[-> ->]|[-> ->]]];
    rewrite line_parser_spec by (discriminate || reflexivity); reflexivity.
Qed.

Lemma parse_double_finite v :
  Js.isFinite v = true ->
  noCRLF (numberToString v) -> parseFloat (numberToString v) = v ->
  Js.text_eqb (Js.toLowerCase (numberToString v)) (B "inf") = false ->
  Js.text_eqb (Js.toLowerCase (numberToString v)) (B "-inf") = false ->
  Js.text_eqb (Js.toLowerCase (numberToString v)) (B "nan") = false ->
  parsesAs (plain (double v)) (","%char :: numberToString v ++ CRLF).
Proof.
  intros Hf H Hp H1 H2 H3 consume pre post fs. rewrite parseOneWith_at'. lazy beta iota.
  unfold parseDouble. rewrite line_parser_spec by (discriminate || assumption).
  rewrite H1, H2, H3, Hp.
  assert (Hn : Js.isNaN v = false) by (destruct v; try reflexivity; discriminate Hf).
  rewrite Hn. reflexivity.
Qed.
Lemma parse_null_blob :
  parsesAs (plain (blob_string None)) ("$"%char :: B "-1" ++ CRLF).
Proof.
  intros consume pre post fs. rewrite parseOneWith_at'. lazy beta iota.
  unfold parseBlobStringLike. rewrite null_header_spec. reflexivity.
Qed.

Lemma parse_null_aggregate k :
  k <> k_attributes ->
  parsesAs (aggregateNull k) (expectedPrefix k :: B "-1" ++ CRLF).
Proof.
  intros Hk consume pre post fs. rewrite parseOneWith_at'.
  destruct k; try congruence; lazy beta iota;
    unfold parseAggregateWith; cbn [expectedPrefix];
    rewrite null_header_spec; reflexivity.
Qed.

Lemma parse_empty_aggregate k (v : Resp3) :
  (k = k_array /\ v = plain (array (Some []))) \/
  (k = k_map /\ v = plain (map (Some []))) \/
  (k = k_set /\ v = plain (set (Some []))) \/
  (k = k_push /\ v = plain (push [])) ->
  parsesAs v (expectedPrefix k :: Js.intToString 0 ++ CRLF).
Proof.
  intros H consume pre post fs. rewrite parseOneWith_at'.
  destruct H as [[-> ->]|[[-> ->]|[[-> ->]|[-> ->]]]]; lazy beta iota;
    unfold parseAggregateWith; cbn [expectedPrefix];
    rewrite header_spec by (vm_compute; split; [discriminate|reflexivity]);
    reflexivity.
Qed.

(** A length-prefixed value: header, payload, CR LF. *)
Lemma blob_shape c (payload : Buffer) pre post :
  pre ++ ((c :: Js.intToString (Js.length payload) ++ CRLF) ++ payload ++ CRLF) ++ post
  = (pre ++ c :: Js.intToString (Js.length payload) ++ CRLF) ++ (payload ++ CRLF) ++ post.
Proof. rewrite <- !app_assoc. reflexivity. Qed.

Lemma blob_parser_spec c (k : Buffer -> M Parsed) (guard : Z -> bool)
    (bad : M Parsed) (notTerminated : text) payload pre post fs :
  smallSize payload -> guard (Js.length payload) = false ->
  (ok <- prefixIs c ;;
   if negb ok then ret NEED_MORE else
   len <- readLenAfterPrefix ;;
   match len with
   | None => ret NEED_MORE
   | Some len =>
       if guard len then bad else
       enough <- ensure (len + 2) ;;
       if negb enough then ret NEED_MORE else
       b <- get _buffer ;; o <- get _offset ;;
       let p := Js.subarray b o (o + len) in
       setOffset (o + len) ;;;
       enough2 <- ensure 2 ;;
       if negb enough2 then ret NEED_MORE else
       o <- get _offset ;;
       match Js.at_ b o, Js.at_ b (o + 1) with
       | Some c1, Some c2 =>
           if Ascii.eqb c1 CR && Ascii.eqb c2 LF then setOffset (o + 2) ;;; k p
           else throw (Error notTerminated)
       | _, _ => throw (Error notTerminated)
       end
   end)
    (mkParser
       (pre ++ (c :: (Js.intToString (Js.length payload) ++ CRLF) ++ payload ++ CRLF) ++ post)
       (Js.length pre) fs None)
  = k payload
      (mkParser
         (pre ++ (c :: (Js.intToString (Js.length payload) ++ CRLF) ++ payload ++ CRLF) ++ post)
         (Js.length pre
          + Js.length (c :: (Js.intToString (Js.length payload) ++ CRLF) ++ payload ++ CRLF))
         fs None).
Proof.
  intros Hsmall Hguard.
  change (c :: (Js.intToString (Js.length payload) ++ CRLF) ++ payload ++ CRLF)
    with ((c :: Js.intToString (Js.length payload) ++ CRLF) ++ payload ++ CRLF).
  assert (Hn : 0 <= Js.length payload < 2 ^ 53) by (split; [apply length_nonneg|exact Hsmall]).
  replace (pre ++ ((c :: Js.intToString (Js.length payload) ++ CRLF) ++ payload ++ CRLF) ++ post)
    with (pre ++ (c :: Js.intToString (Js.length payload) ++ CRLF)
              ++ ((payload ++ CRLF) ++ post))
    by (rewrite <- !app_assoc; reflexivity).
  rewrite header_spec by exact Hn. rewrite Hguard.
  replace (pre ++ (c :: Js.intToString (Js.length payload) ++ CRLF)
               ++ ((payload ++ CRLF) ++ post))
    with ((pre ++ c :: Js.intToString (Js.length payload) ++ CRLF)
            ++ (payload ++ CRLF) ++ post)
    by (rewrite <- !app_assoc; reflexivity).
  replace (Js.length pre + Js.length (c :: Js.intToString (Js.length payload) ++ CRLF))
    with (Js.length (pre ++ c :: Js.intToString (Js.length payload) ++ CRLF)) by len.
  rewrite payload_spec. f_equal. f_equal. len.
Qed.

Lemma parse_blob_string b :
  smallSize b ->
  parsesAs (plain (blob_string (Some (BufferOf b))))
           ("$"%char :: (Js.intToString (Js.length b) ++ CRLF) ++ b ++ CRLF).
Proof.
  intros Hs consume pre post fs.
  rewrite parseOneWith_at'. lazy beta iota.
  assert (Hg : (Js.length b =? -1)%Z = false)
    by (apply Z.eqb_neq; pose proof (length_nonneg b); lia).
  etransitivity;
    [exact (blob_parser_spec "$"%char
              (fun payload =>
                 if decodeBlobAsString opts
                 then n <- attachAttrs (plain (blob_string (Some (StringOf payload)))) ;;
                      ret (Value n)
                 else n <- attachAttrs (plain (blob_string (Some (BufferOf payload)))) ;;
                      ret (Value n))
              (fun len => (len =? -1)%Z)
              (n <- attachAttrs (plain (blob_string None)) ;; ret (Value n))
              (B "Blob not terminated by CRLF") b pre post fs Hs Hg)|].
  rewrite buffers. reflexivity.
Qed.

Lemma parse_blob_error code message :
  codeOk code message -> smallSize (Writer.codeAndMessage code message) ->
  parsesAs (plain (blob_error code message))
           ("!"%char :: (Js.intToString (Js.length (Writer.codeAndMessage code message))
               ++ CRLF) ++ Writer.codeAndMessage code message ++ CRLF).
Proof.
  intros Hc Hs consume pre post fs.
  rewrite parseOneWith_at'. lazy beta iota.
  assert (Hg : (Js.length (Writer.codeAndMessage code message) =? -1)%Z = false)
    by (apply Z.eqb_neq;
        pose proof (length_nonneg (Writer.codeAndMessage code message)); lia).
  etransitivity;
    [exact (blob_parser_spec "!"%char
              (fun payload =>
                 let '(code, message) := splitCode payload in
                 n <- attachAttrs (plain (blob_error code message)) ;; ret (Value n))
              (fun len => (len =? -1)%Z)
              (n <- attachAttrs (plain (blob_error None [])) ;; ret (Value n))
              (B "Blob not terminated by CRLF")
              (Writer.codeAndMessage code message) pre post fs Hs Hg)|].
  cbv beta. rewrite splitCode_codeAndMessage by exact Hc. reflexivity.
Qed.

Lemma parse_verbatim_string format value :
  format <> [] -> Js.indexOf ":"%char format = None ->
  smallSize (format ++ ":"%char :: value) ->
  parsesAs (plain (verbatim_string format value))
           ("="%char :: (Js.intToString (Js.length (format ++ ":"%char :: value)) ++ CRLF)
              ++ (format ++ ":"%char :: value) ++ CRLF).
Proof.
  intros Hne Hf Hs consume pre post fs.
  rewrite parseOneWith_at'. lazy beta iota.
  assert (Hg : (Js.length (format ++ ":"%char :: value) <? 0)%Z = false)
    by (apply Z.ltb_ge, length_nonneg).
  etransitivity;
    [exact (blob_parser_spec "="%char
              (fun payload =>
                 let '(format, value) := splitFormat payload in
                 n <- attachAttrs (plain (verbatim_string format value)) ;; ret (Value n))
              (fun len => (len <? 0)%Z)
              (throw (Error (B "Invalid verbatim length")))
              (B "Verbatim not terminated by CRLF")
              (format ++ ":"%char :: value) pre post fs Hs Hg)|].
  cbv beta. rewrite splitFormat_spec by assumption. reflexivity.
Qed.
Ltac flatten_writes :=
  unfold Writer.writeValue, Writer.writeSimpleString, Writer.writeError,
    Writer.writeInteger, Writer.writeDouble, Writer.writeBigNumber, Writer.writeBoolean,
    Writer.writeNull, Writer.writeBlobString, Writer.writeBlobError,
    Writer.writeVerbatimString, Writer.writeEach, Writer.writeEntries,
    Writer.andThen, Writer.writeByte, Writer.writeString, Writer.writeBytes,
    Writer.writeCRLF, Writer.sizeToString, CRLF;
  repeat rewrite <- app_assoc; cbn [app].

(** The encoder appends the bytes of a frameless value. *)
Lemma writeValue_frameless v w :
  frameless parseFloat numberToString v ->
  Writer.writeValue numberToString v w = w ++ Writer.writeValue numberToString v [].
Proof.
  destruct v as [body [a|]]; intros [Ha Hl]; [discriminate Ha|]. cbn [body_of] in Hl.
  destruct body as [s|code m|z|d|[z|s]|b| |[[b|s]|]|code m|f t|[[|]|]|[[|]|]|[[|]|]|[|]];
    unfold leaf in Hl; try contradiction; flatten_writes; try reflexivity.
  destruct d as [s|[|]| |s m e]; cbn [Js.isFinite Js.isNaN];
    repeat rewrite <- app_assoc; reflexivity.
Qed.

Lemma parse_leaf v :
  frameless parseFloat numberToString v ->
  parsesAs v (Writer.writeValue numberToString v []).
Proof.
  destruct v as [body [a|]]; intros [Ha Hl]; [discriminate Ha|]. cbn [body_of] in Hl.
  destruct body as [s|code m|z|d|[z|s]|b| |[[b|s]|]|code m|f t|[[|]|]|[[|]|]|[[|]|]|[|]];
    unfold leaf in Hl; try contradiction.
  - apply parse_simple_string, Hl.
  - apply parse_error; tauto.
  - apply parse_integer.
  - destruct Hl as [Hf|(H & Hp & H1 & H2 & H3)].
    + destruct d as [s|[|]| |]; try discriminate Hf;
        apply parse_double_special; tauto.
    + destruct (Js.isFinite d) eqn:Hf.
      * replace (Writer.writeValue numberToString (Node (double d) None) [])
          with (","%char :: numberToString d ++ CRLF)
          by (flatten_writes; rewrite Hf; flatten_writes; reflexivity).
        apply parse_double_finite; assumption.
      * destruct d as [s|[|]| |]; try discriminate Hf;
          apply parse_double_special; tauto.
  - apply parse_big_number_bigint.
  - apply parse_big_number_digits; tauto.
  - apply parse_boolean.
  - apply parse_null.
  - replace (Writer.writeValue numberToString (Node (blob_string (Some (BufferOf b))) None) [])
      with ("$"%char :: (Js.intToString (Js.length b) ++ CRLF) ++ b ++ CRLF)
      by (flatten_writes; reflexivity).
    apply parse_blob_string, Hl.
  - apply parse_null_blob.
  - replace (Writer.writeValue numberToString (Node (blob_error code m) None) [])
      with ("!"%char :: (Js.intToString (Js.length (Writer.codeAndMessage code m)) ++ CRLF)
              ++ Writer.codeAndMessage code m ++ CRLF)
      by (flatten_writes; reflexivity).
    apply parse_blob_error; tauto.
  - replace (Writer.writeValue numberToString (Node (verbatim_string f t) None) [])
      with ("="%char :: (Js.intToString (Js.length (f ++ ":"%char :: t)) ++ CRLF)
              ++ (f ++ ":"%char :: t) ++ CRLF)
      by (flatten_writes; reflexivity).
    apply parse_verbatim_string; tauto.
  - apply (parse_empty_aggregate k_array). tauto.
  - apply (parse_null_aggregate k_array). discriminate.
  - apply (parse_empty_aggregate k_map). tauto.
  - apply (parse_null_aggregate k_map). discriminate.
  - apply (parse_empty_aggregate k_set). tauto.
  - apply (parse_null_aggregate k_set). discriminate.
  - apply (parse_empty_aggregate k_push). tauto.
Qed.
End Leaves.
End LeafFacts.

(** ** Aggregates of such values *)

Module AggregateFacts.
Import Parser JsFacts LeafFacts.

Section Aggregates.
Context {S : Type} (parseFloat : text -> Js.number) (opts : ParserOptions S).
Hypothesis buffers : decodeBlobAsString opts = false.
Variable numberToString : Js.number -> text.

Local Notation "'enc'" := (fun v => Writer.writeValue numberToString v []).
Local Notation "'frameless'" := (frameless parseFloat numberToString).

Local Notation "'encAll'" := (encodeAll numberToString).

Lemma writeEach_frameless l : forall w,
  Forall frameless l ->
  Writer.writeEach (Writer.writeValue numberToString) l w = w ++ encAll l.
Proof.
  induction l as [|v tl IH]; intros w H; cbn [Writer.writeEach].
  - unfold encodeAll. cbn. rewrite app_nil_r. reflexivity.
  - apply Forall_cons_iff in H. destruct H as [Hv Htl].
    rewrite IH by assumption. rewrite (writeValue_frameless parseFloat numberToString v w Hv).
    unfold encodeAll. cbn [List.map List.concat]. rewrite <- app_assoc. reflexivity.
Qed.

Lemma writeEntries_frameless l : forall w,
  Forall (fun kv => frameless (fst kv) /\ exists v, snd kv = Some v /\ frameless v) l ->
  Writer.writeEntries (Writer.writeValue numberToString) l w
  = w ++ encAll (flattenEntries l).
Proof.
  induction l as [|[k v] tl IH]; intros w H; cbn [Writer.writeEntries flattenEntries].
  - unfold encodeAll. cbn. rewrite app_nil_r. reflexivity.
  - apply Forall_cons_iff in H. destruct H as [(Hk & v' & Hv & Hv') Htl].
    cbn [fst snd] in *. subst v.
    rewrite IH by assumption.
    rewrite (writeValue_frameless parseFloat numberToString v'  _ Hv').
    rewrite (writeValue_frameless parseFloat numberToString k w Hk).
    unfold encodeAll. cbn [List.map List.concat]. rewrite <- !app_assoc. reflexivity.
Qed.

Lemma entriesOf_flatten l :
  Forall (fun kv : Resp3 * option Resp3 =>
            frameless (fst kv) /\ exists v, snd kv = Some v /\ frameless v) l ->
  entriesOf (flattenEntries l) = l.
Proof.
  induction l as [|[k v] tl IH]; intros H; [reflexivity|].
  apply Forall_cons_iff in H. destruct H as [(Hk & v' & Hv & Hv') Htl].
  cbn [fst snd] in *. subst v. cbn [flattenEntries entriesOf]. rewrite IH by assumption.
  reflexivity.
Qed.

Lemma flatten_frameless l :
  Forall (fun kv : Resp3 * option Resp3 =>
            frameless (fst kv) /\ exists v, snd kv = Some v /\ frameless v) l ->
  Forall frameless (flattenEntries l) /\
  List.length (flattenEntries l) = (2 * List.length l)%nat.
Proof.
  induction l as [|[k v] tl IH]; intros H; [split; [constructor|reflexivity]|].
  apply Forall_cons_iff in H. destruct H as [(Hk & v' & Hv & Hv') Htl].
  cbn [fst snd] in *. subst v. destruct (IH Htl) as [IH1 IH2].
  cbn [flattenEntries List.length].
  split; [apply Forall_cons; [exact Hk|apply Forall_cons; [exact Hv'|exact IH1]]|lia].
Qed.

(** The loop of [consumeNested] over the remaining children of the one
    frame on the stack. *)
Lemma consume_children children : forall its pre post k fuel,
  Forall frameless children -> children <> [] -> k <> k_attributes ->
  (List.length children < fuel)%nat ->
  consumeNested parseFloat opts fuel
    (mkParser (pre ++ encAll children ++ post) (Js.length pre)
              [mkFrame k (Z.of_nat (List.length children)) its None] None)
  = (Normal (Value (finalized k (its ++ children))),
     mkParser (pre ++ encAll children ++ post)
              (Js.length pre + Js.length (encAll children)) [] None).
Proof.
  induction children as [|c rest IH]; intros its pre post k fuel Hall Hne Hk Hfuel;
    [congruence|].
  apply Forall_cons_iff in Hall. destruct Hall as [Hc Hrest].
  destruct fuel as [|fuel]; [cbn in Hfuel; lia|].
  cbn [consumeNested]. run_monad.
  unfold encodeAll. cbn [List.map List.concat]. fold (encodeAll numberToString rest).
  replace (pre ++ (enc c ++ encAll rest) ++ post) with (pre ++ enc c ++ (encAll rest ++ post))
    by (rewrite <- app_assoc; reflexivity).
  rewrite (parse_leaf parseFloat opts buffers numberToString c Hc). run_monad.
  unfold pushItem. cbn [remaining items kind attrs].
  destruct rest as [|c2 rest'].
  - cbn [List.length]. cbn [Z.of_nat Pos.of_succ_nat Z.sub Z.add Z.opp Z.pos_sub Z.gtb Z.compare].
    destruct k; try congruence; unfold finalizeFrameInstant; cbn [kind items];
      run_monad; unfold encodeAll;
      cbn [List.map List.concat app attachExplicitAttrs finalized];
      rewrite ?app_nil_r; repeat f_equal; len.
  - assert (Hgt : (Z.of_nat (List.length (c :: c2 :: rest')) - 1 >? 0)%Z = true)
      by (apply Z.gtb_lt; cbn [List.length]; lia).
    rewrite Hgt.
    replace (pre ++ enc c ++ (encAll (c2 :: rest') ++ post))
      with ((pre ++ enc c) ++ encAll (c2 :: rest') ++ post)
      by (rewrite <- app_assoc; reflexivity).
    replace (Js.length pre + Js.length (enc c)) with (Js.length (pre ++ enc c)) by len.
    replace (Z.of_nat (List.length (c :: c2 :: rest')) - 1)
      with (Z.of_nat (List.length (c2 :: rest'))) by (cbn [List.length]; lia).
    rewrite IH; [|assumption|discriminate|assumption|cbn [List.length] in *; lia].
    rewrite <- (app_assoc its [c]). cbn [app]. f_equal. f_equal. len.
Qed.
(** A non-empty aggregate of frameless values, parsed from the start of
    the buffer with no aggregate in progress. *)
Lemma parse_aggregate k m children fuel :
  Forall frameless children -> children <> [] -> k <> k_attributes ->
  0 <= m < 2 ^ 53 ->
  (match k with k_map | k_attributes => m * 2 | _ => m end)
    = Z.of_nat (List.length children) ->
  (List.length children < fuel)%nat ->
  parseOne parseFloat opts fuel
    (mkParser ((expectedPrefix k :: Js.intToString m ++ CRLF) ++ encAll children) 0 [] None)
  = (Normal (Value (finalized k children)),
     mkParser ((expectedPrefix k :: Js.intToString m ++ CRLF) ++ encAll children)
              (Js.length ((expectedPrefix k :: Js.intToString m ++ CRLF) ++ encAll children))
              [] None).
Proof.
  intros Hall Hne Hk Hm Hcount Hfuel. unfold parseOne.
  assert (Hpos : 0 < Z.of_nat (List.length children))
    by (destruct children; [congruence|cbn [List.length]; lia]).
  pose proof (parseOneWith_at' parseFloat opts (consumeNested parseFloat opts fuel) []
                (expectedPrefix k) (Js.intToString m ++ CRLF) (encAll children) []) as E.
  cbn [app] in E. change (Js.length []) with 0 in E. cbn [app]. rewrite E. clear E.
  assert (Hagg : (match expectedPrefix k with
                  | "+"%char => parseSimpleString
                  | "-"%char => parseError
                  | ":"%char => parseInteger
                  | "$"%char => parseBlobStringLike opts false
                  | "!"%char => parseBlobStringLike opts true
                  | "="%char => parseVerbatimString
                  | "*"%char => parseAggregateWith (consumeNested parseFloat opts fuel) k_array
                  | "%"%char => parseAggregateWith (consumeNested parseFloat opts fuel) k_map
                  | "~"%char => parseAggregateWith (consumeNested parseFloat opts fuel) k_set
                  | ">"%char => parseAggregateWith (consumeNested parseFloat opts fuel) k_push
                  | "|"%char =>
                      parseAggregateWith (consumeNested parseFloat opts fuel) k_attributes
                  | "_"%char => parseNull
                  | "#"%char => parseBoolean
                  | ","%char => parseDouble parseFloat
                  | "("%char => parseBigNumber
                  | _ => throw (Error (B "Unknown RESP3 prefix: 0x"
                                         ++ hexOfByte (expectedPrefix k)))
                  end) = parseAggregateWith (consumeNested parseFloat opts fuel) k)
    by (destruct k; reflexivity).
  rewrite Hagg. clear Hagg. unfold parseAggregateWith.
  pose proof (header_spec (expectedPrefix k)
                (fun len =>
                   if (len =? -1)%Z
                   then n <- attachAttrs (aggregateNull k) ;; ret (Value n)
                   else
                     stolen <- stealPendingAttributes ;;
                     (let frame :=
                        mkFrame k (match k with
                                   | k_map | k_attributes => len * 2
                                   | _ => len
                                   end) [] stolen in
                      if (remaining frame =? 0)%Z
                      then done <- finalizeFrameInstant frame ;;
                           n <- attachAttrs done ;; ret (Value n)
                      else fs <- get _frames ;;
                           setFrames (frame :: fs) ;;;
                           consumeNested parseFloat opts fuel))
                m [] (encAll children) [] Hm) as E.
  cbn [app] in E. change (Js.length []) with 0 in E.
  etransitivity; [exact E|]. clear E. cbv beta.
  assert (Hm1 : (m =? -1)%Z = false) by (apply Z.eqb_neq; lia).
  rewrite Hm1. unfold stealPendingAttributes. run_monad. cbv zeta.
  cbn [remaining]. rewrite Hcount.
  assert (Hz : (Z.of_nat (List.length children) =? 0)%Z = false) by (apply Z.eqb_neq; lia).
  rewrite Hz. run_monad.
  pose proof (consume_children children [] (expectedPrefix k :: Js.intToString m ++ CRLF) []
                k fuel Hall Hne Hk Hfuel) as C.
  rewrite app_nil_r in C. cbn [app] in C.
  replace (0 + Js.length (expectedPrefix k :: Js.intToString m ++ CRLF))
    with (Js.length (expectedPrefix k :: Js.intToString m ++ CRLF)) by lia.
  etransitivity; [exact C|]. f_equal. f_equal. len.
Qed.
Lemma smallSize_bounds {A} (l : list A) :
  smallSize l -> 0 <= Z.of_nat (List.length l) < 2 ^ 53.
Proof. unfold smallSize. lia. Qed.

(** Every value of the class is parsed back from its encoding. *)
Lemma parse_flat v :
  flat parseFloat numberToString v ->
  exists fuel0, forall fuel, (fuel0 <= fuel)%nat ->
    parseOne parseFloat opts fuel (mkParser (enc v) 0 [] None)
    = (Normal (Value v), mkParser (enc v) (Js.length (enc v)) [] None).
Proof.
  intros Hflat.
  assert (Hleaf : frameless v ->
            exists fuel0, forall fuel, (fuel0 <= fuel)%nat ->
              parseOne parseFloat opts fuel (mkParser (enc v) 0 [] None)
              = (Normal (Value v), mkParser (enc v) (Js.length (enc v)) [] None)).
  { intros Hl. exists 0%nat. intros fuel _.
    pose proof (parse_leaf parseFloat opts buffers numberToString v Hl
                  (consumeNested parseFloat opts fuel) [] [] []) as E.
    cbn [app] in E. rewrite app_nil_r in E. exact E. }
  destruct v as [body [a|]]; destruct Hflat as [Ha Hb]; [discriminate Ha|].
  cbn [body_of] in Hb.
  destruct body as [s|code m|z|d|bn|b| |bl|code m|f t|[[|c l]|]|[[|e l]|]|[[|c l]|]|[|c l]];
    try (apply Hleaf; split; [reflexivity|exact Hb]).
  - destruct Hb as [Hs Hall]. exists (Datatypes.S (List.length (c :: l))). intros fuel Hf.
    pose proof (parse_aggregate k_array (Z.of_nat (List.length (c :: l))) (c :: l) fuel
                  Hall ltac:(discriminate) ltac:(discriminate) (smallSize_bounds _ Hs)
                  eq_refl ltac:(lia)) as E.
    replace (enc (Node (array (Some (c :: l))) None))
      with ((expectedPrefix k_array :: Js.intToString (Z.of_nat (List.length (c :: l)))
               ++ CRLF) ++ encAll (c :: l));
      [exact E|].
    cbn [Writer.writeValue]. rewrite writeEach_frameless by exact Hall. reflexivity.
  - destruct Hb as [Hs Hall].
    destruct (flatten_frameless (e :: l) Hall) as [Hfl Hlen].
    exists (Datatypes.S (List.length (flattenEntries (e :: l)))). intros fuel Hf.
    assert (Hne : flattenEntries (e :: l) <> [])
      by (intros Hnil; rewrite Hnil in Hlen; cbn [List.length] in Hlen; lia).
    pose proof (parse_aggregate k_map (Z.of_nat (List.length (e :: l)))
                  (flattenEntries (e :: l)) fuel
                  Hfl Hne ltac:(discriminate) (smallSize_bounds _ Hs)
                  ltac:(rewrite Hlen; lia) ltac:(lia)) as E.
    unfold finalized in E. rewrite (entriesOf_flatten (e :: l) Hall) in E.
    replace (enc (Node (map (Some (e :: l))) None))
      with ((expectedPrefix k_map :: Js.intToString (Z.of_nat (List.length (e :: l)))
               ++ CRLF) ++ encAll (flattenEntries (e :: l)));
      [exact E|].
    cbn [Writer.writeValue]. rewrite writeEntries_frameless by exact Hall. reflexivity.
  - destruct Hb as [Hs Hall]. exists (Datatypes.S (List.length (c :: l))). intros fuel Hf.
    pose proof (parse_aggregate k_set (Z.of_nat (List.length (c :: l))) (c :: l) fuel
                  Hall ltac:(discriminate) ltac:(discriminate) (smallSize_bounds _ Hs)
                  eq_refl ltac:(lia)) as E.
    replace (enc (Node (set (Some (c :: l))) None))
      with ((expectedPrefix k_set :: Js.intToString (Z.of_nat (List.length (c :: l)))
               ++ CRLF) ++ encAll (c :: l));
      [exact E|].
    cbn [Writer.writeValue]. rewrite writeEach_frameless by exact Hall. reflexivity.
  - destruct Hb as [Hs Hall]. exists (Datatypes.S (List.length (c :: l))). intros fuel Hf.
    pose proof (parse_aggregate k_push (Z.of_nat (List.length (c :: l))) (c :: l) fuel
                  Hall ltac:(discriminate) ltac:(discriminate) (smallSize_bounds _ Hs)
                  eq_refl ltac:(lia)) as E.
    replace (enc (Node (push (c :: l)) None))
      with ((expectedPrefix k_push :: Js.intToString (Z.of_nat (List.length (c :: l)))
               ++ CRLF) ++ encAll (c :: l));
      [exact E|].
    cbn [Writer.writeValue]. rewrite writeEach_frameless by exact Hall. reflexivity.
Qed.

End Aggregates.

End AggregateFacts.

(** ** The round trip through the encoder and the decoder *)

(** C5, as the code has it.  Let V carry no attributes and be a scalar, a
    null or empty aggregate, or a non-empty array, set, push or map whose
    members are such scalars and null or empty aggregates, with the text
    fields as the decoder produces them (no CR LF inside a line, an error
    code that is non-empty and free of spaces, sizes below 2^53).  Then
    feeding encode(V) to a fresh decoder emits exactly one value, equal to
    V - on the push sink when V is a push, on the reply sink otherwise. *)
Theorem round_trip_of_flat_values parseFloat numberToString v :
  flat parseFloat numberToString v ->
  decodesTo parseFloat [Writer.encode numberToString v] (emittedOnce v).
Proof.
  intros Hflat.
  destruct (AggregateFacts.parse_flat parseFloat recorder eq_refl numberToString v Hflat)
    as [fuel0 Hp].
  unfold decodesTo, feeds, Writer.encode, Writer.reset, emittedOnce.
  exists (Parser.mkParser (Writer.writeValue numberToString v [])
            (Js.length (Writer.writeValue numberToString v [])) [] None).
  exists (Datatypes.S (Datatypes.S fuel0)).
  cbn [Parser.feedAll]. unfold Parser.feed.
  pose proof (Hp fuel0 (Nat.le_refl _)) as Hne.
  destruct (Writer.writeValue numberToString v []) as [|c bytes] eqn:Ebytes;
    [cbn in Hne; discriminate Hne|]. clear Hne.
  cbn [List.length Nat.eqb Parser.initial Parser._offset Parser._buffer Parser._frames
       Parser._pendingAttributes].
  change ((0 =? 0)%Z && (Js.length [] =? 0)%Z) with true. cbv beta iota.
  cbn [Parser.feedLoop]. rewrite (Hp (Datatypes.S fuel0)) by lia.
  unfold Parser.handleValue. cbn [Parser._frames List.length Nat.eqb negb].
  rewrite andb_false_r.
  assert (Hend : Parser.parseOne parseFloat recorder fuel0
                   (Parser.mkParser (c :: bytes) (Js.length (c :: bytes)) [] None)
                 = (Normal Undefined,
                    Parser.mkParser (c :: bytes) (Js.length (c :: bytes)) [] None)).
  { unfold Parser.parseOne, Parser.parseOneWith. LeafFacts.run_monad.
    rewrite Z.leb_refl. reflexivity. }
  destruct (Parser.isPush v); cbn [onPush onReply recorder Parser.call];
    cbn [Parser.feedLoop]; rewrite Hend; reflexivity.
Qed.

(** ** Closed instances *)

Lemma connectedManager_wellFormed o : Session.wellFormed (connectedManager o).
Proof.
  repeat split; try (cbn; constructor); intros; cbn in *; contradiction.
Defined.

Lemma twoInFlight_wellFormed : Session.wellFormed (twoInFlight noNumberToString).
Proof.
  unfold twoInFlight, oneInFlight.
  pose proof (SessionFacts.sendCommand_connected noNumberToString 1 (B "GET")
                [ArgString (B "a")] (connectedManager DEFAULT_CLIENT_OPTIONS)
                (connectedManager_wellFormed _) eq_refl eq_refl eq_refl)
    as (_ & _ & _ & _ & Hc & Ht & Hw & Hwf).
  apply (SessionFacts.sendCommand_connected noNumberToString 2 (B "GET")
           [ArgString (B "b")] _ Hwf Hc Ht Hw).
Defined.

(** Two submissions and their two replies. *)
Lemma fifo_resolution_order_witness :
  Session.wellFormed (connectedManager DEFAULT_CLIENT_OPTIONS) /\
  List.map fst
    (Connection.settled
       (Session.run noNumberToString
          [Submit 1 (B "PING") []; Submit 2 (B "ECHO") [ArgString (B "hi")];
           Reply (plain (simple_string (B "PONG")));
           Reply (plain (blob_string (Some (BufferOf (B "hi")))))]
          (connectedManager DEFAULT_CLIENT_OPTIONS)))
  ++ Connection.pendingIds
       (Session.run noNumberToString
          [Submit 1 (B "PING") []; Submit 2 (B "ECHO") [ArgString (B "hi")];
           Reply (plain (simple_string (B "PONG")));
           Reply (plain (blob_string (Some (BufferOf (B "hi")))))]
          (connectedManager DEFAULT_CLIENT_OPTIONS))
  = [mkCommandId 1 1; mkCommandId 2 2].
Proof.
  split; [apply connectedManager_wellFormed|].
  exact (proj2 (proj2 (fifo_resolution_order noNumberToString
                         (connectedManager DEFAULT_CLIENT_OPTIONS)
                         (connectedManager_wellFormed _) eq_refl eq_refl eq_refl))
           [Submit 1 (B "PING") []; Submit 2 (B "ECHO") [ArgString (B "hi")];
            Reply (plain (simple_string (B "PONG")));
            Reply (plain (blob_string (Some (BufferOf (B "hi")))))]).
Defined.

(** A times out while A and B are in flight. *)
Lemma timeout_drops_entry_witness :
  Session.wellFormed (twoInFlight noNumberToString) /\
  In (id commandA, commandA) (Connection._pendingCommands (twoInFlight noNumberToString)) /\
  In (id commandA) (Connection.timers (twoInFlight noNumberToString)) /\
  Connection.outcome (id commandA)
    (Connection.commandTimeoutFires commandA (twoInFlight noNumberToString))
  = Some (Rejected (CommandTimeoutError (B "GET") (Int 5000) [ArgString (B "a")])).
Proof.
  split; [apply twoInFlight_wellFormed|].
  split; [left; reflexivity|]. split; [left; reflexivity|].
  exact (proj1 (proj2 (proj2 (timeout_drops_entry_and_next_reply_settles_head
                                (twoInFlight noNumberToString) commandA
                                twoInFlight_wellFormed
                                (or_introl eq_refl) (or_introl eq_refl))))).
Defined.

(** C3 as stated fails: A = GET a and B = GET b are in flight, the timer
    of A fires, then the reply meant for A arrives.  No entry for A is
    left, and the future of B is resolved with the reply of A. *)
Lemma timed_out_reply_settles_next_command :
  exists cm,
    Connection.onData noParseFloat 40 (lines ["+forA"])
      (Connection.commandTimeoutFires commandA (twoInFlight noNumberToString)) = Some cm /\
    Connection.pendingIds
      (Connection.commandTimeoutFires commandA (twoInFlight noNumberToString))
      = [id commandB] /\
    Connection.outcome (id commandB) cm = Some (Resolved (js_string (B "forA"))).
Proof. eexists. vm_compute. repeat split. Qed.


(** C5 as stated fails: the decoder produces the null that carries an
    empty attribute map (from [|0 CR LF]); its encoding leaves the empty
    attributes out, and decoding that yields a null without attributes. *)
Lemma empty_attributes_lost_in_round_trip :
  decodesTo noParseFloat [lines ["|0"]] (mkSinks [Node null (Some [])] [] []) /\
  decodesTo noParseFloat [Writer.encode noNumberToString (Node null (Some []))]
    (mkSinks [plain null] [] []) /\
  ~ decodesTo noParseFloat [Writer.encode noNumberToString (Node null (Some []))]
      (emittedOnce (Node null (Some []))).
Proof.
  assert (H : decodesTo noParseFloat [Writer.encode noNumberToString (Node null (Some []))]
                (mkSinks [plain null] [] [])) by decode_by_computation.
  split; [decode_by_computation|]. split; [exact H|].
  intros H'. pose proof (ParserFacts.decodesTo_deterministic _ _ _ _ H H') as E.
  discriminate E.
Qed.

(** An array of a simple string and an integer. *)
Lemma round_trip_of_flat_values_witness :
  flat noParseFloat noNumberToString
    (plain (array (Some [plain (simple_string (B "a")); plain (integer 7)]))) /\
  decodesTo noParseFloat
    [Writer.encode noNumberToString
       (plain (array (Some [plain (simple_string (B "a")); plain (integer 7)])))]
    (mkSinks [plain (array (Some [plain (simple_string (B "a")); plain (integer 7)]))] [] []).
Proof.
  assert (H : flat noParseFloat noNumberToString
                (plain (array (Some [plain (simple_string (B "a")); plain (integer 7)])))).
  { split; [reflexivity|]. split; [reflexivity|].
    apply Forall_cons; [split; reflexivity|].
    apply Forall_cons; [split; [reflexivity|exact I]|]. apply Forall_nil. }
  split; [exact H|].
  exact (round_trip_of_flat_values noParseFloat noNumberToString _ H).
Defined.


(** C10 as stated fails: 2^53 + 2 is larger than 2^53 in magnitude and is
    handed to the caller exactly. *)
Lemma number_exact_beyond_2_53 :
  ~ (Z.abs (2 ^ 53 + 2) <= 2 ^ 53) /\
  exists n,
    Connection._transformResponse (plain (integer (2 ^ 53 + 2))) (B "GET") = inl (js_number n) /\
    Js.integerValue n = Some (2 ^ 53 + 2).
Proof.
  split; [intros H; vm_compute in H; apply H; reflexivity|].
  eexists. split; reflexivity.
Qed.

(** The reply 42. *)
Lemma integer_reply_exact_witness :
  Z.abs 42 <= 2 ^ 53 /\
  exists n,
    Connection._transformResponse (plain (integer 42)) (B "GET") = inl (js_number n) /\
    Js.integerValue n = Some 42.
Proof.
  assert (H : Z.abs 42 <= 2 ^ 53) by (intros E; discriminate E).
  split; [exact H|].
  exact (proj1 (integer_reply_exact_up_to_2_53 42 None (B "GET") H)).
Defined.


(** * Further properties of the code *)

Module LifecycleFacts.
Import Connection Session SessionFacts Lifecycle.

Lemma filter_ids_mapDelete {V} k (m : list (CommandId * V)) :
  filter (fun t => negb (CommandId_eqb t k)) (List.map fst m) = List.map fst (mapDelete k m).
Proof.
  unfold mapDelete. induction m as [|[k' v] tl IH]; cbn; [reflexivity|].
  destruct (CommandId_eqb k' k); cbn; rewrite IH; reflexivity.
Qed.

Lemma filter_twice {A} (p q : A -> bool) l :
  filter q (filter p l) = filter (fun t => p t && q t) l.
Proof.
  induction l as [|a l IH]; cbn; [reflexivity|].
  destruct (p a); cbn; [destruct (q a)|]; rewrite IH; reflexivity.
Qed.

Lemma hasKey_head {V} k (v : V) m : hasKey k ((k, v) :: m) = true.
Proof. unfold hasKey. cbn. rewrite CommandId_eqb_refl. reflexivity. Qed.

(** The loop of [disconnect] over a map whose keys are distinct and whose
    commands are still open. *)
Lemma settle_fields i s cm :
  isSettled i cm = false ->
  _pendingCommands (settle i s cm) = _pendingCommands cm /\
  settled (settle i s cm) = settled cm ++ [(i, s)] /\
  timers (settle i s cm) = timers cm /\
  written (settle i s cm) = written cm /\
  _state (settle i s cm) = _state cm /\
  _transport (settle i s cm) = _transport cm /\
  _isHandshakeComplete (settle i s cm) = _isHandshakeComplete cm.
Proof. intros H. unfold settle. rewrite H. repeat split. Qed.

Lemma reject_one pc e cm :
  isSettled (id pc) cm = false ->
  _pendingCommands (clearTimeout (id pc) (rejectPending pc e cm))
    = mapDelete (id pc) (_pendingCommands cm) /\
  settled (clearTimeout (id pc) (rejectPending pc e cm))
    = settled cm ++ [(id pc, Rejected e)] /\
  timers (clearTimeout (id pc) (rejectPending pc e cm))
    = filter (fun t => negb (CommandId_eqb t (id pc))) (timers cm) /\
  written (clearTimeout (id pc) (rejectPending pc e cm)) = written cm /\
  _state (clearTimeout (id pc) (rejectPending pc e cm)) = _state cm /\
  _transport (clearTimeout (id pc) (rejectPending pc e cm)) = _transport cm /\
  _isHandshakeComplete (clearTimeout (id pc) (rejectPending pc e cm))
    = _isHandshakeComplete cm.
Proof.
  intros Ho. unfold rejectPending. cbv zeta.
  set (X := emit _ _).
  assert (Hs : isSettled (id pc) X = false) by exact Ho.
  destruct (settle_fields (id pc) (Rejected e) X Hs) as (S1 & S2 & S3 & S4 & S5 & S6 & S7).
  set (Y := settle (id pc) (Rejected e) X) in *. clearbody Y.
  change (_pendingCommands (clearTimeout (id pc) Y)) with (_pendingCommands Y).
  change (settled (clearTimeout (id pc) Y)) with (settled Y).
  change (timers (clearTimeout (id pc) Y))
    with (filter (fun t => negb (CommandId_eqb t (id pc))) (timers Y)).
  change (written (clearTimeout (id pc) Y)) with (written Y).
  change (_state (clearTimeout (id pc) Y)) with (_state Y).
  change (_transport (clearTimeout (id pc) Y)) with (_transport Y).
  change (_isHandshakeComplete (clearTimeout (id pc) Y)) with (_isHandshakeComplete Y).
  rewrite S1, S2, S3, S4, S5, S6, S7.
  refine (conj eq_refl (conj eq_refl (conj _ (conj eq_refl (conj eq_refl
            (conj eq_refl eq_refl)))))).
  change (timers X) with (filter (fun t => negb (CommandId_eqb t (id pc))) (timers cm)).
  rewrite filter_twice. apply filter_ext. intros t.
  destruct (CommandId_eqb t (id pc)); reflexivity.
Qed.

Lemma rejectEach_spec l : forall cm,
  _pendingCommands cm = l ->
  NoDup (List.map counter (List.map fst l)) ->
  (forall k pc, In (k, pc) l -> id pc = k /\ isSettled k cm = false) ->
  _pendingCommands (rejectEach l cm) = [] /\
  settled (rejectEach l cm)
    = settled cm ++ List.map (fun e => (fst e, Rejected disconnectError)) l /\
  timers (rejectEach l cm)
    = filter (fun t => negb (existsb (CommandId_eqb t) (List.map fst l))) (timers cm) /\
  written (rejectEach l cm) = written cm /\
  _state (rejectEach l cm) = _state cm /\
  _transport (rejectEach l cm) = _transport cm /\
  _isHandshakeComplete (rejectEach l cm) = _isHandshakeComplete cm.
Proof.
  induction l as [|[k pc] rest IH]; intros cm E Hnd Hp.
  - cbn. rewrite app_nil_r. repeat split; try assumption.
    induction (timers cm) as [|t tl IHt]; cbn; [reflexivity|]. rewrite <- IHt. reflexivity.
  - destruct (Hp k pc (or_introl eq_refl)) as [Hid Hopen].
    pose proof (mapDelete_head k pc rest Hnd) as Hdel.
    unfold rejectEach. cbn [fold_left fst snd]. rewrite E, hasKey_head.
    change (fold_left _ rest ?x) with (rejectEach rest x).
    set (cm1 := clearTimeout (id pc) (rejectPending pc disconnectError cm)).
    assert (H1 : _pendingCommands cm1 = rest /\
                 settled cm1 = settled cm ++ [(k, Rejected disconnectError)] /\
                 timers cm1 = filter (fun t => negb (CommandId_eqb t k)) (timers cm) /\
                 written cm1 = written cm /\ _state cm1 = _state cm /\
                 _transport cm1 = _transport cm /\
                 _isHandshakeComplete cm1 = _isHandshakeComplete cm).
    { subst cm1. rewrite <- Hid in Hopen.
      destruct (reject_one pc disconnectError cm Hopen) as (R1 & R2 & R3 & R4).
      rewrite R1, R2, R3, E, Hid, Hdel. repeat split; apply R4. }
    destruct H1 as (Hp1 & Hs1 & Ht1 & Hw1 & Hst1 & Htr1 & Hh1).
    cbn in Hnd. apply NoDup_cons_iff in Hnd. destruct Hnd as [Hfresh Hnd].
    assert (Hrest : forall k0 pc0, In (k0, pc0) rest ->
                      id pc0 = k0 /\ isSettled k0 cm1 = false).
    { intros k0 pc0 Hin. destruct (Hp k0 pc0 (or_intror Hin)) as [Hid0 Ho0].
      split; [exact Hid0|]. apply isSettled_false_iff. rewrite Hs1, map_app. cbn.
      intros Hin'. apply in_app_or in Hin'. destruct Hin' as [Hin'|[Hin'|[]]].
      - apply isSettled_false_iff in Ho0. tauto.
      - apply Hfresh. apply (in_map fst) in Hin. apply (in_map counter) in Hin.
        cbn in Hin. rewrite Hin'. exact Hin. }
    destruct (IH cm1 Hp1 Hnd Hrest) as (Ha & Hb & Hc & Hd & He & Hf & Hg).
    rewrite Ha, Hb, Hc, Hd, He, Hf, Hg, Hs1, Ht1, Hw1, Hst1, Htr1, Hh1.
    repeat split; try reflexivity.
    + rewrite <- app_assoc. reflexivity.
    + cbn [List.map fst existsb]. rewrite filter_twice. apply filter_ext.
      intros t. rewrite negb_orb. reflexivity.
Qed.

Lemma outcome_in i s cm :
  NoDup (List.map fst (settled cm)) -> In (i, s) (settled cm) -> outcome i cm = Some s.
Proof.
  unfold outcome. induction (settled cm) as [|[k s'] l IH]; cbn; intros Hnd Hin; [tauto|].
  apply NoDup_cons_iff in Hnd. destruct Hnd as [Hk Hnd].
  destruct Hin as [Hin|Hin].
  - inversion Hin; subst. rewrite CommandId_eqb_refl. reflexivity.
  - destruct (CommandId_eqb k i) eqn:E.
    + apply CommandId_eqb_eq in E. subst. exfalso. apply Hk.
      apply (in_map fst) in Hin. exact Hin.
    + apply IH; assumption.
Qed.


Lemma outcome_rejected_all l0 (l : list (CommandId * PendingCommand)) k pc e cm :
  settled cm = l0 ++ List.map (fun x => (fst x, Rejected e)) l ->
  ~ In k (List.map fst l0) -> In (k, pc) l -> outcome k cm = Some (Rejected e).
Proof.
  intros E Hk Hin. unfold outcome. rewrite E. clear E.
  induction l0 as [|[k0 s0] l0 IH]; cbn.
  - induction l as [|[k1 pc1] l IHl]; cbn; [destruct Hin|].
    destruct (CommandId_eqb k1 k) eqn:E1; [reflexivity|].
    destruct Hin as [Hin|Hin]; [|apply IHl; exact Hin].
    inversion Hin; subst. rewrite CommandId_eqb_refl in E1. discriminate.
  - destruct (CommandId_eqb k0 k) eqn:E0.
    + apply CommandId_eqb_eq in E0. subst. exfalso. apply Hk. left. reflexivity.
    + apply IH. intros H. apply Hk. right. exact H.
Qed.

Lemma disconnect_running cm :
  _state cm <> disconnected -> _state cm <> disconnecting ->
  disconnect cm
  = (let cm := _setState disconnecting cm in
     let cm := rejectEach (_pendingCommands cm) cm in
     let cm := setPending [] cm in
     if _transport cm then cm else disconnectFinish cm).
Proof.
  intros H1 H2. unfold disconnect. destruct (_state cm); try reflexivity; congruence.
Qed.

End LifecycleFacts.

Section LifecycleExtras.
Variable numberToString : Js.number -> text.
Import Connection Session SessionFacts Lifecycle LifecycleFacts.

(** X1.  [disconnect] on a manager that is neither disconnected nor
    disconnecting rejects every command in flight with the
    connection-required error of DISCONNECT, in the order of the map,
    disarms their timers and empties the map; nothing is written, earlier
    settlements stay, and from then on [sendCommand] is refused and a
    second [disconnect] does nothing. *)
Theorem disconnect_rejects_commands_in_flight cm :
  wellFormed cm -> _state cm <> disconnected -> _state cm <> disconnecting ->
  _pendingCommands (disconnect cm) = [] /\
  settled (disconnect cm)
    = settled cm ++ List.map (fun e => (fst e, Rejected disconnectError)) (_pendingCommands cm) /\
  (forall k pc, In (k, pc) (_pendingCommands cm) ->
     outcome k (disconnect cm) = Some (Rejected disconnectError) /\
     ~ In k (timers (disconnect cm))) /\
  written (disconnect cm) = written cm /\
  _state (disconnect cm) = (if _transport cm then disconnecting else disconnected) /\
  isConnected (disconnect cm) = false /\
  (forall now cmd arguments,
     sendCommand numberToString now cmd arguments (disconnect cm)
     = (disconnect cm, inr (ConnectionRequiredError cmd (_state (disconnect cm))))) /\
  disconnect (disconnect cm) = disconnect cm.
Proof.
  intros (Hnd & Hpend & Hset) H1 H2.
  rewrite (disconnect_running cm H1 H2). cbv zeta.
  set (cm0 := _setState disconnecting cm).
  assert (Hopen : forall k pc, In (k, pc) (_pendingCommands cm0) ->
                    id pc = k /\ isSettled k cm0 = false).
  { intros k pc Hin. destruct (Hpend k pc Hin) as (Hid & _ & Ho). split; assumption. }
  destruct (rejectEach_spec (_pendingCommands cm0) cm0 eq_refl Hnd Hopen)
    as (Ha & Hb & Hc & Hd & He & Hf & Hg).
  set (cm1 := rejectEach (_pendingCommands cm0) cm0) in *.
  change (_pendingCommands cm0) with (_pendingCommands cm) in *.
  change (settled cm0) with (settled cm) in *.
  change (timers cm0) with (timers cm) in *.
  change (written cm0) with (written cm) in *.
  change (_state cm0) with disconnecting in *.
  change (_transport cm0) with (_transport cm) in *.
  change (_transport (setPending [] cm1)) with (_transport cm1). rewrite Hf.
  assert (Hout : forall k pc, In (k, pc) (_pendingCommands cm) ->
            ~ In k (List.map fst (settled cm)) /\
            ~ In k (filter (fun t => negb (existsb (CommandId_eqb t)
                                             (List.map fst (_pendingCommands cm))))
                      (timers cm))).
  { intros k pc Hin. destruct (Hpend k pc Hin) as (_ & _ & Ho). split.
    - apply isSettled_false_iff. exact Ho.
    - intros Hin'. apply filter_In in Hin'. destruct Hin' as [_ Hne].
      apply negb_true_iff in Hne.
      assert (Hex : existsb (CommandId_eqb k) (List.map fst (_pendingCommands cm)) = true).
      { apply existsb_exists. exists k. split; [|apply CommandId_eqb_refl].
        apply (in_map fst) in Hin. exact Hin. }
      congruence. }
  clearbody cm1. clear Hopen Ha Hg.
  set (cmF := if _transport cm then setPending [] cm1
              else disconnectFinish (setPending [] cm1)).
  assert (F1 : _pendingCommands cmF = []) by (subst cmF; destruct (_transport cm); reflexivity).
  assert (F2 : settled cmF = settled cm1) by (subst cmF; destruct (_transport cm); reflexivity).
  assert (F3 : timers cmF = timers cm1) by (subst cmF; destruct (_transport cm); reflexivity).
  assert (F4 : written cmF = written cm1) by (subst cmF; destruct (_transport cm); reflexivity).
  assert (F5 : _state cmF = if _transport cm then disconnecting else disconnected).
  { subst cmF. destruct (_transport cm); [exact He|reflexivity]. }
  assert (F6 : isConnected cmF = false).
  { unfold isConnected. rewrite F5. destruct (_transport cm); reflexivity. }
  clearbody cmF.
  split; [exact F1|]. split; [rewrite F2; exact Hb|].
  split.
  { intros k pc Hin. split.
    - apply (outcome_rejected_all (settled cm) (_pendingCommands cm) k pc);
        [rewrite F2; exact Hb|apply (Hout k pc Hin)|exact Hin].
    - rewrite F3, Hc. apply (Hout k pc Hin). }
  split; [rewrite F4; exact Hd|]. split; [exact F5|]. split; [exact F6|].
  split.
  - intros now cmd arguments. unfold sendCommand. rewrite F6. reflexivity.
  - unfold disconnect. rewrite F5. destruct (_transport cm); reflexivity.
Qed.

End LifecycleExtras.

Section ConnectionExtras.
Variable parseFloat : text -> Js.number.
Variable numberToString : Js.number -> text.
Import Connection Session SessionFacts Lifecycle LifecycleFacts.

(** X2.  When the transport closes, the manager becomes disconnected and
    tells so, and that is all: the commands in flight stay in the map
    with their timers armed and their futures open, new commands are
    refused and a [disconnect] that follows returns at once.  The handler
    settles nothing: a command that was in flight is rejected with the
    command-timeout error when its timer fires, and since [connect] does
    not empty the map either, a reply handled after a reconnect settles
    the oldest of these commands. *)
Theorem transport_close_leaves_commands_in_flight cm :
  _pendingCommands (onTransportClose cm) = _pendingCommands cm /\
  timers (onTransportClose cm) = timers cm /\
  settled (onTransportClose cm) = settled cm /\
  _state (onTransportClose cm) = disconnected /\
  emitted (onTransportClose cm)
    = emitted cm ++ [ev_state_change (_state cm) disconnected;
                     ev_disconnect (B "Transport closed")] /\
  (forall now cmd arguments,
     sendCommand numberToString now cmd arguments (onTransportClose cm)
     = (onTransportClose cm, inr (ConnectionRequiredError cmd disconnected))) /\
  disconnect (onTransportClose cm) = onTransportClose cm /\
  (forall pc,
     wellFormed cm -> In (id pc, pc) (_pendingCommands cm) -> In (id pc) (timers cm) ->
     outcome (id pc) (onTransportClose cm) = None /\
     outcome (id pc) (commandTimeoutFires pc (onTransportClose cm))
     = Some (Rejected (CommandTimeoutError (command pc) (commandTimeout (_options cm))
                         (args pc)))) /\
  _pendingCommands (connect (onTransportClose cm)) = _pendingCommands cm /\
  (forall r k pc rest,
     wellFormed cm -> _pendingCommands cm = (k, pc) :: rest ->
     outcome k (fst (_handleReply r (connect (onTransportClose cm))))
     = Some (settlementOf r (command pc))).
Proof.
  assert (Hreply : forall r k pc rest,
            wellFormed cm -> _pendingCommands cm = (k, pc) :: rest ->
            outcome k (fst (_handleReply r (connect (onTransportClose cm))))
            = Some (settlementOf r (command pc))).
  { intros r k pc rest Hwf E.
    assert (Hwf' : wellFormed (connect (onTransportClose cm))) by exact Hwf.
    assert (E' : _pendingCommands (connect (onTransportClose cm)) = (k, pc) :: rest)
      by exact E.
    destruct (handleReply_head r _ k pc rest Hwf' E') as (_ & Hs & _).
    apply outcome_new with (l := settled cm); [exact Hs|].
    destruct Hwf as (_ & Hpend & _).
    destruct (Hpend k pc) as (_ & _ & Ho); [rewrite E; left; reflexivity|].
    apply isSettled_false_iff. exact Ho. }
  refine (conj eq_refl (conj eq_refl (conj eq_refl (conj eq_refl (conj _ (conj _
            (conj eq_refl (conj _ (conj eq_refl Hreply))))))))).
  - unfold onTransportClose, _setState, emit. cbn. rewrite <- app_assoc. reflexivity.
  - reflexivity.
  - intros pc H H0 H1. split.
    + destruct H as (_ & Hpend & _). destruct (Hpend _ _ H0) as (_ & _ & Ho).
      unfold outcome. change (settled (onTransportClose cm)) with (settled cm).
      unfold isSettled in Ho. destruct (find _ (settled cm)) as [[k s]|] eqn:E; [|reflexivity].
      apply find_some in E. destruct E as [Hin Hk]. exfalso.
      assert (Ht : existsb (fun e => CommandId_eqb (fst e) (id pc)) (settled cm) = true).
      { apply existsb_exists. exists (k, s). split; assumption. }
      congruence.
    + assert (Hwf : wellFormed (onTransportClose cm)) by exact H.
      destruct (commandTimeoutFires_spec (onTransportClose cm) pc Hwf H0 H1) as (_ & Hs & _).
      apply outcome_new with (l := settled cm); [exact Hs|].
      destruct H as (_ & Hpend & _). destruct (Hpend _ _ H0) as (_ & _ & Ho).
      apply isSettled_false_iff. exact Ho.
Qed.

(** X3.  When the handshake timer fires before a reply has come, [connect]
    fails with the handshake timeout, the state becomes [error] and the
    error is emitted; the reply handler of the handshake stays installed,
    so the next reply is still taken by it, and if that reply is the late
    OK it does not complete the connection. *)
Theorem handshake_timeout_fails_connect cm :
  handshakePromise cm = Pending -> _handshakeTimer cm = true ->
  connectPromise (handshakeTimeoutFires cm) = RejectedWith HandshakeTimeout /\
  _state (handshakeTimeoutFires cm) = error_state /\
  isConnected (handshakeTimeoutFires cm) = false /\
  emitted (handshakeTimeoutFires cm)
    = emitted cm ++ [ev_state_change (_state cm) error_state; ev_error HandshakeTimeout] /\
  _onReplySwapped (handshakeTimeoutFires cm) = _onReplySwapped cm /\
  (forall late,
     isSimpleOK late = true ->
     connectPromise (fst (handshakeOnReply late (handshakeTimeoutFires cm)))
       = RejectedWith HandshakeTimeout /\
     isConnected (fst (handshakeOnReply late (handshakeTimeoutFires cm))) = false /\
     settled (fst (handshakeOnReply late (handshakeTimeoutFires cm))) = settled cm /\
     emitted (fst (handshakeOnReply late (handshakeTimeoutFires cm)))
       = emitted (handshakeTimeoutFires cm)).
Proof.
  intros Hp Ht.
  unfold handshakeTimeoutFires, handshakeOnReply, handshakeResolve, handshakeReject.
  rewrite Ht. cbn. rewrite Hp. cbn.
  repeat split; try reflexivity.
  - rewrite <- app_assoc. reflexivity.
  - rewrite H. reflexivity.
  - rewrite H. reflexivity.
  - rewrite H. reflexivity.
  - rewrite H. reflexivity.
Qed.

(** X4.  A bulk-string reply of length zero reaches the caller as [null],
    exactly like the nil reply: [value?.toString('utf8') || null] turns
    the empty string into [null].  A bulk string of ASCII bytes that is
    not empty is handed over as its text. *)
Theorem empty_bulk_string_is_delivered_as_null cm k pc rest attributes :
  wellFormed cm -> _pendingCommands cm = (k, pc) :: rest ->
  outcome k (fst (_handleReply (Node (blob_string (Some (BufferOf []))) attributes) cm))
    = Some (Resolved js_null) /\
  outcome k (fst (_handleReply (Node (blob_string None) attributes) cm))
    = Some (Resolved js_null) /\
  (forall b, b <> [] -> isAscii b ->
     outcome k (fst (_handleReply (Node (blob_string (Some (BufferOf b))) attributes) cm))
       = Some (Resolved (js_string b))).
Proof.
  intros Hwf E.
  assert (Ho : ~ In k (List.map fst (settled cm))).
  { destruct Hwf as (_ & Hpend & _).
    destruct (Hpend k pc) as (_ & _ & Ho); [rewrite E; left; reflexivity|].
    apply isSettled_false_iff. exact Ho. }
  repeat split; intros;
    match goal with
    | |- outcome _ (fst (_handleReply ?r _)) = _ =>
        destruct (handleReply_head r cm k pc rest Hwf E) as (_ & Hs & _);
        apply outcome_new with (l := settled cm); [|exact Ho]
    end; rewrite Hs; unfold settlementOf; cbn; try reflexivity.
  destruct b; [congruence|reflexivity].
Qed.

End ConnectionExtras.

Module DrainedFacts.
Import Parser.

(** A parser that has read all it was given takes the next chunk as a
    fresh parser does. *)
Lemma feed_drained {S : Type} (parseFloat : text -> Js.number) (opts : ParserOptions S)
    fuel chunk p (s : S) :
  drained p ->
  feed parseFloat opts fuel chunk p s
  = match chunk with
    | [] => Some (p, s)
    | _ :: _ => feed parseFloat opts fuel chunk initial s
    end.
Proof.
  intros (Ho & Hf & Ha). unfold feed.
  destruct chunk as [|c chunk]; [reflexivity|].
  cbn [List.length Nat.eqb initial _offset _buffer _frames _pendingAttributes].
  change ((0 =? 0)%Z && (Js.length [] =? 0)%Z) with true. cbv beta iota.
  destruct p as [b o fs a]. cbn [_offset _buffer _frames _pendingAttributes] in *.
  subst o fs a.
  destruct b as [|b0 b].
  - reflexivity.
  - assert (Hpos : (Js.length (b0 :: b) >? 0)%Z = true).
    { unfold Js.length. cbn [List.length]. apply Z.gtb_lt. lia. }
    assert (Hnz : (Js.length (b0 :: b) =? 0)%Z = false).
    { unfold Js.length. cbn [List.length]. apply Z.eqb_neq. lia. }
    rewrite Hnz, Hpos. cbn [andb]. cbv beta iota zeta.
    cbn [_offset _buffer _frames _pendingAttributes].
    assert (Hsub : Js.subarrayFrom (b0 :: b) (Js.length (b0 :: b)) = []).
    { unfold Js.subarrayFrom, Js.subarray, Js.relIndex.
      assert (Hn : (Js.length (b0 :: b) <? 0)%Z = false).
      { unfold Js.length. apply Z.ltb_ge. lia. }
      rewrite Hn, Z.min_id, Z.sub_diag. reflexivity. }
    rewrite Hsub. reflexivity.
Qed.

End DrainedFacts.

Section UnsolicitedReply.
Variable parseFloat : text -> Js.number.
Variable numberToString : Js.number -> text.
Import Connection Session SessionFacts.


End UnsolicitedReply.

Module TimedFacts.
Import Connection Session SessionFacts Lifecycle LifecycleFacts.

Lemma timeout_wellFormed cm pc :
  wellFormed cm -> In (id pc) (pendingIds cm) -> In (id pc) (timers cm) ->
  _pendingCommands (commandTimeoutFires pc cm) = mapDelete (id pc) (_pendingCommands cm) /\
  settled (commandTimeoutFires pc cm)
    = settled cm ++
      [(id pc, Rejected (CommandTimeoutError (command pc) (commandTimeout (_options cm))
                           (args pc)))] /\
  timers (commandTimeoutFires pc cm)
    = filter (fun t => negb (CommandId_eqb t (id pc))) (timers cm) /\
  _commandIdCounter (commandTimeoutFires pc cm) = _commandIdCounter cm /\
  isConnected (commandTimeoutFires pc cm) = isConnected cm /\
  _transport (commandTimeoutFires pc cm) = _transport cm /\
  _writer (commandTimeoutFires pc cm) = _writer cm /\
  wellFormed (commandTimeoutFires pc cm).
Proof.
  intros (Hnd & Hpend & Hset) Hin Ht.
  unfold pendingIds in Hin. apply in_map_iff in Hin. destruct Hin as ([k pc'] & Hk & Hin).
  cbn in Hk. subst k.
  destruct (Hpend _ _ Hin) as (_ & Hle & Hopen).
  unfold commandTimeoutFires. rewrite (existsb_timer _ _ Ht).
  unfold settle, clearTimeout, setTimers, setPending.
  assert (Hopen' : isSettled (id pc)
            (mkCM (_transport cm) (_parser cm) (_writer cm) (_state cm)
               (mapDelete (id pc) (_pendingCommands cm)) (_commandIdCounter cm)
               (_options cm) (_isHandshakeComplete cm) (_onReplySwapped cm)
               (_handshakeTimer cm) (handshakePromise cm) (connectPromise cm)
               (written cm) (emitted cm) (settled cm)
               (filter (fun t => negb (CommandId_eqb t (id pc))) (timers cm))) = false)
    by exact Hopen.
  cbn -[mapDelete CommandId_eqb existsb filter isSettled]. rewrite Hopen'.
  cbn -[mapDelete CommandId_eqb existsb filter isSettled].
  repeat split.
  - unfold pendingIds. cbn -[mapDelete]. rewrite map_map. unfold mapDelete.
    apply NoDup_map_filter. rewrite <- map_map. exact Hnd.
  - cbn -[mapDelete] in H. apply filter_In in H. apply (Hpend k pc0). tauto.
  - cbn -[mapDelete] in H. apply filter_In in H.
    destruct (Hpend k pc0) as (_ & ? & _); tauto.
  - cbn -[mapDelete] in H. apply filter_In in H. destruct H as [H Hne].
    destruct (Hpend k pc0 H) as (_ & _ & Ho).
    apply isSettled_false_iff. cbn. rewrite map_app. cbn. intros Hin'.
    apply in_app_or in Hin'. destruct Hin' as [Hin'|[Hin'|[]]].
    + apply isSettled_false_iff in Ho. tauto.
    + cbn in Hne. rewrite <- Hin', CommandId_eqb_refl in Hne. discriminate.
  - intros e He. cbn in He. apply in_app_or in He. destruct He as [He|[<-|[]]].
    + apply Hset. exact He.
    + cbn. exact Hle.
Qed.

Lemma timeout_idle cm pc :
  ~ In (id pc) (timers cm) -> commandTimeoutFires pc cm = cm.
Proof.
  intros H. unfold commandTimeoutFires.
  destruct (existsb (CommandId_eqb (id pc)) (timers cm)) eqn:E; [|reflexivity].
  apply existsb_exists in E. destruct E as (x & Hx & E).
  apply CommandId_eqb_eq in E. subst. tauto.
Qed.

Lemma handleReply_timers r cm k pc rest :
  wellFormed cm -> _pendingCommands cm = (k, pc) :: rest ->
  timers (fst (_handleReply r cm))
  = filter (fun t => negb (CommandId_eqb t k)) (timers cm).
Proof.
  intros (Hnd & Hp & Hs) E.
  assert (Hk : id pc = k /\ counter k <= _commandIdCounter cm /\ isSettled k cm = false)
    by (apply Hp; rewrite E; left; reflexivity).
  destruct Hk as (Hid & _ & Hopen).
  unfold _handleReply. rewrite E.
  unfold isSettled in Hopen.
  destruct (_transformResponse r (command pc)) as [v|e]; cbn [fst snd];
    unfold resolvePending, rejectPending, settle, isSettled, clearTimeout,
      setTimers, setPending, emit;
    cbn -[mapDelete CommandId_eqb existsb filter];
    rewrite Hid, Hopen; reflexivity.
Qed.

Section WithBuiltins.
Variable numberToString : Js.number -> text.

Lemma sendCommand_timers now cmd arguments cm :
  isConnected cm = true -> _transport cm = true -> _writer cm = true ->
  timers (fst (sendCommand numberToString now cmd arguments cm))
  = timers cm ++ [mkCommandId (_commandIdCounter cm + 1) now].
Proof.
  intros Hc Ht Hw. unfold sendCommand. rewrite Hc, Ht, Hw. reflexivity.
Qed.

Lemma NoDup_filter_head (l : list CommandId) i :
  NoDup l -> In i l ->
  Permutation (i :: filter (fun t => negb (CommandId_eqb t i)) l) l.
Proof.
  induction l as [|a l IH]; cbn; intros Hnd Hin; [tauto|].
  apply NoDup_cons_iff in Hnd. destruct Hnd as [Ha Hnd].
  destruct Hin as [->|Hin].
  - rewrite CommandId_eqb_refl. cbn. constructor.
    assert (E : filter (fun t => negb (CommandId_eqb t i)) l = l).
    { clear IH Hnd. induction l as [|b l IHl]; cbn; [reflexivity|].
      destruct (CommandId_eqb b i) eqn:Eb.
      - apply CommandId_eqb_eq in Eb. subst. exfalso. apply Ha. left. reflexivity.
      - cbn. f_equal. apply IHl. intros H. apply Ha. right. exact H. }
    rewrite E. apply Permutation_refl.
  - destruct (CommandId_eqb a i) eqn:Ea.
    + apply CommandId_eqb_eq in Ea. subst. tauto.
    + cbn. eapply perm_trans; [apply perm_swap|]. constructor. apply IH; assumption.
Qed.

Lemma NoDup_counter_ids (l : list CommandId) : NoDup (List.map counter l) -> NoDup l.
Proof.
  induction l as [|a l IH]; cbn; intros H; [constructor|].
  apply NoDup_cons_iff in H. destruct H as [Ha H]. constructor; [|auto].
  intros Hin. apply Ha. apply in_map. exact Hin.
Qed.

(** One step of a run. *)
Lemma step_inv cm ev :
  Timed.inv cm -> isConnected cm = true -> _transport cm = true -> _writer cm = true ->
  Timed.inv (Timed.step numberToString cm ev) /\
  isConnected (Timed.step numberToString cm ev) = true /\
  _transport (Timed.step numberToString cm ev) = true /\
  _writer (Timed.step numberToString cm ev) = true /\
  _commandIdCounter (Timed.step numberToString cm ev)
    = _commandIdCounter cm + Z.of_nat (List.length (submittedIds 0 (Timed.submissions [ev]))) /\
  Permutation
    (List.map fst (settled (Timed.step numberToString cm ev))
       ++ pendingIds (Timed.step numberToString cm ev))
    (List.map fst (settled cm) ++ pendingIds cm
       ++ submittedIds (_commandIdCounter cm) (Timed.submissions [ev])).
Proof.
  intros [Hwf Htm] Hc Ht Hw.
  destruct ev as [[now cmd arguments|r|p]|pc]; cbn [Timed.step Session.step Timed.submissions
                                                      submittedIds List.length].
  - destruct (sendCommand_connected numberToString now cmd arguments cm Hwf Hc Ht Hw)
      as (_ & Hp & Hs & Hn & Hc' & Ht' & Hw' & Hwf').
    refine (conj (conj Hwf' _) (conj Hc' (conj Ht' (conj Hw' (conj _ _))))).
    + rewrite sendCommand_timers by assumption. unfold pendingIds. rewrite Hp, map_app, Htm.
      reflexivity.
    + rewrite Hn. cbn. lia.
    + rewrite Hs. unfold pendingIds. rewrite Hp, map_app. cbn. apply Permutation_refl.
  - destruct (_pendingCommands cm) as [|[k pc] rest] eqn:E.
    + rewrite handleReply_empty by assumption. cbn [fst]. rewrite !app_nil_r.
      refine (conj (conj Hwf Htm) (conj Hc (conj Ht (conj Hw (conj _ _))))); [cbn; lia|].
      apply Permutation_refl.
    + destruct (handleReply_head r cm k pc rest Hwf E) as (_ & Hs & Hp & Hn & Hc' & Ht' & Hw').
      refine (conj (conj (handleReply_wellFormed r cm Hwf) _)
                (conj _ (conj _ (conj _ (conj _ _))))); try congruence.
      * rewrite (handleReply_timers r cm k pc rest Hwf E), Htm.
        unfold pendingIds. rewrite filter_ids_mapDelete, Hp, E.
        f_equal. apply mapDelete_head. destruct Hwf as (Hnd & _).
        unfold pendingIds in Hnd. rewrite E in Hnd. exact Hnd.
      * rewrite Hn. cbn. lia.
      * rewrite Hs, app_nil_r. unfold pendingIds. rewrite Hp, E, map_app. cbn.
        rewrite <- app_assoc. apply Permutation_refl.
  - cbn [_handlePush fst]. rewrite !app_nil_r.
    refine (conj (conj Hwf Htm) (conj Hc (conj Ht (conj Hw (conj _ _))))); [cbn; lia|].
    apply Permutation_refl.
  - rewrite !app_nil_r.
    destruct (existsb (CommandId_eqb (id pc)) (timers cm)) eqn:Ex.
    + assert (Hin : In (id pc) (timers cm)).
      { apply existsb_exists in Ex. destruct Ex as (x & Hx & Ex).
        apply CommandId_eqb_eq in Ex. subst x. exact Hx. }
      assert (Hin' : In (id pc) (pendingIds cm)) by (rewrite <- Htm; exact Hin).
      destruct (timeout_wellFormed cm pc Hwf Hin' Hin)
        as (Hp & Hs & Htm' & Hn & Hc' & Ht' & Hw' & Hwf').
      refine (conj (conj Hwf' _) (conj _ (conj _ (conj _ (conj _ _))))); try congruence.
      * rewrite Htm', Htm. unfold pendingIds. rewrite Hp. apply filter_ids_mapDelete.
      * rewrite Hn. cbn. lia.
      * rewrite Hs, map_app. cbn. rewrite <- app_assoc. apply Permutation_app_head.
        unfold pendingIds at 1. rewrite Hp, <- filter_ids_mapDelete.
        apply NoDup_filter_head; [|exact Hin'].
        apply NoDup_counter_ids. destruct Hwf as (Hnd & _). exact Hnd.
    + assert (Eidle : commandTimeoutFires pc cm = cm)
        by (unfold commandTimeoutFires; rewrite Ex; reflexivity).
      rewrite Eidle.
      refine (conj (conj Hwf Htm) (conj Hc (conj Ht (conj Hw (conj _ _))))); [cbn; lia|].
      apply Permutation_refl.
Qed.

Lemma submittedIds_length c c' t :
  List.length (submittedIds c t) = List.length (submittedIds c' t).
Proof.
  revert c c'. induction t as [|ev t IH]; intros c c'; cbn; [reflexivity|].
  destruct ev; cbn; auto.
Qed.

Lemma submittedIds_app c t1 t2 :
  submittedIds c (t1 ++ t2)
  = submittedIds c t1 ++ submittedIds (c + Z.of_nat (List.length (submittedIds 0 t1))) t2.
Proof.
  revert c. induction t1 as [|ev t1 IH]; intros c; cbn [app submittedIds List.length].
  - rewrite Z.add_0_r. reflexivity.
  - destruct ev as [now cmd arguments|r|p]; cbn [app submittedIds List.length]; rewrite IH.
    + rewrite (submittedIds_length (0 + 1) 0). cbn [app]. f_equal. f_equal. f_equal. lia.
    + reflexivity.
    + reflexivity.
Qed.

Lemma run_inv trace : forall cm,
  Timed.inv cm -> isConnected cm = true -> _transport cm = true -> _writer cm = true ->
  Timed.inv (Timed.run numberToString trace cm) /\
  Permutation
    (List.map fst (settled (Timed.run numberToString trace cm))
       ++ pendingIds (Timed.run numberToString trace cm))
    (List.map fst (settled cm) ++ pendingIds cm
       ++ submittedIds (_commandIdCounter cm) (Timed.submissions trace)).
Proof.
  induction trace as [|ev trace IH]; intros cm Hinv Hc Ht Hw.
  - cbn. rewrite app_nil_r. split; [exact Hinv|apply Permutation_refl].
  - cbn [Timed.run fold_left].
    change (fold_left (Timed.step numberToString) trace ?x)
      with (Timed.run numberToString trace x).
    destruct (step_inv cm ev Hinv Hc Ht Hw) as (Hinv' & Hc' & Ht' & Hw' & Hn & Hperm).
    destruct (IH _ Hinv' Hc' Ht' Hw') as (Hinv'' & Hperm'').
    split; [exact Hinv''|].
    eapply perm_trans; [exact Hperm''|].
    rewrite Hn.
    assert (Es : Timed.submissions (ev :: trace)
                 = Timed.submissions [ev] ++ Timed.submissions trace)
      by (destruct ev; reflexivity).
    rewrite Es.
    rewrite submittedIds_app, !app_assoc.
    apply Permutation_app_tail. rewrite <- !app_assoc. exact Hperm.
Qed.

End WithBuiltins.
End TimedFacts.

Module TimedFacts2.
Import Connection Session SessionFacts TimedFacts.

Lemma submittedIds_counters t : forall c,
  Forall (fun i => c < counter i) (submittedIds c t) /\
  NoDup (List.map counter (submittedIds c t)).
Proof.
  induction t as [|ev t IH]; intros c; cbn; [split; constructor|].
  destruct ev as [now cmd arguments|r|p]; try apply IH.
  destruct (IH (c + 1)) as [Hall Hnd]. cbn. split.
  - constructor; [cbn; lia|]. eapply Forall_impl; [|exact Hall]. cbn. intros; lia.
  - constructor; [|exact Hnd]. intros Hin. apply in_map_iff in Hin.
    destruct Hin as (i & Hi & Hin). rewrite Forall_forall in Hall.
    specialize (Hall i Hin). cbn in Hall. lia.
Qed.

(** On a well-formed manager whose settled promises are distinct, the
    settled ids, the ids in flight and the ids a trace hands out are all
    different. *)
Lemma ids_distinct cm trace :
  wellFormed cm -> NoDup (List.map fst (settled cm)) ->
  NoDup (List.map fst (settled cm) ++ pendingIds cm
           ++ submittedIds (_commandIdCounter cm) trace).
Proof.
  intros (Hnd & Hpend & Hset) Hs.
  destruct (submittedIds_counters trace (_commandIdCounter cm)) as [Hall Hsub].
  rewrite Forall_forall in Hall.
  assert (Hpc : forall i, In i (pendingIds cm) ->
                  counter i <= _commandIdCounter cm /\ ~ In i (List.map fst (settled cm))).
  { intros i Hi. unfold pendingIds in Hi. apply in_map_iff in Hi.
    destruct Hi as ([k pc] & Hk & Hin). cbn in Hk. subst k.
    destruct (Hpend i pc Hin) as (_ & Hle & Ho). split; [exact Hle|].
    apply isSettled_false_iff. exact Ho. }
  apply NoDup_app; [exact Hs| |].
  - apply NoDup_app; [apply NoDup_counter_ids; exact Hnd|apply NoDup_counter_ids; exact Hsub|].
    intros i Hi Hi'. destruct (Hpc i Hi) as [Hle _]. specialize (Hall i Hi'). cbn in Hall. lia.
  - intros i Hi Hi'. apply in_app_or in Hi'. destruct Hi' as [Hi'|Hi'].
    + destruct (Hpc i Hi') as [_ Hn]. tauto.
    + specialize (Hall i Hi'). cbn in Hall.
      apply in_map_iff in Hi. destruct Hi as (e & He & Hin). specialize (Hset e Hin).
      rewrite He in Hset. lia.
Qed.

End TimedFacts2.

Section TimedExtras.
Variable numberToString : Js.number -> text.
Import Connection Session SessionFacts TimedFacts TimedFacts2.

(** X6.  Along every run of submissions, replies, push frames and command
    timers that fire, a timer is armed for exactly the commands in
    flight, in the order of the map: no timer outlives its command and no
    command in flight is without its timer. *)
Theorem timers_are_armed_for_commands_in_flight cm trace :
  wellFormed cm -> timers cm = pendingIds cm ->
  isConnected cm = true -> _transport cm = true -> _writer cm = true ->
  timers (Timed.run numberToString trace cm) = pendingIds (Timed.run numberToString trace cm) /\
  Lifecycle.pendingCommandCount (Timed.run numberToString trace cm)
  = Z.of_nat (List.length (timers (Timed.run numberToString trace cm))).
Proof.
  intros Hwf Htm Hc Ht Hw.
  destruct (run_inv numberToString trace cm (conj Hwf Htm) Hc Ht Hw) as ((_ & Htm') & _).
  split; [exact Htm'|].
  rewrite Htm'. unfold Lifecycle.pendingCommandCount, pendingIds. rewrite length_map.
  reflexivity.
Qed.

(** X7.  Along every such run no command is lost and none is settled twice:
    the commands settled so far together with the commands in flight are,
    up to order, the commands there were at the start and the commands
    submitted since; and, when the promises settled at the start were
    distinct, these ids are all different. *)
Theorem every_command_is_in_flight_or_settled_once cm trace :
  wellFormed cm -> timers cm = pendingIds cm ->
  isConnected cm = true -> _transport cm = true -> _writer cm = true ->
  Permutation
    (List.map fst (settled (Timed.run numberToString trace cm))
       ++ pendingIds (Timed.run numberToString trace cm))
    (List.map fst (settled cm) ++ pendingIds cm
       ++ submittedIds (_commandIdCounter cm) (Timed.submissions trace)) /\
  (NoDup (List.map fst (settled cm)) ->
   NoDup (List.map fst (settled (Timed.run numberToString trace cm))
            ++ pendingIds (Timed.run numberToString trace cm))).
Proof.
  intros Hwf Htm Hc Ht Hw.
  destruct (run_inv numberToString trace cm (conj Hwf Htm) Hc Ht Hw) as (_ & Hperm).
  split; [exact Hperm|].
  intros Hs. apply (Permutation_NoDup (Permutation_sym Hperm)).
  apply ids_distinct; assumption.
Qed.

End TimedExtras.

Module CommandFacts.
Import Commands.

Section Registry.
Context {Executor : Type}.

Lemma mapGet_mapSet k k' (v : Executor) m :
  mapGet Executor k' (mapSet Executor k v m)
  = if Js.text_eqb k k' then Some v else mapGet Executor k' m.
Proof.
  induction m as [|[k0 v0] m IH]; cbn.
  - reflexivity.
  - destruct (Js.text_eqb k0 k) eqn:E0; cbn.
    + apply text_eqb_eq in E0. subst k0. destruct (Js.text_eqb k k'); reflexivity.
    + destruct (Js.text_eqb k0 k') eqn:E1.
      * apply text_eqb_eq in E1. subst k0.
        destruct (Js.text_eqb k k') eqn:E2; [|reflexivity].
        apply text_eqb_eq in E2. subst k. rewrite text_eqb_refl in E0. discriminate.
      * exact IH.
Qed.

Lemma lookup_register name name' (e : Executor) r :
  lookup Executor name' (register Executor name e r)
  = if Js.text_eqb (Js.toLowerCase name) (Js.toLowerCase name') then Some e
    else lookup Executor name' r.
Proof. unfold lookup, register. apply mapGet_mapSet. Qed.

End Registry.
End CommandFacts.

Section CommandExtras.
Variable numberToString : Js.number -> text.
Import Commands CommandFacts.

(** X8.  The registry looks a command up by its lower-cased name.  For names
    of ASCII characters: an executor registered under a name is found
    under every spelling of that name that differs in case only, the
    executor registered last wins, and names that differ otherwise are
    not affected. *)
Theorem registry_lookup_ignores_case (Executor : Type) name name' (e : Executor) r :
  isAscii name -> isAscii name' ->
  (Js.toLowerCase name' = Js.toLowerCase name ->
   lookup Executor name' (register Executor name e r) = Some e /\
   execute Executor name' (register Executor name e r) = inl e) /\
  (Js.toLowerCase name' <> Js.toLowerCase name ->
   lookup Executor name' (register Executor name e r) = lookup Executor name' r /\
   execute Executor name' (register Executor name e r) = execute Executor name' r).
Proof.
  intros _ _. split; intros H; unfold execute; rewrite lookup_register.
  - rewrite H, text_eqb_refl. split; reflexivity.
  - rewrite text_eqb_neq by congruence. split; reflexivity.
Qed.

(** X9.  The registry a client is built with knows six commands - ping, echo,
    get, set, del and exists, in any mix of upper and lower case - and
    answers each with the executor registered for it; for every other
    name of ASCII characters [execute] throws [Unknown command: <name>],
    with the name as the caller spelled it. *)
Theorem basic_registry_knows_six_commands (Executor : Type)
    (b : BasicExecutors Executor) command :
  isAscii command ->
  execute Executor command (createCommandRegistry Executor b)
  = if Js.text_eqb (Js.toLowerCase command) (B "ping") then inl (onPing Executor b)
    else if Js.text_eqb (Js.toLowerCase command) (B "echo") then inl (onEcho Executor b)
    else if Js.text_eqb (Js.toLowerCase command) (B "get") then inl (onGet Executor b)
    else if Js.text_eqb (Js.toLowerCase command) (B "set") then inl (onSet Executor b)
    else if Js.text_eqb (Js.toLowerCase command) (B "del") then inl (onDel Executor b)
    else if Js.text_eqb (Js.toLowerCase command) (B "exists") then inl (onExists Executor b)
    else inr (Error (B "Unknown command: " ++ command)).
Proof.
  intros _.
  unfold execute, createCommandRegistry, _registerBasicCommands. cbv zeta.
  rewrite !lookup_register.
  change (Js.toLowerCase (B "ping")) with (B "ping").
  change (Js.toLowerCase (B "echo")) with (B "echo").
  change (Js.toLowerCase (B "get")) with (B "get").
  change (Js.toLowerCase (B "set")) with (B "set").
  change (Js.toLowerCase (B "del")) with (B "del").
  change (Js.toLowerCase (B "exists")) with (B "exists").
  assert (Hsym : forall a c, Js.text_eqb a c = Js.text_eqb c a).
  { intros a c. destruct (Js.text_eqb c a) eqn:E.
    - apply text_eqb_eq in E. subst. apply text_eqb_refl.
    - apply text_eqb_neq. intros ->. rewrite text_eqb_refl in E. discriminate. }
  rewrite !(Hsym _ (Js.toLowerCase command)).
  destruct (Js.text_eqb (Js.toLowerCase command) (B "ping")) eqn:E1.
  { apply text_eqb_eq in E1. rewrite E1. reflexivity. }
  destruct (Js.text_eqb (Js.toLowerCase command) (B "echo")) eqn:E2.
  { apply text_eqb_eq in E2. rewrite E2. reflexivity. }
  destruct (Js.text_eqb (Js.toLowerCase command) (B "get")) eqn:E3.
  { apply text_eqb_eq in E3. rewrite E3. reflexivity. }
  destruct (Js.text_eqb (Js.toLowerCase command) (B "set")) eqn:E4.
  { apply text_eqb_eq in E4. rewrite E4. reflexivity. }
  destruct (Js.text_eqb (Js.toLowerCase command) (B "del")) eqn:E5.
  { apply text_eqb_eq in E5. rewrite E5. reflexivity. }
  destruct (Js.text_eqb (Js.toLowerCase command) (B "exists")) eqn:E6; reflexivity.
Qed.

End CommandExtras.

Section BasicCommandExtras.
Variable numberToString : Js.number -> text.
Import Connection Session SessionFacts Commands.

Lemma sendCommand_sends cm now name arguments :
  wellFormed cm -> isConnected cm = true -> _transport cm = true -> _writer cm = true ->
  sends numberToString cm now name arguments (sendCommand numberToString now name arguments cm).
Proof.
  intros Hwf Hc Ht Hw.
  destruct (sendCommand_connected numberToString now name arguments cm Hwf Hc Ht Hw)
    as (Hid & Hp & _).
  split; [|split; assumption].
  unfold sendCommand. rewrite Hc, Ht, Hw. reflexivity.
Qed.

(** X10.  The basic commands on a connected manager.  [del] and [exists]
    without a key fail before anything is sent and leave the manager as
    it is; with keys they send DEL or EXISTS with the keys in order.
    [ping] sends its message only when it is not the empty string, [get]
    sends the key and nothing of its options, and [set] sends key and
    value first, alone when no option is set. *)
Theorem basic_commands_on_the_wire cm now :
  wellFormed cm -> isConnected cm = true -> _transport cm = true -> _writer cm = true ->
  del numberToString now [] cm
    = (cm, inr (Plain (Error (B "DEL requires at least one key")))) /\
  exists_ numberToString now [] cm
    = (cm, inr (Plain (Error (B "EXISTS requires at least one key")))) /\
  (forall k keys,
     sends numberToString cm now (B "DEL") (List.map ArgString (k :: keys))
       (del numberToString now (k :: keys) cm) /\
     sends numberToString cm now (B "EXISTS") (List.map ArgString (k :: keys))
       (exists_ numberToString now (k :: keys) cm)) /\
  sends numberToString cm now (B "PING") [] (ping numberToString now None cm) /\
  sends numberToString cm now (B "PING") [] (ping numberToString now (Some []) cm) /\
  (forall c m, sends numberToString cm now (B "PING") [ArgString (c :: m)]
                 (ping numberToString now (Some (c :: m)) cm)) /\
  (forall m, sends numberToString cm now (B "ECHO") [ArgString m] (echo numberToString now m cm)) /\
  (forall key options,
     sends numberToString cm now (B "GET") [ArgString key] (get numberToString now key options cm)) /\
  (forall key value,
     sends numberToString cm now (B "SET") [ArgString key; ArgString value]
       (set numberToString now key value None cm) /\
     sends numberToString cm now (B "SET") [ArgString key; ArgString value]
       (set numberToString now key value
          (Some (mkSetOptions None None None None None None None None)) cm)) /\
  (forall key value options,
     exists more,
       sends numberToString cm now (B "SET") (ArgString key :: ArgString value :: List.map ArgString more)
         (set numberToString now key value options cm)).
Proof.
  intros Hwf Hc Ht Hw.
  do 9 (split; [try reflexivity; intros; repeat split;
                 try (apply (sendCommand_sends cm now _ _ Hwf Hc Ht Hw))|]).
  intros key value options.
  exists (skipn 2 (_buildSetArgs numberToString key value options)).
  apply (sendCommand_sends cm now _ _ Hwf Hc Ht Hw).
Qed.

End BasicCommandExtras.

Module WriterFacts.
Import JsFacts LeafFacts.

(** Induction over values: a property holds of every value as soon as
    it holds of a value whenever it holds of the nodes directly inside. *)
Lemma Resp3_induction (P : Resp3 -> Prop) :
  (forall v, (forall c, In c (children v) -> P c) -> P v) -> forall v, P v.
Proof.
  intros H. fix IH 1. intros v. apply H. destruct v as [body attrs].
  assert (Hl : forall l : list Resp3, (forall x, In x l -> P x) -> forall c, In c l -> P c)
    by auto.
  intros c Hin. cbn [children] in Hin. apply in_app_or in Hin. destruct Hin as [Hin|Hin].
  - destruct attrs as [es|]; [|destruct Hin].
    induction es as [|[k [v|]] es IHes]; cbn in Hin.
    + destruct Hin.
    + destruct Hin as [<-|[<-|Hin]]; [apply IH|apply IH|apply IHes; exact Hin].
    + destruct Hin as [<-|Hin]; [apply IH|apply IHes; exact Hin].
  - destruct body as [| | | | | | |  | | |[l|]|[es|]|[l|]|l]; try destruct Hin.
    + induction l as [|x l IHl]; [destruct Hin|].
      destruct Hin as [<-|Hin]; [apply IH|apply IHl; exact Hin].
    + induction es as [|[k [v|]] es IHes]; cbn in Hin.
      * destruct Hin.
      * destruct Hin as [<-|[<-|Hin]]; [apply IH|apply IH|apply IHes; exact Hin].
      * destruct Hin as [<-|Hin]; [apply IH|apply IHes; exact Hin].
    + induction l as [|x l IHl]; [destruct Hin|].
      destruct Hin as [<-|Hin]; [apply IH|apply IHl; exact Hin].
    + induction l as [|x l IHl]; [destruct Hin|].
      destruct Hin as [<-|Hin]; [apply IH|apply IHl; exact Hin].
Qed.


Section Appends.
Variable numberToString : Js.number -> text.
Local Notation "'write'" := (Writer.writeValue numberToString).

Lemma writeEach_app (l : list Resp3) :
  (forall x, In x l -> forall w, write x w = w ++ write x []) ->
  forall w, Writer.writeEach write l w = w ++ encodeAll numberToString l.
Proof.
  induction l as [|x l IH]; intros Hl w; cbn [Writer.writeEach].
  - unfold encodeAll. cbn. rewrite app_nil_r. reflexivity.
  - rewrite IH by (intros y Hy; apply Hl; right; exact Hy).
    rewrite (Hl x (or_introl eq_refl) w). unfold encodeAll. cbn [List.map List.concat].
    rewrite <- app_assoc. reflexivity.
Qed.

Lemma writeEntries_app (l : list (Resp3 * option Resp3)) :
  (forall x, In x (flat_map entryChildren l) -> forall w, write x w = w ++ write x []) ->
  forall w, Writer.writeEntries write l w = w ++ encodeAll numberToString (flattenEntries l).
Proof.
  induction l as [|[k [v|]] l IH]; intros Hl w; cbn [Writer.writeEntries flattenEntries].
  - unfold encodeAll. cbn. rewrite app_nil_r. reflexivity.
  - rewrite IH by (intros y Hy; apply Hl; cbn; right; right; exact Hy).
    rewrite (Hl v (or_intror (or_introl eq_refl)) (write k w)).
    rewrite (Hl k (or_introl eq_refl) w). unfold encodeAll. cbn [List.map List.concat].
    rewrite <- !app_assoc. reflexivity.
  - rewrite IH by (intros y Hy; apply Hl; cbn; right; exact Hy).
    rewrite (Hl k (or_introl eq_refl) w). unfold encodeAll. cbn [List.map List.concat].
    unfold plain. cbn [Writer.writeValue].
    unfold Writer.writeNull, Writer.andThen, Writer.writeByte, Writer.writeCRLF.
    cbn [app]. rewrite <- !app_assoc. reflexivity.
Qed.

(** Writing a value appends its encoding to what is written already. *)
Lemma writeValue_app : forall v w, write v w = w ++ write v [].
Proof.
  induction v as [[body attrs] IH] using Resp3_induction. intros w.
  assert (Hattrs :
    forall w,
      match attrs with
      | Some (e :: es) =>
          Writer.writeEntries write (e :: es)
            ((Writer.andThen (Writer.andThen (Writer.writeByte "|"%char)
                (Writer.writeString (Writer.sizeToString (e :: es)))) Writer.writeCRLF) w)
      | _ => w
      end
      = w ++ match attrs with
             | Some (e :: es) =>
                 "|"%char :: Writer.sizeToString (e :: es) ++ CRLF
                   ++ encodeAll numberToString (flattenEntries (e :: es))
             | _ => []
             end).
  { intros w0. destruct attrs as [[|e es]|]; try (rewrite app_nil_r; reflexivity).
    rewrite writeEntries_app
      by (intros x Hx; apply IH; cbn [children]; apply in_or_app; left; exact Hx).
    unfold Writer.andThen, Writer.writeByte, Writer.writeString, Writer.writeBytes,
      Writer.writeCRLF, CRLF. rewrite <- !app_assoc. reflexivity. }
  assert (Hbody : forall l, (l = match body with
                                  | array (Some l) | set (Some l) | push l => l
                                  | _ => [] end) ->
                  forall x, In x l -> forall w, write x w = w ++ write x []).
  { intros l -> x Hx. apply IH. cbn [children]. apply in_or_app. right.
    destruct body as [| | | | | | |  | | |[l|]|[es|]|[l|]|l]; try destruct Hx; exact Hx. }
  assert (Hmap : forall es, body = map (Some es) ->
                 forall x, In x (flat_map entryChildren es) ->
                 forall w, write x w = w ++ write x []).
  { intros es -> x Hx. apply IH. cbn [children]. apply in_or_app. right. exact Hx. }
  cbn [Writer.writeValue]. rewrite (Hattrs w), (Hattrs []). cbn [app].
  set (a := match attrs with Some (e :: es) => _ | _ => [] end).
  destruct body as [value|code message|value|value|value|value| |value|code message
                    |format value|[l|]|[es|]|[l|]|l];
    try (unfold Writer.writeSimpleString, Writer.writeError, Writer.writeInteger,
           Writer.writeDouble, Writer.writeBigNumber, Writer.writeBoolean, Writer.writeNull,
           Writer.writeBlobString, Writer.writeBlobError, Writer.writeVerbatimString,
           Writer.andThen, Writer.writeByte, Writer.writeString, Writer.writeBytes,
           Writer.writeCRLF;
         rewrite <- ?app_assoc; reflexivity).
  - unfold Writer.writeDouble, Writer.andThen, Writer.writeByte, Writer.writeString,
      Writer.writeBytes, Writer.writeCRLF.
    destruct (Js.isFinite value); [rewrite <- !app_assoc; reflexivity|].
    destruct (Js.isNaN value); [rewrite <- !app_assoc; reflexivity|].
    destruct value as [| [|] | |]; rewrite <- !app_assoc; reflexivity.
  - unfold Writer.writeBlobString, Writer.andThen, Writer.writeByte, Writer.writeString,
      Writer.writeBytes, Writer.writeCRLF.
    destruct value as [[b|s0]|]; rewrite <- !app_assoc; reflexivity.
  - rewrite !(writeEach_app l (Hbody l eq_refl)).
    unfold Writer.andThen, Writer.writeByte, Writer.writeString, Writer.writeBytes,
      Writer.writeCRLF. rewrite <- !app_assoc. reflexivity.
  - rewrite !(writeEntries_app es (Hmap es eq_refl)).
    unfold Writer.andThen, Writer.writeByte, Writer.writeString, Writer.writeBytes,
      Writer.writeCRLF. rewrite <- !app_assoc. reflexivity.
  - rewrite !(writeEach_app l (Hbody l eq_refl)).
    unfold Writer.andThen, Writer.writeByte, Writer.writeString, Writer.writeBytes,
      Writer.writeCRLF. rewrite <- !app_assoc. reflexivity.
  - rewrite !(writeEach_app l (Hbody l eq_refl)).
    unfold Writer.andThen, Writer.writeByte, Writer.writeString, Writer.writeBytes,
      Writer.writeCRLF. rewrite <- !app_assoc. reflexivity.
Qed.

End Appends.
End WriterFacts.

Module FeedFacts.
Import Parser JsFacts LeafFacts AggregateFacts.

Section Feed.
Context {S : Type} (parseFloat : text -> Js.number) (opts : ParserOptions S).
Hypothesis buffers : decodeBlobAsString opts = false.
Variable numberToString : Js.number -> text.

(** Feeding a fresh parser the encoding of a flat value: the value is
    parsed and handed to [handleValue], and the loop ends at the end of
    the buffer. *)
Lemma feed_flat v (s : S) :
  flat parseFloat numberToString v ->
  exists fuel0, forall fuel, (fuel0 <= fuel)%nat ->
    feed parseFloat opts fuel (Writer.encode numberToString v) initial s
    = match handleValue opts v
              (mkParser (Writer.encode numberToString v)
                        (Js.length (Writer.encode numberToString v)) [] None) s with
      | (s', None) =>
          Some (mkParser (Writer.encode numberToString v)
                         (Js.length (Writer.encode numberToString v)) [] None, s')
      | (s', Some e) => Some (initial, reportError opts e s')
      end.
Proof.
  intros Hflat.
  destruct (parse_flat parseFloat opts buffers numberToString v Hflat) as [fuel0 Hp].
  exists (Datatypes.S (Datatypes.S fuel0)). intros fuel Hfuel.
  destruct fuel as [|[|fuel]]; [lia|lia|].
  unfold Writer.encode, Writer.reset in *. unfold feed.
  pose proof (Hp fuel0 (Nat.le_refl _)) as Hne.
  destruct (Writer.writeValue numberToString v []) as [|c bytes] eqn:Ebytes;
    [cbn in Hne; discriminate Hne|]. clear Hne.
  cbn [List.length Nat.eqb initial _offset _buffer _frames _pendingAttributes].
  change ((0 =? 0)%Z && (Js.length [] =? 0)%Z) with true. cbv beta iota.
  cbn [feedLoop]. rewrite (Hp (Datatypes.S fuel)) by lia.
  destruct (handleValue opts v (mkParser (c :: bytes) (Js.length (c :: bytes)) [] None) s)
    as [s' [e|]]; [reflexivity|].
  assert (Hend : parseOne parseFloat opts fuel
                   (mkParser (c :: bytes) (Js.length (c :: bytes)) [] None)
                 = (Normal Undefined, mkParser (c :: bytes) (Js.length (c :: bytes)) [] None)).
  { unfold parseOne, parseOneWith. run_monad. rewrite Z.leb_refl. reflexivity. }
  cbn [feedLoop]. rewrite Hend. reflexivity.
Qed.

End Feed.
End FeedFacts.

Ltac unfold_header :=
  unfold Writer.andThen, Writer.writeByte, Writer.writeString, Writer.writeBytes,
    Writer.writeCRLF, CRLF; cbn [app]; rewrite <- ?app_assoc; reflexivity.

Section WriterExtras.
Variable parseFloat : text -> Js.number.
Variable numberToString : Js.number -> text.
Import WriterFacts.

(** X11.  The encoder is compositional.  Writing a value appends its encoding
    to what is written already; the encoding of an array, a set or a push
    is the header with the number of elements followed by the encodings of
    the elements; that of a map is the header with the number of entries
    followed by the encodings of each key and value (of null for a value
    that is [undefined]); and non-empty attributes come first, encoded the
    same way, before the value itself. *)
Theorem encoding_is_compositional :
  (forall v w, Writer.writeValue numberToString v w = w ++ Writer.encode numberToString v) /\
  (forall vs,
     Writer.encodeArray numberToString vs
     = "*"%char :: Writer.sizeToString vs ++ CRLF ++ encodeAll numberToString vs) /\
  (forall vs,
     Writer.encode numberToString (plain (set (Some vs)))
     = "~"%char :: Writer.sizeToString vs ++ CRLF ++ encodeAll numberToString vs) /\
  (forall vs,
     Writer.encode numberToString (plain (push vs))
     = ">"%char :: Writer.sizeToString vs ++ CRLF ++ encodeAll numberToString vs) /\
  (forall es,
     Writer.encode numberToString (plain (map (Some es)))
     = "%"%char :: Writer.sizeToString es ++ CRLF
         ++ encodeAll numberToString (flattenEntries es)) /\
  (forall body e es,
     Writer.encode numberToString (Node body (Some (e :: es)))
     = "|"%char :: Writer.sizeToString (e :: es) ++ CRLF
         ++ encodeAll numberToString (flattenEntries (e :: es))
         ++ Writer.encode numberToString (Node body None)) /\
  (forall body, Writer.encode numberToString (Node body (Some []))
                = Writer.encode numberToString (Node body None)).
Proof.
  assert (Happ := writeValue_app numberToString).
  assert (Heach : forall l w, Writer.writeEach (Writer.writeValue numberToString) l w
                              = w ++ encodeAll numberToString l)
    by (intros l; apply writeEach_app; intros; apply Happ).
  assert (Hent : forall l w, Writer.writeEntries (Writer.writeValue numberToString) l w
                             = w ++ encodeAll numberToString (flattenEntries l))
    by (intros l; apply writeEntries_app; intros; apply Happ).
  unfold Writer.encodeArray, Writer.writeArray, Writer.encode, Writer.reset, plain.
  repeat split; intros.
  - apply Happ.
  - cbn [Writer.writeValue]. rewrite Heach. unfold_header.
  - cbn [Writer.writeValue]. rewrite Heach. unfold_header.
  - cbn [Writer.writeValue]. rewrite Heach. unfold_header.
  - cbn [Writer.writeValue]. rewrite Hent. unfold_header.
  - change (Writer.writeValue numberToString (Node body (Some (e :: es))) [])
      with (Writer.writeValue numberToString (Node body None)
              (Writer.writeEntries (Writer.writeValue numberToString) (e :: es)
                 ((Writer.andThen (Writer.andThen (Writer.writeByte "|"%char)
                     (Writer.writeString (Writer.sizeToString (e :: es)))) Writer.writeCRLF)
                    []))).
    rewrite Happ, Hent.
    unfold Writer.andThen, Writer.writeByte, Writer.writeString, Writer.writeBytes,
      Writer.writeCRLF, CRLF. cbn [app]. rewrite <- !app_assoc. reflexivity.
Qed.

End WriterExtras.

Module CommandWireFacts.
Import JsFacts LeafFacts WriterFacts.

Section Wire.
Variable numberToString : Js.number -> text.

Lemma writeBulkString_bulk b w :
  Writer.writeBulkString b w = Writer.writeValue numberToString (bulkString b) w.
Proof. reflexivity. Qed.

Lemma fold_bulk (l : list CommandArg) : forall w,
  fold_left (fun w arg => Writer.writeBulkString (Writer.argBytes numberToString arg) w) l w
  = w ++ encodeAll numberToString
           (List.map (fun a => bulkString (Writer.argBytes numberToString a)) l).
Proof.
  induction l as [|a l IH]; intros w; cbn [fold_left List.map].
  - unfold encodeAll. cbn. rewrite app_nil_r. reflexivity.
  - rewrite IH. rewrite writeBulkString_bulk, writeValue_app.
    unfold encodeAll. cbn [List.map List.concat]. rewrite <- app_assoc. reflexivity.
Qed.

(** A command is encoded as the array of bulk strings that holds its
    name and its arguments. *)
Lemma encodeCommand_array command args :
  Writer.encodeCommand numberToString command args
  = Writer.encode numberToString
      (plain (array (Some (bulkString command
                             :: List.map (fun a => bulkString (Writer.argBytes numberToString a))
                                  args)))).
Proof.
  unfold Writer.encodeCommand, Writer.encode, Writer.reset, plain.
  rewrite fold_bulk. cbn [Writer.writeValue Writer.writeEach].
  rewrite writeEach_app by (intros; apply writeValue_app).
  rewrite (writeValue_app numberToString (bulkString command)).
  unfold Writer.andThen at 1. rewrite writeBulkString_bulk, writeValue_app.
  unfold Writer.writeArrayHeader, Writer.sizeToString.
  cbn [List.length]. rewrite length_map.
  replace (Z.of_nat (Datatypes.S (List.length args))) with (Z.of_nat (List.length args) + 1)
    by lia.
  rewrite <- !app_assoc. reflexivity.
Qed.

End Wire.
End CommandWireFacts.

Section WireExtras.
Variable parseFloat : text -> Js.number.
Variable numberToString : Js.number -> text.
Import CommandWireFacts FeedFacts.

(** X12.  What [encodeCommand] writes for a command is read back by the
    decoder as one reply: the array of bulk strings that holds the name
    of the command and then its arguments, in order (a number argument as
    its decimal text). *)
Theorem encoded_command_decodes_to_its_arguments command args :
  smallSize command ->
  Forall (fun a => smallSize (Writer.argBytes numberToString a)) args ->
  smallSize (command :: List.map (Writer.argBytes numberToString) args) ->
  decodesTo parseFloat [Writer.encodeCommand numberToString command args]
    (mkSinks
       [plain (array (Some (List.map bulkString
                              (command :: List.map (Writer.argBytes numberToString) args))))]
       [] []).
Proof.
  intros Hc Hargs Hn.
  rewrite encodeCommand_array. cbn [List.map]. rewrite map_map.
  set (v := plain (array (Some (bulkString command
              :: List.map (fun a => bulkString (Writer.argBytes numberToString a)) args)))).
  assert (Hflat : flat parseFloat numberToString v).
  { split; [reflexivity|]. cbn [body_of v plain]. split.
    - unfold smallSize in *. cbn [List.length] in *. rewrite length_map in *. exact Hn.
    - constructor; [split; [reflexivity|exact Hc]|].
      rewrite Forall_map. eapply Forall_impl; [|exact Hargs].
      intros a Ha. split; [reflexivity|exact Ha]. }
  destruct (feed_flat parseFloat recorder eq_refl numberToString v noSinks Hflat) as [fuel0 Hf].
  unfold decodesTo, feeds. eexists. exists fuel0.
  cbn [Parser.feedAll]. rewrite (Hf fuel0 (Nat.le_refl _)). reflexivity.
Qed.

(** X13.  When no push handler is given to the parser, a push frame reaches
    the reply handler like any other value. *)
Theorem push_without_handler_goes_to_replies v :
  flat parseFloat numberToString v -> Parser.isPush v = true ->
  (exists p, feeds parseFloat recorderNoPush [Writer.encode numberToString v]
               Parser.initial noSinks (p, mkSinks [v] [] [])) /\
  decodesTo parseFloat [Writer.encode numberToString v] (mkSinks [] [v] []).
Proof.
  intros Hflat Hpush. split.
  - destruct (feed_flat parseFloat recorderNoPush eq_refl numberToString v noSinks Hflat)
      as [fuel0 Hf].
    eexists. exists fuel0. cbn [Parser.feedAll]. rewrite (Hf fuel0 (Nat.le_refl _)).
    unfold Parser.handleValue. cbn [Parser._frames List.length Nat.eqb negb].
    rewrite andb_false_r, Hpush. reflexivity.
  - destruct (feed_flat parseFloat recorder eq_refl numberToString v noSinks Hflat)
      as [fuel0 Hf].
    eexists. exists fuel0. cbn [Parser.feedAll]. rewrite (Hf fuel0 (Nat.le_refl _)).
    unfold Parser.handleValue. cbn [Parser._frames List.length Nat.eqb negb].
    rewrite andb_false_r, Hpush. reflexivity.
Qed.

End WireExtras.

Module WriterFacts2.
Import JsFacts LeafFacts WriterFacts.

Section Ends.
Variable numberToString : Js.number -> text.
Local Notation "'write'" := (Writer.writeValue numberToString).

Lemma ends_app (x y : Buffer) :
  (exists b, y = b ++ CRLF) -> exists b, x ++ y = b ++ CRLF.
Proof. intros [b ->]. exists (x ++ b). rewrite app_assoc. reflexivity. Qed.

Lemma encodeAll_ends (l : list Resp3) (h : Buffer) :
  (forall x, In x l -> exists b, write x [] = b ++ CRLF) ->
  (exists b, h = b ++ CRLF) ->
  exists b, h ++ encodeAll numberToString l = b ++ CRLF.
Proof.
  revert h. induction l as [|x l IH]; intros h Hl Hh.
  - unfold encodeAll. cbn. rewrite app_nil_r. exact Hh.
  - change (encodeAll numberToString (x :: l))
      with (write x [] ++ encodeAll numberToString l).
    rewrite app_assoc. apply IH.
    + intros y Hy. apply Hl. right. exact Hy.
    + apply ends_app. apply Hl. left. reflexivity.
Qed.

Lemma flattenEntries_children es x :
  In x (flattenEntries es) -> In x (flat_map entryChildren es) \/ x = plain null.
Proof.
  induction es as [|[k [v|]] es IH]; cbn; intros H; [tauto| |].
  - destruct H as [H|[H|H]]; [tauto|tauto|]. destruct (IH H); tauto.
  - destruct H as [H|[H|H]]; [tauto|right; auto|]. destruct (IH H); tauto.
Qed.

(** Every encoding ends with CR LF. *)
Lemma encode_ends_with_CRLF : forall v, exists b, write v [] = b ++ CRLF.
Proof.
  induction v as [[body attrs] IH] using Resp3_induction.
  assert (Hnull : exists b, write (plain null) [] = b ++ CRLF)
    by (exists ["_"%char]; reflexivity).
  assert (Hbody : exists b, write (Node body None) [] = b ++ CRLF).
  { assert (Hin : forall l x, In x l ->
                    l = match body with
                        | array (Some l) | set (Some l) | push l => l
                        | _ => [] end ->
                    exists b, write x [] = b ++ CRLF).
    { intros l x Hx ->. apply IH. cbn [children]. apply in_or_app. right.
      destruct body as [| | | | | | |  | | |[l|]|[es|]|[l|]|l]; try destruct Hx; exact Hx. }
    assert (Hentries : forall es x, body = map (Some es) -> In x (flattenEntries es) ->
                       exists b, write x [] = b ++ CRLF).
    { intros es x -> Hx. apply flattenEntries_children in Hx. destruct Hx as [Hx| ->];
        [|exact Hnull]. apply IH. cbn [children]. apply in_or_app. right. exact Hx. }
    destruct body as [value|code message|value|value|value|value| |value|code message
                      |format value|[l|]|[es|]|[l|]|l];
      cbn [Writer.writeValue];
      try (rewrite (writeEach_app numberToString l)
             by (intros; apply writeValue_app));
      try (rewrite (writeEntries_app numberToString es)
             by (intros; apply writeValue_app));
      unfold Writer.writeSimpleString, Writer.writeError, Writer.writeInteger,
        Writer.writeDouble, Writer.writeBigNumber, Writer.writeBoolean, Writer.writeNull,
        Writer.writeBlobString, Writer.writeBlobError, Writer.writeVerbatimString,
        Writer.andThen, Writer.writeByte, Writer.writeString, Writer.writeBytes,
        Writer.writeCRLF;
      try (eexists; reflexivity).
    - destruct value as [[b|s0]|]; eexists; reflexivity.
    - apply encodeAll_ends; [intros x Hx; apply (Hin l x Hx eq_refl)|eexists; reflexivity].
    - apply encodeAll_ends; [intros x Hx; apply (Hentries es x eq_refl Hx)|eexists; reflexivity].
    - apply encodeAll_ends; [intros x Hx; apply (Hin l x Hx eq_refl)|eexists; reflexivity].
    - apply encodeAll_ends; [intros x Hx; apply (Hin l x Hx eq_refl)|eexists; reflexivity]. }
  destruct attrs as [[|e es]|]; try exact Hbody.
  change (write (Node body (Some (e :: es))) [])
    with (write (Node body None)
            (Writer.writeEntries write (e :: es)
               ((Writer.andThen (Writer.andThen (Writer.writeByte "|"%char)
                   (Writer.writeString (Writer.sizeToString (e :: es)))) Writer.writeCRLF)
                  []))).
  rewrite writeValue_app. apply ends_app. exact Hbody.
Qed.

End Ends.
End WriterFacts2.

Section WriterExtras2.
Variable numberToString : Js.number -> text.
Import WriterFacts2.

(** X14.  Whatever the value - scalar or aggregate, nested to any depth, with
    or without attributes - its encoding is not empty and ends with
    CR LF. *)
Theorem every_encoding_ends_with_CRLF v :
  exists b, Writer.encode numberToString v = b ++ CRLF.
Proof. apply encode_ends_with_CRLF. Qed.

End WriterExtras2.

Module ChunkFacts.
Import Parser JsFacts LeafFacts.

Lemma findCRLF_length s : forall k, Js.findCRLF s = Some k -> (k + 2 <= List.length s)%nat.
Proof.
  induction s as [|c1 tl IH]; intros k H; [discriminate H|].
  destruct tl as [|c2 tl']; [discriminate H|].
  change (Js.findCRLF (c1 :: c2 :: tl'))
    with (if Ascii.eqb c1 CR && Ascii.eqb c2 LF then Some 0%nat
          else option_map Datatypes.S (Js.findCRLF (c2 :: tl'))) in H.
  destruct (Ascii.eqb c1 CR && Ascii.eqb c2 LF).
  - inversion H; subst. cbn. lia.
  - destruct (Js.findCRLF (c2 :: tl')) as [k'|] eqn:E; [|discriminate H].
    inversion H; subst. specialize (IH k' eq_refl). cbn in *. lia.
Qed.

Lemma findCRLF_mono s : forall t k, Js.findCRLF s = Some k -> Js.findCRLF (s ++ t) = Some k.
Proof.
  induction s as [|c1 tl IH]; intros t k H; [discriminate H|].
  destruct tl as [|c2 tl']; [discriminate H|].
  change (Js.findCRLF (c1 :: c2 :: tl'))
    with (if Ascii.eqb c1 CR && Ascii.eqb c2 LF then Some 0%nat
          else option_map Datatypes.S (Js.findCRLF (c2 :: tl'))) in H.
  change (Js.findCRLF ((c1 :: c2 :: tl') ++ t))
    with (if Ascii.eqb c1 CR && Ascii.eqb c2 LF then Some 0%nat
          else option_map Datatypes.S (Js.findCRLF ((c2 :: tl') ++ t))).
  destruct (Ascii.eqb c1 CR && Ascii.eqb c2 LF); [exact H|].
  destruct (Js.findCRLF (c2 :: tl')) as [k'|] eqn:E; [|discriminate H].
  rewrite (IH t k' eq_refl). exact H.
Qed.

(** A line without CR LF, cut anywhere before the end of its
    terminator, holds no CR LF. *)
Lemma strict_prefix_noCRLF (L s' b : Buffer) :
  noCRLF L -> s' ++ b = L ++ CRLF -> b <> [] -> Js.findCRLF s' = None.
Proof.
  intros HL E Hb. destruct (Js.findCRLF s') as [k|] eqn:Ek; [|reflexivity]. exfalso.
  pose proof (findCRLF_length _ _ Ek) as Hlen.
  pose proof (findCRLF_mono s' b k Ek) as Hm. rewrite E in Hm.
  unfold CRLF in Hm. rewrite (findCRLF_app L [] HL) in Hm. inversion Hm; subst k.
  apply (f_equal (@List.length _)) in E. rewrite !List.length_app in E. cbn in E.
  destruct b; [congruence|]. cbn in E. lia.
Qed.

Section More.
Context {S : Type} (parseFloat : text -> Js.number) (opts : ParserOptions S).

Lemma indexOfCRLF_none (pre s : Buffer) :
  Js.findCRLF s = None -> Js.indexOfCRLF (pre ++ s) (Js.length pre) = None.
Proof.
  intros H. unfold Js.indexOfCRLF.
  rewrite relIndex_inside by (rewrite length_app; unfold Js.length; lia).
  unfold Js.length at 1. rewrite skipn_app_exact, H. reflexivity.
Qed.

Lemma line_more c (k : text -> M Parsed) s' pre fs :
  Js.findCRLF (c :: s') = None ->
  (ok <- prefixIs c ;;
   if negb ok then ret NEED_MORE else
   line <- readLine ;;
   match line with
   | None => ret NEED_MORE
   | Some line => k line
   end) (mkParser (pre ++ c :: s') (Js.length pre) fs None)
  = (Normal NEED_MORE, mkParser (pre ++ c :: s') (Js.length pre) fs None).
Proof.
  intros H.
  rewrite (bind_normal _ _ _ _ _ (prefixIs_spec pre c _ fs)). cbn [negb].
  unfold readLine. run_monad. rewrite indexOfCRLF_none by exact H. reflexivity.
Qed.

Lemma header_more c (k : Z -> M Parsed) s' pre fs :
  Js.findCRLF s' = None ->
  (ok <- prefixIs c ;;
   if negb ok then ret NEED_MORE else
   len <- readLenAfterPrefix ;;
   match len with
   | None => ret NEED_MORE
   | Some len => k len
   end) (mkParser (pre ++ c :: s') (Js.length pre) fs None)
  = (Normal NEED_MORE, mkParser (pre ++ c :: s') (Js.length pre) fs None).
Proof.
  intros H.
  rewrite (bind_normal _ _ _ _ _ (prefixIs_spec pre c _ fs)). cbn [negb].
  unfold readLenAfterPrefix. run_monad.
  assert (E : Js.indexOfCRLF (pre ++ c :: s') (Js.length pre + 1) = None).
  { replace (pre ++ c :: s') with ((pre ++ [c]) ++ s')
      by (rewrite <- app_assoc; reflexivity).
    replace (Js.length pre + 1) with (Js.length (pre ++ [c])) by len.
    apply indexOfCRLF_none. exact H. }
  rewrite E. reflexivity.
Qed.

End More.

Section More.
Context {S : Type} (parseFloat : text -> Js.number) (opts : ParserOptions S).

Lemma more_line c L a b consume pre fs :
  In c lineTypes -> noCRLF L -> a ++ b = c :: L ++ CRLF -> a <> [] -> b <> [] ->
  asksForMore parseFloat opts consume pre a fs.
Proof.
  intros Hc HL E Ha Hb. destruct a as [|c' s']; [congruence|].
  cbn [app] in E. inversion E; subst c'.
  assert (Hs : Js.findCRLF (c :: s') = None).
  { apply cons_findCRLF.
    - intros ->. cbn in Hc. repeat (destruct Hc as [Hc|Hc]; [discriminate Hc|]). exact Hc.
    - apply (strict_prefix_noCRLF L s' b); assumption. }
  exists (Js.length pre). rewrite parseOneWith_at.
  cbn in Hc. repeat (destruct Hc as [<-|Hc]); try contradiction; lazy beta iota;
    unfold parseSimpleString, parseError, parseInteger, parseNull, parseBoolean,
      parseDouble, parseBigNumber;
    apply line_more; exact Hs.
Qed.

Lemma more_header c L a b consume pre fs :
  In c lengthTypes -> noCRLF L -> a ++ b = c :: L ++ CRLF -> a <> [] -> b <> [] ->
  asksForMore parseFloat opts consume pre a fs.
Proof.
  intros Hc HL E Ha Hb. destruct a as [|c' s']; [congruence|].
  cbn [app] in E. inversion E; subst c'.
  assert (Hs : Js.findCRLF s' = None)
    by (apply (strict_prefix_noCRLF L s' b); assumption).
  exists (Js.length pre). rewrite parseOneWith_at.
  cbn in Hc. repeat (destruct Hc as [<-|Hc]); try contradiction; lazy beta iota;
    unfold parseBlobStringLike, parseVerbatimString, parseAggregateWith;
    cbn [expectedPrefix]; apply header_more; exact Hs.
Qed.

End More.

Section More.
Context {S : Type} (parseFloat : text -> Js.number) (opts : ParserOptions S).

(** After the header of a length-prefixed value, with less than the
    payload and its terminator in the buffer. *)
Lemma payload_more c (k : Z -> M Parsed) (guard : Z -> bool) (bad : M Parsed)
    n (m : Buffer) pre fs :
  0 <= n < 2 ^ 53 -> guard n = false -> Js.length m < n + 2 ->
  (ok <- prefixIs c ;;
   if negb ok then ret NEED_MORE else
   len <- readLenAfterPrefix ;;
   match len with
   | None => ret NEED_MORE
   | Some len =>
       if guard len then bad else
       enough <- ensure (len + 2) ;;
       if negb enough then ret NEED_MORE else k len
   end)
    (mkParser (pre ++ (c :: Js.intToString n ++ CRLF) ++ m) (Js.length pre) fs None)
  = (Normal NEED_MORE,
     mkParser (pre ++ (c :: Js.intToString n ++ CRLF) ++ m)
              (Js.length pre + Js.length (c :: Js.intToString n ++ CRLF)) fs None).
Proof.
  intros Hn Hg Hm.
  rewrite header_spec by exact Hn. rewrite Hg.
  unfold ensure. run_monad.
  assert (E : (n + 2 <=? Js.length (pre ++ (c :: Js.intToString n ++ CRLF) ++ m)
                         - (Js.length pre + Js.length (c :: Js.intToString n ++ CRLF)))%Z
              = false).
  { apply Z.leb_gt. rewrite !length_app. lia. }
  rewrite E. reflexivity.
Qed.

Lemma more_blob c (P a b : Buffer) consume pre fs :
  In c ["$"; "!"; "="]%char -> smallSize P ->
  a ++ b = c :: (Js.intToString (Js.length P) ++ CRLF) ++ P ++ CRLF ->
  a <> [] -> b <> [] ->
  asksForMore parseFloat opts consume pre a fs.
Proof.
  intros Hc HP E Ha Hb.
  assert (Hn : 0 <= Js.length P < 2 ^ 53) by (split; [apply length_nonneg|exact HP]).
  destruct a as [|c' s'] eqn:Ea; [congruence|]. rewrite <- Ea in *.
  assert (E' : s' ++ b = (Js.intToString (Js.length P) ++ CRLF) ++ P ++ CRLF)
    by (rewrite Ea in E; cbn [app] in E; inversion E; reflexivity).
  assert (Ec : c' = c) by (rewrite Ea in E; cbn [app] in E; inversion E; reflexivity).
  subst c'.
  apply app_eq_app in E'. destruct E' as [l [[E1 E2]|[E1 E2]]].
  - (* the header is complete *)
    assert (Hl : Js.length l < Js.length P + 2).
    { apply (f_equal (@List.length _)) in E2. rewrite !List.length_app in E2. cbn in E2.
      unfold Js.length. destruct b; [congruence|]. cbn in E2. lia. }
    exists (Js.length pre + Js.length (c :: Js.intToString (Js.length P) ++ CRLF)).
    rewrite Ea, E1.
    replace (pre ++ c :: (Js.intToString (Js.length P) ++ CRLF) ++ l)
      with (pre ++ (c :: Js.intToString (Js.length P) ++ CRLF) ++ l)
      by (cbn [app]; rewrite <- app_assoc; reflexivity).
    rewrite parseOneWith_at'.
    cbn in Hc. destruct Hc as [<-|[<-|[<-|[]]]]; lazy beta iota;
      unfold parseBlobStringLike, parseVerbatimString.
    + apply (payload_more "$"%char _ (fun len => (len =? -1)%Z)); try assumption.
      apply Z.eqb_neq. lia.
    + apply (payload_more "!"%char _ (fun len => (len =? -1)%Z)); try assumption.
      apply Z.eqb_neq. lia.
    + apply (payload_more "="%char _ (fun len => (len <? 0)%Z)); try assumption.
      apply Z.ltb_ge. lia.
  - (* the header is cut *)
    destruct l as [|x l'].
    + (* exactly the header: nothing of the payload yet *)
      rewrite app_nil_r in E1. cbn [app] in E2.
      exists (Js.length pre + Js.length (c :: Js.intToString (Js.length P) ++ CRLF)).
      rewrite Ea, <- E1.
      replace (pre ++ c :: Js.intToString (Js.length P) ++ CRLF)
        with (pre ++ (c :: Js.intToString (Js.length P) ++ CRLF) ++ [])
        by (rewrite app_nil_r; reflexivity).
      rewrite parseOneWith_at'.
      assert (Hl : Js.length (@nil ascii) < Js.length P + 2) by (cbn; lia).
      cbn in Hc. destruct Hc as [<-|[<-|[<-|[]]]]; lazy beta iota;
        unfold parseBlobStringLike, parseVerbatimString.
      * apply (payload_more "$"%char _ (fun len => (len =? -1)%Z)); try assumption.
        apply Z.eqb_neq. lia.
      * apply (payload_more "!"%char _ (fun len => (len =? -1)%Z)); try assumption.
        apply Z.eqb_neq. lia.
      * apply (payload_more "="%char _ (fun len => (len <? 0)%Z)); try assumption.
        apply Z.ltb_ge. lia.
    + apply (more_header parseFloat opts c (Js.intToString (Js.length P)) a (x :: l'));
        try assumption.
      * cbn in Hc. cbn. tauto.
      * apply intToString_findCRLF.
      * rewrite Ea. cbn [app]. f_equal. symmetry. exact E1.
      * discriminate.
Qed.

End More.

Section More.
Context {S : Type} (parseFloat : text -> Js.number) (opts : ParserOptions S).
Variable numberToString : Js.number -> text.
Local Notation "'enc'" := (fun v => Writer.writeValue numberToString v []).

Ltac flatten_writes :=
  unfold Writer.writeValue, Writer.writeSimpleString, Writer.writeError,
    Writer.writeInteger, Writer.writeDouble, Writer.writeBigNumber, Writer.writeBoolean,
    Writer.writeNull, Writer.writeBlobString, Writer.writeBlobError,
    Writer.writeVerbatimString, Writer.writeEach, Writer.writeEntries,
    Writer.andThen, Writer.writeByte, Writer.writeString, Writer.writeBytes,
    Writer.writeCRLF, Writer.sizeToString, CRLF;
  repeat rewrite <- app_assoc; cbn [app].

Ltac line_case c s :=
  match goal with
  | E : ?a ++ ?b = _ |- _ =>
      apply (more_line parseFloat opts c s a b); [cbn; tauto| |exact E|assumption|assumption]
  end.
Ltac header_case c s :=
  match goal with
  | E : ?a ++ ?b = _ |- _ =>
      apply (more_header parseFloat opts c s a b); [cbn; tauto| |exact E|assumption|assumption]
  end.

(** A value without children, cut anywhere inside its encoding: the
    parser asks for more. *)
Lemma need_more_frameless v a b consume pre fs :
  frameless parseFloat numberToString v ->
  a ++ b = enc v -> a <> [] -> b <> [] ->
  asksForMore parseFloat opts consume pre a fs.
Proof.
  destruct v as [body [at_|]]; intros [Ha Hl] E Hna Hnb; [discriminate Ha|].
  cbn [body_of] in Hl.
  destruct body as [s|code m|z|d|[z|s]|bo| |[[bs|s]|]|code m|f t|[[|]|]|[[|]|]|[[|]|]|[|]];
    unfold leaf in Hl; try contradiction.
  - line_case "+"%char s. exact Hl.
  - line_case "-"%char (Writer.codeAndMessage code m). tauto.
  - line_case ":"%char (Js.intToString z). apply intToString_findCRLF.
  - destruct (Js.isFinite d) eqn:Hf.
    + destruct Hl as [Hl|(H & _)]; [congruence|].
      replace (Writer.writeValue numberToString (Node (double d) None) [])
        with (","%char :: numberToString d ++ CRLF) in E
        by (flatten_writes; rewrite Hf; flatten_writes; reflexivity).
      line_case ","%char (numberToString d). exact H.
    + destruct d as [sg|[|]| |]; try discriminate Hf.
      * line_case ","%char (B "-inf"). reflexivity.
      * line_case ","%char (B "inf"). reflexivity.
      * line_case ","%char (B "nan"). reflexivity.
  - line_case "("%char (Js.intToString z). apply intToString_findCRLF.
  - line_case "("%char s. tauto.
  - line_case "#"%char (if bo then B "t" else B "f"). destruct bo; reflexivity.
  - line_case "_"%char (@nil ascii). reflexivity.
  - apply (more_blob parseFloat opts "$"%char bs a b); try assumption; [cbn; tauto|].
    rewrite E. flatten_writes. reflexivity.
  - header_case "$"%char (B "-1"). reflexivity.
  - apply (more_blob parseFloat opts "!"%char (Writer.codeAndMessage code m) a b);
      try assumption; [cbn; tauto|tauto|].
    rewrite E. flatten_writes. reflexivity.
  - apply (more_blob parseFloat opts "="%char (f ++ ":"%char :: t) a b);
      try assumption; [cbn; tauto|tauto|].
    rewrite E. flatten_writes. reflexivity.
  - header_case "*"%char (Js.intToString 0). reflexivity.
  - header_case "*"%char (B "-1"). reflexivity.
  - header_case "%"%char (Js.intToString 0). reflexivity.
  - header_case "%"%char (B "-1"). reflexivity.
  - header_case "~"%char (Js.intToString 0). reflexivity.
  - header_case "~"%char (B "-1"). reflexivity.
  - header_case ">"%char (Js.intToString 0). reflexivity.
Qed.

End More.

Section Stream.
Variable parseFloat : text -> Js.number.
Variable numberToString : Js.number -> text.
Local Notation "'enc'" := (fun v => Writer.writeValue numberToString v []).
Local Notation "'frameless'" := (frameless parseFloat numberToString).
Local Notation "'encAll'" := (encodeAll numberToString).

Lemma enc_nonempty v : frameless v -> enc v <> [].
Proof.
  intros Hv E.
  pose proof (parse_leaf parseFloat recorder eq_refl numberToString v Hv
                (ret Undefined) [] [] []) as H.
  cbn beta in E. rewrite E in H. cbn in H. discriminate H.
Qed.

Lemma record_all vs : forall s,
  fold_left record vs s
  = mkSinks (replies s ++ filter (fun v => negb (isPush v)) vs)
            (pushes s ++ filter isPush vs) (errors s).
Proof.
  induction vs as [|v vs IH]; intros s; cbn [fold_left filter].
  - rewrite !app_nil_r. destruct s; reflexivity.
  - rewrite IH. unfold record. destruct (isPush v); cbn; rewrite <- app_assoc; reflexivity.
Qed.

(** The loop of [feed] over complete values followed by a cut one. *)
Lemma feedLoop_values vs : forall pre s fuel tail,
  Forall frameless vs -> (List.length vs < fuel)%nat ->
  (tail = [] \/ exists v b, frameless v /\ tail <> [] /\ b <> [] /\ tail ++ b = enc v) ->
  feedLoop parseFloat recorder fuel
    (mkParser (pre ++ encAll vs ++ tail) (Js.length pre) [] None) s
  = Some (mkParser (pre ++ encAll vs ++ tail) (Js.length pre + Js.length (encAll vs)) [] None,
          fold_left record vs s).
Proof.
  induction vs as [|v vs IH]; intros pre s fuel tail Hvs Hfuel Htail.
  - destruct fuel as [|fuel]; [cbn in Hfuel; lia|].
    unfold encodeAll. cbn [List.map List.concat app fold_left feedLoop _offset].
    change (Js.length []) with 0. rewrite Z.add_0_r.
    destruct Htail as [->|(v & b & Hv & Hne & Hb & E)].
    + rewrite app_nil_r. unfold parseOne, parseOneWith. run_monad.
      rewrite Z.leb_refl. reflexivity.
    + destruct (need_more_frameless parseFloat recorder numberToString v tail b
                  (consumeNested parseFloat recorder fuel) pre [] Hv E Hne Hb) as [o Ho].
      unfold parseOne. rewrite Ho. reflexivity.
  - destruct fuel as [|fuel]; [cbn in Hfuel; lia|].
    apply Forall_cons_iff in Hvs. destruct Hvs as [Hv Hvs].
    pose proof (parse_leaf parseFloat recorder eq_refl numberToString v Hv
                  (consumeNested parseFloat recorder fuel) pre (encAll vs ++ tail) [])
      as Hparse.
    cbn beta in Hparse.
    replace (pre ++ encAll (v :: vs) ++ tail)
      with (pre ++ enc v ++ encAll vs ++ tail)
      by (unfold encodeAll; cbn [List.map List.concat]; rewrite <- !app_assoc; reflexivity).
    cbn [feedLoop _offset]. unfold parseOne. cbn beta. rewrite Hparse.
    unfold handleValue. cbn [_frames List.length Nat.eqb negb]. rewrite andb_false_r.
    assert (Hrec : (if isPush v
                    then match onPush recorder with
                         | Some f => f v s
                         | None => call (onReply recorder) v s
                         end
                    else call (onReply recorder) v s) = (record s v, None)).
    { unfold record. destruct (isPush v); reflexivity. }
    rewrite Hrec.
    replace (pre ++ enc v ++ encAll vs ++ tail) with ((pre ++ enc v) ++ encAll vs ++ tail)
      by (rewrite <- app_assoc; reflexivity).
    replace (Js.length pre + Js.length (enc v)) with (Js.length (pre ++ enc v))
      by (apply length_app).
    cbn beta. rewrite IH; [|exact Hvs|cbn in Hfuel; lia|exact Htail].
    cbn [fold_left]. f_equal. f_equal. f_equal.
    unfold encodeAll. cbn [List.map List.concat]. rewrite !length_app. lia.
Qed.

(** A start of a stream of values is some complete values and a cut
    one. *)
Lemma split_stream vs : forall x y,
  Forall frameless vs -> x ++ y = encAll vs ->
  exists vs1 vs2 a,
    vs = vs1 ++ vs2 /\ x = encAll vs1 ++ a /\ cutOf numberToString a vs2.
Proof.
  induction vs as [|v vs IH]; intros x y Hvs E.
  - exists [], [], []. unfold encodeAll in *. cbn in *.
    apply app_eq_nil in E. destruct E as [-> _]. repeat split. left. reflexivity.
  - apply Forall_cons_iff in Hvs. destruct Hvs as [Hv Hvs].
    change (encAll (v :: vs)) with (enc v ++ encAll vs) in E.
    apply app_eq_app in E. destruct E as [l [[E1 E2]|[E1 E2]]].
    + destruct (IH l y Hvs (eq_sym E2)) as (vs1 & vs2 & a & Hs & Hl & Hcut).
      exists (v :: vs1), vs2, a. subst vs l. split; [reflexivity|]. split; [|exact Hcut].
      rewrite E1. change (encAll (v :: vs1)) with (enc v ++ encAll vs1).
      rewrite <- app_assoc. reflexivity.
    + destruct l as [|c l'].
      * rewrite app_nil_r in E1. exists [v], vs, []. split; [reflexivity|].
        split; [|left; reflexivity].
        change (encAll [v]) with (enc v ++ []). rewrite !app_nil_r. symmetry. exact E1.
      * destruct x as [|c0 x'].
        -- exists [], (v :: vs), []. repeat split. left. reflexivity.
        -- exists [], (v :: vs), (c0 :: x'). split; [reflexivity|]. split; [reflexivity|].
           right. exists v, vs, (c :: l'). repeat split; try discriminate.
           symmetry. exact E1.
Qed.

(** What [feed] makes of its buffer before it parses: the bytes not yet
    read, followed by the chunk, read from their start. *)
Lemma feed_unread fuel chunk buf off s :
  chunk <> [] -> 0 <= off <= Js.length buf ->
  feed parseFloat recorder fuel chunk (mkParser buf off [] None) s
  = feedLoop parseFloat recorder fuel
      (mkParser (skipn (Z.to_nat off) buf ++ chunk) 0 [] None) s.
Proof.
  intros Hc Hoff. unfold feed.
  destruct chunk as [|c0 chunk']; [congruence|].
  cbn [List.length Nat.eqb _offset _buffer _frames _pendingAttributes].
  destruct (Z.eqb_spec off 0) as [->|Hne].
  - cbn [andb Z.to_nat skipn]. destruct buf as [|x buf'].
    + reflexivity.
    + assert (Hl : (Js.length (x :: buf') =? 0)%Z = false)
        by (apply Z.eqb_neq; unfold Js.length; cbn [List.length]; lia).
      rewrite Hl. reflexivity.
  - cbn [andb]. assert (Hgt : (off >? 0) = true) by (apply Z.gtb_lt; lia).
    rewrite Hgt. cbn [_buffer _offset _frames _pendingAttributes].
    f_equal. f_equal. f_equal.
    unfold Js.subarrayFrom, Js.subarray.
    rewrite !relIndex_inside by lia.
    apply firstn_all2. rewrite length_skipn. unfold Js.length in *. lia.
Qed.

End Stream.

Section Stream.
Variable parseFloat : text -> Js.number.
Variable numberToString : Js.number -> text.
Local Notation "'enc'" := (fun v => Writer.writeValue numberToString v []).
Local Notation "'frameless'" := (frameless parseFloat numberToString).
Local Notation "'encAll'" := (encodeAll numberToString).

Lemma encodeAll_app l1 l2 : encAll (l1 ++ l2) = encAll l1 ++ encAll l2.
Proof. unfold encodeAll. rewrite map_app, concat_app. reflexivity. Qed.

Lemma feedAll_chunks chunks : forall buf off s ws a fuel,
  0 <= off <= Js.length buf -> skipn (Z.to_nat off) buf = a ->
  Forall frameless ws -> cutOf numberToString a ws ->
  a ++ List.concat chunks = encAll ws ->
  (List.length ws + 1 < fuel)%nat ->
  exists p,
    feedAll parseFloat recorder fuel chunks (mkParser buf off [] None) s
    = Some (p, fold_left record ws s).
Proof.
  induction chunks as [|c cs IH]; intros buf off s ws a fuel Hoff Ha Hws Hcut E Hfuel.
  - cbn [List.concat] in E. rewrite app_nil_r in E. cbn [feedAll].
    destruct Hcut as [->|(v & rest & b & -> & Hne & Hb & Ev)].
    + destruct ws as [|v ws']; [eexists; reflexivity|]. exfalso.
      apply Forall_cons_iff in Hws. destruct Hws as [Hv _].
      apply (enc_nonempty parseFloat numberToString v Hv).
      change (encAll (v :: ws')) with (enc v ++ encAll ws') in E.
      symmetry in E. apply app_eq_nil in E. tauto.
    + exfalso. change (encAll (v :: rest)) with (enc v ++ encAll rest) in E.
      apply (f_equal (@List.length _)) in E. apply (f_equal (@List.length _)) in Ev.
      rewrite !List.length_app in *. destruct b; [congruence|]. cbn [List.length] in Ev. lia.
  - cbn [feedAll List.concat] in *.
    destruct c as [|c0 c'].
    + cbn [app] in E. unfold feed. cbn [List.length Nat.eqb].
      apply (IH buf off s ws a fuel); assumption.
    + rewrite feed_unread by (discriminate || exact Hoff). rewrite Ha.
      rewrite app_assoc in E.
      destruct (split_stream parseFloat numberToString ws _ _ Hws E)
        as (ws1 & ws2 & a2 & Hsplit & Hx & Hcut2).
      subst ws. apply Forall_app in Hws. destruct Hws as [Hws1 Hws2].
      assert (Htail : a2 = [] \/
                exists v b, frameless v /\ a2 <> [] /\ b <> [] /\ a2 ++ b = enc v).
      { destruct Hcut2 as [->|(v & rest & b & -> & Hne & Hb & Ev)]; [left; reflexivity|].
        right. exists v, b. apply Forall_cons_iff in Hws2. tauto. }
      rewrite List.length_app in Hfuel.
      pose proof (feedLoop_values parseFloat numberToString ws1 [] s fuel a2 Hws1
                    ltac:(lia) Htail) as Hloop.
      cbn [app] in Hloop. change (Js.length []) with 0 in Hloop. rewrite Z.add_0_l in Hloop.
      rewrite Hx, Hloop.
      destruct (IH (encAll ws1 ++ a2) (Js.length (encAll ws1)) (fold_left record ws1 s)
                  ws2 a2 fuel) as [p Hp].
      * rewrite length_app. pose proof (length_nonneg (encAll ws1)).
        pose proof (length_nonneg a2). lia.
      * unfold Js.length. apply skipn_app_exact.
      * exact Hws2.
      * exact Hcut2.
      * rewrite Hx, encodeAll_app, <- app_assoc in E. apply app_inv_head in E. exact E.
      * lia.
      * exists p. rewrite Hp, fold_left_app. reflexivity.
Qed.

End Stream.
End ChunkFacts.

Section ChunkExtras.
Variable parseFloat : text -> Js.number.
Variable numberToString : Js.number -> text.
Import ChunkFacts.

(** X15.  Values without children survive every chunking.  Let a stream be the
    encodings, one after the other, of values that carry no attributes and
    are scalars or null or empty aggregates.  However the stream is cut
    into chunks - empty chunks and cuts inside a length, a payload or a
    CR LF included - the decoder emits exactly these values, in order:
    the pushes to the push sink, the others to the reply sink, and no
    error. *)
Theorem scalar_stream_decodes_across_any_chunking vs chunks :
  Forall (frameless parseFloat numberToString) vs ->
  List.concat chunks = encodeAll numberToString vs ->
  decodesTo parseFloat chunks (emittedAll vs).
Proof.
  intros Hvs E.
  destruct (feedAll_chunks parseFloat numberToString chunks [] 0 noSinks vs []
              (Datatypes.S (Datatypes.S (List.length vs))))
    as [p Hp]; try assumption; try reflexivity.
  - cbn. lia.
  - left. reflexivity.
  - lia.
  - exists p. exists (Datatypes.S (Datatypes.S (List.length vs))).
    unfold Parser.initial. rewrite Hp. f_equal. f_equal. apply record_all.
Qed.

End ChunkExtras.

Module ErrorFacts.
Import Parser JsFacts LeafFacts.

Section Errors.
Context {S : Type} (parseFloat : text -> Js.number) (opts : ParserOptions S).

(** One value that fills the chunk. *)
Lemma feed_parsed bytes v (s : S) fuel :
  bytes <> [] ->
  parseOne parseFloat opts (Datatypes.S fuel) (mkParser bytes 0 [] None)
    = (Normal (Value v), mkParser bytes (Js.length bytes) [] None) ->
  feed parseFloat opts (Datatypes.S (Datatypes.S fuel)) bytes initial s
  = match handleValue opts v (mkParser bytes (Js.length bytes) [] None) s with
    | (s', None) => Some (mkParser bytes (Js.length bytes) [] None, s')
    | (s', Some e) => Some (initial, reportError opts e s')
    end.
Proof.
  intros Hne Hp. unfold feed.
  destruct bytes as [|c bytes']; [congruence|].
  cbn [List.length Nat.eqb initial _offset _buffer _frames _pendingAttributes].
  change ((0 =? 0)%Z && (Js.length [] =? 0)%Z) with true. cbv beta iota.
  cbn [feedLoop _offset]. rewrite Hp.
  destruct (handleValue opts v (mkParser (c :: bytes') (Js.length (c :: bytes')) [] None) s)
    as [s' [e|]]; [reflexivity|].
  assert (Hend : parseOne parseFloat opts fuel
                   (mkParser (c :: bytes') (Js.length (c :: bytes')) [] None)
                 = (Normal Undefined, mkParser (c :: bytes') (Js.length (c :: bytes')) [] None)).
  { unfold parseOne, parseOneWith. run_monad. rewrite Z.leb_refl. reflexivity. }
  cbn [feedLoop]. rewrite Hend. reflexivity.
Qed.

(** A chunk whose first value makes the parser throw. *)
Lemma feed_thrown bytes e (s : S) fuel p' :
  bytes <> [] ->
  parseOne parseFloat opts fuel (mkParser bytes 0 [] None) = (Throw e, p') ->
  feed parseFloat opts (Datatypes.S fuel) bytes initial s
  = Some (initial, reportError opts e s).
Proof.
  intros Hne Hp. unfold feed.
  destruct bytes as [|c bytes']; [congruence|].
  cbn [List.length Nat.eqb initial _offset _buffer _frames _pendingAttributes].
  change ((0 =? 0)%Z && (Js.length [] =? 0)%Z) with true. cbv beta iota.
  cbn [feedLoop _offset]. rewrite Hp. reflexivity.
Qed.

(** A chunk whose first value is not complete. *)
Lemma feed_need_more bytes (s : S) fuel p' :
  bytes <> [] ->
  parseOne parseFloat opts fuel (mkParser bytes 0 [] None) = (Normal NEED_MORE, p') ->
  feed parseFloat opts (Datatypes.S fuel) bytes initial s
  = Some (mkParser (_buffer p') 0 (_frames p') (_pendingAttributes p'), s).
Proof.
  intros Hne Hp. unfold feed.
  destruct bytes as [|c bytes']; [congruence|].
  cbn [List.length Nat.eqb initial _offset _buffer _frames _pendingAttributes].
  change ((0 =? 0)%Z && (Js.length [] =? 0)%Z) with true. cbv beta iota.
  cbn [feedLoop _offset]. rewrite Hp. reflexivity.
Qed.

End Errors.
End ErrorFacts.

Section ErrorExtras.
Variable parseFloat : text -> Js.number.
Import Parser JsFacts LeafFacts ErrorFacts.

(** X16.  A chunk that starts with a byte that is no RESP3 type: the decoder
    reports [Unknown RESP3 prefix] with the byte in hexadecimal, emits
    nothing, and resets itself - every byte of the chunk is dropped, and
    the next chunk is read by a parser as fresh as a new one. *)
Theorem unknown_prefix_drops_the_chunk c rest :
  ~ In c (lineTypes ++ lengthTypes) ->
  feeds parseFloat recorder [c :: rest] initial noSinks
    (initial, mkSinks [] [] [Error (B "Unknown RESP3 prefix: 0x" ++ hexOfByte c)]).
Proof.
  intros Hc. exists 1%nat. cbn [feedAll].
  rewrite (feed_thrown parseFloat recorder (c :: rest)
             (Error (B "Unknown RESP3 prefix: 0x" ++ hexOfByte c)) noSinks 0
             (mkParser (c :: rest) 0 [] None)); [reflexivity|discriminate|].
  unfold parseOne. rewrite (parseOneWith_at parseFloat recorder _ [] c rest []).
  destruct c as [[|] [|] [|] [|] [|] [|] [|] [|]];
    first [reflexivity | exfalso; apply Hc; cbn; tauto].
Qed.

(** X17.  An integer line of ASCII characters holds whatever [BigInt]
    reads.  The line after [:] is handed to [BigInt]: when that yields an
    integer the decoder emits it - so the empty line is 0 and [0x1F] is
    31 - and when it throws the decoder reports [Invalid integer] with the
    line, and drops the rest of the chunk. *)
Theorem integer_line_is_read_by_BigInt line rest :
  isAscii line -> noCRLF line ->
  (forall z, Js.BigInt line = Some z ->
     decodesTo parseFloat [":"%char :: line ++ CRLF] (mkSinks [plain (integer z)] [] [])) /\
  (Js.BigInt line = None ->
     feeds parseFloat recorder [":"%char :: line ++ CRLF ++ rest] initial noSinks
       (initial, mkSinks [] [] [Error (B "Invalid integer " ++ quoted line)])) /\
  decodesTo parseFloat [lines [":"]] (mkSinks [plain (integer 0)] [] []) /\
  decodesTo parseFloat [lines [":0x1F"]] (mkSinks [plain (integer 31)] [] []).
Proof.
  intros _ Hline.
  assert (Hparse : forall post fuel,
            parseOne parseFloat recorder fuel
              (mkParser ([] ++ (":"%char :: line ++ CRLF) ++ post) (Js.length []) [] None)
            = match Js.BigInt line with
              | Some v => (n <- attachAttrs (plain (integer v)) ;; ret (Value n))
              | None => throw (Error (B "Invalid integer " ++ quoted line))
              end (mkParser ([] ++ (":"%char :: line ++ CRLF) ++ post)
                     (Js.length [] + Js.length (":"%char :: line ++ CRLF)) [] None)).
  { intros post fuel. unfold parseOne. rewrite parseOneWith_at'. lazy beta iota.
    unfold parseInteger. rewrite line_parser_spec by (discriminate || assumption).
    reflexivity. }
  split; [|split; [|split]].
  - intros z Hz. eexists. exists 2%nat. cbn [feedAll].
    rewrite (feed_parsed parseFloat recorder (":"%char :: line ++ CRLF) (plain (integer z))
               noSinks 0); [reflexivity|discriminate|].
    specialize (Hparse [] 1%nat). rewrite Hz in Hparse.
    cbn [app] in Hparse. rewrite app_nil_r in Hparse. exact Hparse.
  - intros Hnone. exists 1%nat. cbn [feedAll].
    specialize (Hparse rest 0%nat). rewrite Hnone in Hparse.
    cbn [app] in Hparse. rewrite <- app_assoc in Hparse.
    rewrite (feed_thrown parseFloat recorder (":"%char :: line ++ CRLF ++ rest)
               (Error (B "Invalid integer " ++ quoted line)) noSinks 0 _
               ltac:(discriminate) Hparse).
    reflexivity.
  - eexists. exists 40%nat. vm_compute. reflexivity.
  - eexists. exists 40%nat. vm_compute. reflexivity.
Qed.

End ErrorExtras.

Module DecodeErrorFacts.
Import Connection Parser.

Section Invariant.
Context {S : Type} (parseFloat : text -> Js.number) (opts : ParserOptions S) (P : S -> Prop).
Hypothesis Hreply : forall f, onReply opts = Some f -> forall v s, P s -> P (fst (f v s)).
Hypothesis Hpush : forall f, onPush opts = Some f -> forall v s, P s -> P (fst (f v s)).
Hypothesis Herror : forall f, onError opts = Some f -> forall e s, P s -> P (f e s).

Lemma call_keeps v s : P s -> P (fst (call (onReply opts) v s)).
Proof.
  intros H. unfold call. pose proof Hreply as Hr.
  destruct (onReply opts) as [f|]; [|exact H].
  apply (Hr f eq_refl). exact H.
Qed.

Lemma handleValue_keeps v p s : P s -> P (fst (handleValue opts v p s)).
Proof.
  intros H. unfold handleValue.
  destruct (isPlainNull v && negb (List.length (_frames p) =? 0)%nat); [exact H|].
  destruct (isPush v); [|apply call_keeps; exact H].
  pose proof Hpush as Hp.
  destruct (onPush opts) as [f|]; [|apply call_keeps; exact H].
  apply (Hp f eq_refl). exact H.
Qed.

Lemma reportError_keeps e s : P s -> P (reportError opts e s).
Proof.
  intros H. unfold reportError. pose proof Herror as He.
  destruct (onError opts) as [f|]; [|exact H].
  apply (He f eq_refl). exact H.
Qed.

Lemma feedLoop_keeps fuel : forall p s r,
  P s -> feedLoop parseFloat opts fuel p s = Some r -> P (snd r).
Proof.
  induction fuel as [|fuel IH]; intros p s r H E; [discriminate E|].
  cbn [feedLoop] in E.
  destruct (parseOne parseFloat opts fuel p) as [[parsed|e|] p'];
    [destruct parsed as [v| |]| |].
  - pose proof (handleValue_keeps v p' s H) as Hv.
    destruct (handleValue opts v p' s) as [s' [e|]]; cbn [fst] in Hv.
    + inversion E; subst r. apply reportError_keeps. exact Hv.
    + apply (IH p' s' r Hv E).
  - inversion E; subst r. exact H.
  - inversion E; subst r. exact H.
  - inversion E; subst r. apply reportError_keeps. exact H.
  - discriminate E.
Qed.

Lemma feed_keeps fuel chunk p s r :
  P s -> feed parseFloat opts fuel chunk p s = Some r -> P (snd r).
Proof.
  intros H E. unfold feed in E.
  destruct (List.length chunk =? 0)%nat; [inversion E; subst r; exact H|].
  apply (feedLoop_keeps _ _ _ _ H E).
Qed.

End Invariant.

Lemma settle_settled i s cm :
  settled (settle i s cm) = settled cm \/ settled (settle i s cm) = settled cm ++ [(i, s)].
Proof. unfold settle. destruct (isSettled i cm); [left|right]; reflexivity. Qed.

Lemma noParseRejection_snoc cm cm' i s :
  noParseRejection cm ->
  (forall message cause, s <> Rejected (ParseError message cause)) ->
  settled cm' = settled cm \/ settled cm' = settled cm ++ [(i, s)] ->
  noParseRejection cm'.
Proof.
  intros H Hs [E|E] k message cause Hin; rewrite E in Hin.
  - apply (H k message cause Hin).
  - apply in_app_or in Hin. destruct Hin as [Hin|[Hin|[]]].
    + apply (H k message cause Hin).
    + inversion Hin. subst. apply (Hs message cause). reflexivity.
Qed.

Lemma transformResponse_error r cmd e :
  _transformResponse r cmd = inr e -> exists c v cause, e = TransformError c v cause.
Proof.
  unfold _transformResponse.
  destruct (body_of r) as [ | | | |[|]| | | | | |[|]|[|]|[|]| ]; intros E;
    inversion E; eauto.
Qed.

Lemma handleReply_keeps v cm :
  noParseRejection cm -> noParseRejection (fst (_handleReply v cm)).
Proof.
  intros H. unfold _handleReply.
  destruct (_pendingCommands cm) as [|[k pending] rest]; [exact H|].
  destruct (_transformResponse v (command pending)) as [value|e] eqn:E; cbn [fst].
  - apply (noParseRejection_snoc cm _ (id pending) (Resolved value) H);
      [discriminate|].
    unfold resolvePending. cbv zeta.
    match goal with |- context [settle _ _ ?x] => apply (settle_settled _ _ x) end.
  - destruct (transformResponse_error _ _ _ E) as (c & r & cause & ->).
    apply (noParseRejection_snoc cm _ (id pending) (Rejected (TransformError c r cause)) H);
      [discriminate|].
    unfold rejectPending. cbv zeta.
    match goal with |- context [settle _ _ ?x] => apply (settle_settled _ _ x) end.
Qed.

Lemma handshakeOnReply_keeps v cm :
  noParseRejection cm -> noParseRejection (fst (handshakeOnReply v cm)).
Proof.
  intros H.
  assert (E : settled (fst (handshakeOnReply v cm)) = settled cm).
  { unfold handshakeOnReply, handshakeResolve, handshakeReject. cbv zeta.
    destruct (isSimpleOK v); [|destruct (stringifyThrows v)]; cbn [fst];
      try reflexivity;
      cbn [handshakePromise setHandshake]; destruct (handshakePromise cm); reflexivity. }
  intros k message cause Hin. rewrite E in Hin. apply (H k message cause Hin).
Qed.

Lemma onData_keeps parseFloat fuel data cm cm' :
  noParseRejection cm -> onData parseFloat fuel data cm = Some cm' -> noParseRejection cm'.
Proof.
  intros H E. unfold onData in E.
  destruct (_parser cm) as [p|]; [|inversion E; subst cm'; exact H].
  destruct (feed parseFloat parserOptions fuel data p cm) as [[p' cm1]|] eqn:Ef;
    [|discriminate E].
  inversion E; subst cm'.
  assert (H1 : noParseRejection cm1).
  { apply (feed_keeps parseFloat parserOptions noParseRejection) with
      (fuel := fuel) (chunk := data) (p := p) (s := cm) (r := (p', cm1)); try assumption.
    - intros f Hf v s Hs. cbn in Hf. inversion Hf; subst f.
      destruct (_onReplySwapped s);
        [apply handshakeOnReply_keeps|apply handleReply_keeps]; exact Hs.
    - intros f Hf v s Hs. cbn in Hf. inversion Hf; subst f. exact Hs.
    - intros f Hf e s Hs. cbn in Hf. inversion Hf; subst f. exact Hs. }
  exact H1.
Qed.

End DecodeErrorFacts.

Section DecodeErrorClaims.
Variable parseFloat : text -> Js.number.
Import Connection Session SessionFacts.


End DecodeErrorClaims.

Module NestedFacts.
Import Parser JsFacts LeafFacts WriterFacts ErrorFacts.

Section Nested.
Context {S : Type} (parseFloat : text -> Js.number) (opts : ParserOptions S).
Hypothesis buffers : decodeBlobAsString opts = false.
Variable numberToString : Js.number -> text.
Local Notation "'enc'" := (fun v => Writer.writeValue numberToString v []).

Lemma array_header consume pre post fs :
  parseOneWith parseFloat opts consume (mkParser (pre ++ headerOfOne ++ post) (Js.length pre) fs None)
  = consume (mkParser (pre ++ headerOfOne ++ post) (Js.length pre + Js.length headerOfOne)
               (mkFrame k_array 1 [] None :: fs) None).
Proof.
  unfold headerOfOne. rewrite parseOneWith_at'. lazy beta iota. unfold parseAggregateWith.
  cbn [expectedPrefix].
  rewrite header_spec by (vm_compute; split; [discriminate|reflexivity]).
  reflexivity.
Qed.

Lemma at_end consume buf fs :
  parseOneWith parseFloat opts consume (mkParser buf (Js.length buf) fs None)
  = (Normal Undefined, mkParser buf (Js.length buf) fs None).
Proof. unfold parseOneWith. run_monad. rewrite Z.leb_refl. reflexivity. Qed.

Lemma nested_encoding v :
  Writer.encode numberToString (plain (array (Some [plain (array (Some [v]))])))
  = headerOfOne ++ headerOfOne ++ enc v.
Proof.
  unfold Writer.encode, Writer.reset, plain. cbn [Writer.writeValue Writer.writeEach].
  rewrite writeValue_app.
  unfold headerOfOne, Writer.andThen, Writer.writeByte, Writer.writeString, Writer.writeBytes,
    Writer.writeCRLF, Writer.sizeToString, CRLF. cbn [List.length Z.of_nat Pos.of_succ_nat].
  rewrite <- !app_assoc. reflexivity.
Qed.

(** An array inside an array, at the end of the buffer: the inner array
    is completed and filed into the outer frame, and then the parser asks
    for more although the outer frame is full. *)
Lemma nested_alone v fuel :
  frameless parseFloat numberToString v ->
  parseOne parseFloat opts (Datatypes.S (Datatypes.S (Datatypes.S fuel)))
    (mkParser (headerOfOne ++ headerOfOne ++ enc v) 0 [] None)
  = (Normal NEED_MORE,
     mkParser (headerOfOne ++ headerOfOne ++ enc v) (Js.length headerOfOne)
       [mkFrame k_array 0 [plain (array (Some [v]))] None] None).
Proof.
  intros Hv. unfold parseOne.
  remember (Datatypes.S (Datatypes.S fuel)) as f2 eqn:Ef2.
  pose proof (array_header (consumeNested parseFloat opts (Datatypes.S f2))
                [] (headerOfOne ++ enc v) []) as E1.
  cbn [app] in E1. change (Js.length []) with 0 in E1. rewrite Z.add_0_l in E1.
  rewrite E1. clear E1.
  cbn [consumeNested]. run_monad.
  pose proof (array_header (consumeNested parseFloat opts f2)
                headerOfOne (enc v) [mkFrame k_array 1 [] None]) as E2.
  cbn beta in E2. rewrite E2. clear E2.
  subst f2. remember (Datatypes.S fuel) as f1 eqn:Ef1.
  cbn [consumeNested]. run_monad.
  pose proof (parse_leaf parseFloat opts buffers numberToString v Hv
                (consumeNested parseFloat opts f1) (headerOfOne ++ headerOfOne) []
                [mkFrame k_array 1 [] None; mkFrame k_array 1 [] None]) as E3.
  cbn beta in E3. rewrite app_nil_r, <- app_assoc in E3.
  replace (Js.length headerOfOne + Js.length headerOfOne) with (Js.length (headerOfOne ++ headerOfOne)) by len.
  rewrite E3. clear E3. run_monad.
  unfold pushItem. cbn [remaining items kind attrs app].
  change (1 - 1 >? 0)%Z with false. cbv iota.
  unfold finalizeFrameInstant. cbn [kind items]. run_monad.
  cbn [attachExplicitAttrs attrs remaining items kind app].
  subst f1. cbn [consumeNested]. run_monad.
  replace (Js.length (headerOfOne ++ headerOfOne) + Js.length (enc v))
    with (Js.length (headerOfOne ++ headerOfOne ++ enc v)) by (rewrite !length_app; lia).
  rewrite at_end. run_monad. reflexivity.
Qed.

(** The same followed by one more value: the outer frame, already full,
    takes the value too, is completed and popped, and the outer level of
    [consumeNested] then reads [items] of a frame that is not there. *)
Lemma nested_followed v w fuel :
  frameless parseFloat numberToString v -> frameless parseFloat numberToString w ->
  exists p,
    parseOne parseFloat opts (Datatypes.S (Datatypes.S (Datatypes.S fuel)))
      (mkParser (headerOfOne ++ headerOfOne ++ enc v ++ enc w) 0 [] None)
    = (Throw undefinedItems, p).
Proof.
  intros Hv Hw. unfold parseOne.
  remember (Datatypes.S (Datatypes.S fuel)) as f2 eqn:Ef2.
  pose proof (array_header (consumeNested parseFloat opts (Datatypes.S f2))
                [] (headerOfOne ++ enc v ++ enc w) []) as E1.
  cbn [app] in E1. change (Js.length []) with 0 in E1. rewrite Z.add_0_l in E1.
  rewrite E1. clear E1.
  cbn [consumeNested]. run_monad.
  pose proof (array_header (consumeNested parseFloat opts f2)
                headerOfOne (enc v ++ enc w) [mkFrame k_array 1 [] None]) as E2.
  cbn beta in E2. rewrite E2. clear E2.
  subst f2. remember (Datatypes.S fuel) as f1 eqn:Ef1.
  cbn [consumeNested]. run_monad.
  pose proof (parse_leaf parseFloat opts buffers numberToString v Hv
                (consumeNested parseFloat opts f1) (headerOfOne ++ headerOfOne) (enc w)
                [mkFrame k_array 1 [] None; mkFrame k_array 1 [] None]) as E3.
  cbn beta in E3. rewrite <- app_assoc in E3.
  replace (Js.length headerOfOne + Js.length headerOfOne) with (Js.length (headerOfOne ++ headerOfOne)) by len.
  rewrite E3. clear E3. run_monad.
  unfold pushItem. cbn [remaining items kind attrs app].
  change (1 - 1 >? 0)%Z with false. cbv iota.
  unfold finalizeFrameInstant. cbn [kind items]. run_monad.
  cbn [attachExplicitAttrs attrs remaining items kind app].
  subst f1. cbn [consumeNested]. run_monad.
  pose proof (parse_leaf parseFloat opts buffers numberToString w Hw
                (consumeNested parseFloat opts fuel) (headerOfOne ++ headerOfOne ++ enc v) []
                [mkFrame k_array (1 - 1) [plain (array (Some [v]))] None]) as E4.
  cbn beta in E4. rewrite app_nil_r, <- !app_assoc in E4.
  replace (Js.length (headerOfOne ++ headerOfOne) + Js.length (enc v))
    with (Js.length (headerOfOne ++ headerOfOne ++ enc v)) by (rewrite !length_app; lia).
  rewrite E4. clear E4. run_monad.
  cbn [remaining items kind attrs app].
  change (1 - 1 - 1 >? 0)%Z with false. cbv iota. run_monad.
  cbn [attachExplicitAttrs attrs remaining items kind app].
  eexists. reflexivity.
Qed.

End Nested.
End NestedFacts.

Module HangFacts.
Import Parser JsFacts LeafFacts WriterFacts WriterFacts2 ErrorFacts.

Section Hang.
Variable parseFloat : text -> Js.number.

(** A bulk string of length -7 that follows CR LF: the parser steps back
    over the header and the CR LF before it, takes that CR LF for the
    terminator of an empty payload, and ends where it began. *)
Lemma minus_seven body fuel :
  parseOne parseFloat recorder fuel
    (mkParser ((body ++ CRLF) ++ lines ["$-7"]) (Js.length (body ++ CRLF)) [] None)
  = (Normal (Value (plain (blob_string (Some (BufferOf []))))),
     mkParser ((body ++ CRLF) ++ lines ["$-7"]) (Js.length (body ++ CRLF)) [] None).
Proof.
  unfold parseOne.
  change (lines ["$-7"]) with ("$"%char :: B "-7" ++ CRLF).
  rewrite parseOneWith_at. lazy beta iota. unfold parseBlobStringLike.
  rewrite (bind_normal _ _ _ _ _ (prefixIs_spec (body ++ CRLF) "$"%char _ [])). cbn [negb].
  assert (Hlen : readLenAfterPrefix
                   (mkParser ((body ++ CRLF) ++ "$"%char :: B "-7" ++ CRLF)
                      (Js.length (body ++ CRLF)) [] None)
                 = (Normal (Some (-7)),
                    mkParser ((body ++ CRLF) ++ "$"%char :: B "-7" ++ CRLF)
                      (Js.length (body ++ CRLF) + 5) [] None)).
  { unfold readLenAfterPrefix. run_monad.
    replace ((body ++ CRLF) ++ "$"%char :: B "-7" ++ CRLF)
      with (((body ++ CRLF) ++ ["$"%char]) ++ B "-7" ++ CRLF ++ [])
      by (rewrite app_nil_r, <- !app_assoc; reflexivity).
    replace (Js.length (body ++ CRLF) + 1) with (Js.length ((body ++ CRLF) ++ ["$"%char]))
      by len.
    rewrite indexOfCRLF_spec by reflexivity. run_monad. rewrite toStringRange_spec.
    change (Js.parseInt (B "-7")) with (Some (-7)). cbv beta iota.
    assert (Ho : Js.overflowsDouble (-7) = false) by (vm_compute; reflexivity).
    rewrite Ho. run_monad. f_equal. f_equal. len. }
  rewrite (bind_normal _ _ _ _ _ Hlen). clear Hlen.
  change (-7 =? -1)%Z with false. cbv iota.
  set (buf := (body ++ CRLF) ++ "$"%char :: B "-7" ++ CRLF).
  assert (Hbuf : Js.length buf = Js.length body + 7) by (subst buf; len).
  assert (Hpre : Js.length (body ++ CRLF) = Js.length body + 2) by len.
  pose proof (length_nonneg body) as Hb.
  unfold ensure. run_monad.
  assert (E1 : (-7 + 2 <=? Js.length buf - (Js.length (body ++ CRLF) + 5))%Z = true)
    by (apply Z.leb_le; lia).
  rewrite E1. cbn [negb]. run_monad.
  assert (E2 : (2 <=? Js.length buf - (Js.length (body ++ CRLF) + 5 + -7))%Z = true)
    by (apply Z.leb_le; lia).
  rewrite E2. cbn [negb]. run_monad.
  assert (Hat1 : Js.at_ buf (Js.length (body ++ CRLF) + 5 + -7) = Some CR).
  { replace (Js.length (body ++ CRLF) + 5 + -7) with (Js.length body) by lia.
    subst buf. unfold CRLF. rewrite <- !app_assoc. apply at_app. }
  assert (Hat2 : Js.at_ buf (Js.length (body ++ CRLF) + 5 + -7 + 1) = Some LF).
  { replace (Js.length (body ++ CRLF) + 5 + -7 + 1) with (Js.length (body ++ [CR])) by len.
    subst buf. unfold CRLF.
    replace ((body ++ [CR; LF]) ++ "$"%char :: B "-7" ++ [CR; LF])
      with ((body ++ [CR]) ++ LF :: "$"%char :: B "-7" ++ [CR; LF])
      by (rewrite <- !app_assoc; reflexivity).
    apply at_app. }
  rewrite Hat1, Hat2. cbn [Ascii.eqb Bool.eqb CR LF andb]. run_monad.
  assert (Hsub : Js.subarray buf (Js.length (body ++ CRLF) + 5)
                   (Js.length (body ++ CRLF) + 5 + -7) = []).
  { unfold Js.subarray. rewrite !relIndex_inside by lia.
    replace (Z.to_nat (Js.length (body ++ CRLF) + 5 + -7 - (Js.length (body ++ CRLF) + 5)))
      with 0%nat by lia.
    reflexivity. }
  rewrite Hsub. cbn [decodeBlobAsString recorder]. run_monad.
  unfold attachAttrs. run_monad. f_equal. f_equal. lia.
Qed.

(** From there the loop of [feed] never ends. *)
Lemma feedLoop_hangs body fuel : forall s,
  feedLoop parseFloat recorder fuel
    (mkParser ((body ++ CRLF) ++ lines ["$-7"]) (Js.length (body ++ CRLF)) [] None) s
  = None.
Proof.
  induction fuel as [|fuel IH]; intros s; [reflexivity|].
  cbn [feedLoop _offset]. rewrite minus_seven.
  unfold handleValue. cbn [_frames List.length Nat.eqb negb isPlainNull plain andb isPush
                            body_of onReply recorder call].
  apply IH.
Qed.

End Hang.
End HangFacts.

Section DecoderBugExtras.
Variable parseFloat : text -> Js.number.
Variable numberToString : Js.number -> text.
Import Parser JsFacts LeafFacts WriterFacts WriterFacts2 ErrorFacts NestedFacts HangFacts.

(** X18.  A bulk string that announces the length -7, right after any value
    without children: [feed] never returns.  Lengths below -1 are not
    refused; the parser steps back seven bytes, finds the CR LF that ends
    the value before, takes it for the end of an empty payload and stands
    again in front of the same header - emitting one empty bulk string
    after the other, for ever. *)
Theorem negative_bulk_length_hangs_the_decoder v fuel :
  frameless parseFloat numberToString v ->
  Parser.feed parseFloat recorder fuel
    (Writer.encode numberToString v ++ lines ["$-7"]) Parser.initial noSinks
  = None.
Proof.
  intros Hv.
  destruct (encode_ends_with_CRLF numberToString v) as [body Eb].
  pose proof (parse_leaf parseFloat recorder eq_refl numberToString v Hv) as Hparse.
  unfold Writer.encode, Writer.reset. rewrite Eb in *.
  unfold feed.
  destruct ((body ++ CRLF) ++ lines ["$-7"]) as [|c0 tl] eqn:Ebuf.
  { apply app_eq_nil in Ebuf. destruct Ebuf as [_ Ebuf]. discriminate Ebuf. }
  cbn [List.length Nat.eqb initial _offset _buffer _frames _pendingAttributes].
  change ((0 =? 0)%Z && (Js.length [] =? 0)%Z) with true. cbv beta iota.
  rewrite <- Ebuf. clear Ebuf.
  destruct fuel as [|fuel]; [reflexivity|].
  cbn [feedLoop _offset]. unfold parseOne.
  specialize (Hparse (consumeNested parseFloat recorder fuel) [] (lines ["$-7"]) []).
  cbn [app] in Hparse. change (Js.length []) with 0 in Hparse. rewrite Z.add_0_l in Hparse.
  rewrite Hparse.
  destruct (handleValue recorder v
              (mkParser ((body ++ CRLF) ++ lines ["$-7"]) (Js.length (body ++ CRLF)) [] None)
              noSinks) as [s' [e|]] eqn:Eh.
  - exfalso. unfold handleValue in Eh.
    cbn [_frames List.length Nat.eqb negb] in Eh. rewrite andb_false_r in Eh.
    destruct (isPush v); cbn in Eh; inversion Eh.
  - apply feedLoop_hangs.
Qed.

(** X19.  A non-empty array inside an array is never emitted.  Alone in its
    chunk it leaves the decoder waiting, with the bytes unread and the
    outer frame - already full - on the stack, and nothing is reported.
    Followed in the same chunk by one more value, it makes the parser read
    [items] of a frame that is not there: the [TypeError] is reported
    through the error sink, both values are lost and the parser resets. *)
Theorem nested_array_is_never_emitted v :
  frameless parseFloat numberToString v ->
  feeds parseFloat recorder
    [Writer.encode numberToString (plain (array (Some [plain (array (Some [v]))])))]
    Parser.initial noSinks
    (mkParser
       (Writer.encode numberToString (plain (array (Some [plain (array (Some [v]))]))))
       0 [mkFrame k_array 0 [plain (array (Some [v]))] None] None,
     noSinks) /\
  (forall w,
     frameless parseFloat numberToString w ->
     feeds parseFloat recorder
       [Writer.encode numberToString (plain (array (Some [plain (array (Some [v]))])))
          ++ Writer.encode numberToString w]
       Parser.initial noSinks
       (Parser.initial, mkSinks [] [] [undefinedItems])).
Proof.
  intros Hv. rewrite nested_encoding. split.
  - exists 4%nat. cbn [feedAll].
    rewrite (feed_need_more parseFloat recorder
               (headerOfOne ++ headerOfOne ++ Writer.writeValue numberToString v []) noSinks 3 _
               ltac:(unfold headerOfOne; discriminate)
               (nested_alone parseFloat recorder eq_refl numberToString v 0 Hv)).
    reflexivity.
  - intros w Hw. exists 4%nat. cbn [feedAll].
    destruct (nested_followed parseFloat recorder eq_refl numberToString v w 0 Hv Hw)
      as [p Hp].
    unfold Writer.encode, Writer.reset. rewrite <- !app_assoc.
    rewrite (feed_thrown parseFloat recorder
               (headerOfOne ++ headerOfOne ++ Writer.writeValue numberToString v []
                  ++ Writer.writeValue numberToString w [])
               undefinedItems noSinks 3 p ltac:(unfold headerOfOne; discriminate) Hp).
    reflexivity.
Qed.

End DecoderBugExtras.

(** ** Closed instance of the claim on decode errors *)


(** ** Closed instances of the further properties *)

(** [disconnect] with two commands in flight. *)
Lemma disconnect_rejects_commands_in_flight_witness :
  Session.wellFormed (twoInFlight noNumberToString) /\
  Connection._state (twoInFlight noNumberToString) <> disconnected /\
  Connection._state (twoInFlight noNumberToString) <> disconnecting /\
  Connection._pendingCommands (Lifecycle.disconnect (twoInFlight noNumberToString)) = [] /\
  Connection.isConnected (Lifecycle.disconnect (twoInFlight noNumberToString)) = false.
Proof.
  assert (H1 : Connection._state (twoInFlight noNumberToString) <> disconnected)
    by (vm_compute; discriminate).
  assert (H2 : Connection._state (twoInFlight noNumberToString) <> disconnecting)
    by (vm_compute; discriminate).
  split; [apply twoInFlight_wellFormed|]. split; [exact H1|]. split; [exact H2|].
  destruct (disconnect_rejects_commands_in_flight noNumberToString
              (twoInFlight noNumberToString) twoInFlight_wellFormed H1 H2)
    as (Hp & _ & _ & _ & _ & Hc & _).
  split; [exact Hp|exact Hc].
Defined.

(** The handshake timer fires while HELLO is unanswered. *)
Lemma handshake_timeout_fails_connect_witness :
  Connection.handshakePromise (handshaking noNumberToString) = Pending /\
  Connection._handshakeTimer (handshaking noNumberToString) = true /\
  Connection.connectPromise (Connection.handshakeTimeoutFires (handshaking noNumberToString))
  = RejectedWith HandshakeTimeout.
Proof.
  split; [reflexivity|]. split; [reflexivity|].
  exact (proj1 (handshake_timeout_fails_connect (handshaking noNumberToString)
                  eq_refl eq_refl)).
Defined.

(** An empty bulk string answers the first of two commands. *)
Lemma empty_bulk_string_is_delivered_as_null_witness :
  Session.wellFormed (twoInFlight noNumberToString) /\
  Connection._pendingCommands (twoInFlight noNumberToString)
  = [(id commandA, commandA); (id commandB, commandB)] /\
  Connection.outcome (id commandA)
    (fst (Connection._handleReply (plain (blob_string (Some (BufferOf []))))
            (twoInFlight noNumberToString)))
  = Some (Resolved js_null).
Proof.
  split; [apply twoInFlight_wellFormed|]. split; [reflexivity|].
  exact (proj1 (empty_bulk_string_is_delivered_as_null (twoInFlight noNumberToString)
                  (id commandA) commandA [(id commandB, commandB)] None
                  twoInFlight_wellFormed eq_refl)).
Defined.


(** Two submissions, the timer of the first fires, a reply comes. *)
Lemma timers_are_armed_for_commands_in_flight_witness :
  Session.wellFormed (connectedManager DEFAULT_CLIENT_OPTIONS) /\
  Connection.timers (connectedManager DEFAULT_CLIENT_OPTIONS)
  = Connection.pendingIds (connectedManager DEFAULT_CLIENT_OPTIONS) /\
  Connection.isConnected (connectedManager DEFAULT_CLIENT_OPTIONS) = true /\
  Connection._transport (connectedManager DEFAULT_CLIENT_OPTIONS) = true /\
  Connection._writer (connectedManager DEFAULT_CLIENT_OPTIONS) = true /\
  Connection.timers
    (Timed.run noNumberToString
       [Occurs (Submit 1 (B "GET") [ArgString (B "a")]);
        Occurs (Submit 2 (B "GET") [ArgString (B "b")]);
        TimerFires commandA;
        Occurs (Reply (plain (simple_string (B "OK"))))]
       (connectedManager DEFAULT_CLIENT_OPTIONS))
  = Connection.pendingIds
      (Timed.run noNumberToString
         [Occurs (Submit 1 (B "GET") [ArgString (B "a")]);
          Occurs (Submit 2 (B "GET") [ArgString (B "b")]);
          TimerFires commandA;
          Occurs (Reply (plain (simple_string (B "OK"))))]
         (connectedManager DEFAULT_CLIENT_OPTIONS)).
Proof.
  split; [apply connectedManager_wellFormed|]. split; [reflexivity|].
  split; [reflexivity|]. split; [reflexivity|]. split; [reflexivity|].
  exact (proj1 (timers_are_armed_for_commands_in_flight noNumberToString
                  (connectedManager DEFAULT_CLIENT_OPTIONS) _
                  (connectedManager_wellFormed _) eq_refl eq_refl eq_refl eq_refl)).
Defined.

(** A submission, its reply, a second submission and its timer. *)
Lemma every_command_is_in_flight_or_settled_once_witness :
  Session.wellFormed (connectedManager DEFAULT_CLIENT_OPTIONS) /\
  Connection.timers (connectedManager DEFAULT_CLIENT_OPTIONS)
  = Connection.pendingIds (connectedManager DEFAULT_CLIENT_OPTIONS) /\
  Connection.isConnected (connectedManager DEFAULT_CLIENT_OPTIONS) = true /\
  Connection._transport (connectedManager DEFAULT_CLIENT_OPTIONS) = true /\
  Connection._writer (connectedManager DEFAULT_CLIENT_OPTIONS) = true /\
  NoDup
    (List.map fst
       (Connection.settled
          (Timed.run noNumberToString
             [Occurs (Submit 1 (B "GET") [ArgString (B "a")]);
              Occurs (Reply (plain (simple_string (B "OK"))));
              Occurs (Submit 2 (B "GET") [ArgString (B "b")]);
              TimerFires commandB;
              Occurs (Submit 3 (B "PING") [])]
             (connectedManager DEFAULT_CLIENT_OPTIONS)))
     ++ Connection.pendingIds
          (Timed.run noNumberToString
             [Occurs (Submit 1 (B "GET") [ArgString (B "a")]);
              Occurs (Reply (plain (simple_string (B "OK"))));
              Occurs (Submit 2 (B "GET") [ArgString (B "b")]);
              TimerFires commandB;
              Occurs (Submit 3 (B "PING") [])]
             (connectedManager DEFAULT_CLIENT_OPTIONS))).
Proof.
  split; [apply connectedManager_wellFormed|]. split; [reflexivity|].
  split; [reflexivity|]. split; [reflexivity|]. split; [reflexivity|].
  exact (proj2 (every_command_is_in_flight_or_settled_once noNumberToString
                  (connectedManager DEFAULT_CLIENT_OPTIONS) _
                  (connectedManager_wellFormed _) eq_refl eq_refl eq_refl eq_refl)
           (NoDup_nil _)).
Defined.

(** An executor registered as [GET] is found as [get]. *)
Lemma registry_lookup_ignores_case_witness :
  isAscii (B "GET") /\ isAscii (B "get") /\
  Commands.lookup nat (B "get") (Commands.register nat (B "GET") 1%nat []) = Some 1%nat.
Proof.
  assert (H1 : isAscii (B "GET")).
  { repeat (apply Forall_cons; [vm_compute; lia|]). apply Forall_nil. }
  assert (H2 : isAscii (B "get")).
  { repeat (apply Forall_cons; [vm_compute; lia|]). apply Forall_nil. }
  split; [exact H1|]. split; [exact H2|].
  exact (proj1 (proj1 (registry_lookup_ignores_case nat (B "GET") (B "get") 1%nat [] H1 H2)
                  eq_refl)).
Defined.

(** [Ping] is answered by the executor of ping, [flushall] by none. *)
Lemma basic_registry_knows_six_commands_witness :
  isAscii (B "Ping") /\ isAscii (B "flushall") /\
  Commands.execute nat (B "Ping")
    (Commands.createCommandRegistry nat (Commands.mkBasic nat 1 2 3 4 5 6)%nat)
  = inl 1%nat /\
  Commands.execute nat (B "flushall")
    (Commands.createCommandRegistry nat (Commands.mkBasic nat 1 2 3 4 5 6)%nat)
  = inr (Error (B "Unknown command: flushall")).
Proof.
  assert (H1 : isAscii (B "Ping")).
  { repeat (apply Forall_cons; [vm_compute; lia|]). apply Forall_nil. }
  assert (H2 : isAscii (B "flushall")).
  { repeat (apply Forall_cons; [vm_compute; lia|]). apply Forall_nil. }
  split; [exact H1|]. split; [exact H2|]. split.
  - exact (basic_registry_knows_six_commands nat (Commands.mkBasic nat 1 2 3 4 5 6)%nat
             (B "Ping") H1).
  - exact (basic_registry_knows_six_commands nat (Commands.mkBasic nat 1 2 3 4 5 6)%nat
             (B "flushall") H2).
Defined.

(** [ping()] and [del()] on the connected manager. *)
Lemma basic_commands_on_the_wire_witness :
  Session.wellFormed (connectedManager DEFAULT_CLIENT_OPTIONS) /\
  Connection.isConnected (connectedManager DEFAULT_CLIENT_OPTIONS) = true /\
  Connection._transport (connectedManager DEFAULT_CLIENT_OPTIONS) = true /\
  Connection._writer (connectedManager DEFAULT_CLIENT_OPTIONS) = true /\
  Commands.del noNumberToString 1 [] (connectedManager DEFAULT_CLIENT_OPTIONS)
  = (connectedManager DEFAULT_CLIENT_OPTIONS,
     inr (Plain (Error (B "DEL requires at least one key")))).
Proof.
  split; [apply connectedManager_wellFormed|].
  split; [reflexivity|]. split; [reflexivity|]. split; [reflexivity|].
  exact (proj1 (basic_commands_on_the_wire noNumberToString
                  (connectedManager DEFAULT_CLIENT_OPTIONS) 1
                  (connectedManager_wellFormed _) eq_refl eq_refl eq_refl)).
Defined.

(** [GET k] as it is written and read back. *)
Lemma encoded_command_decodes_to_its_arguments_witness :
  smallSize (B "GET") /\
  Forall (fun a => smallSize (Writer.argBytes noNumberToString a)) [ArgString (B "k")] /\
  smallSize (B "GET" :: List.map (Writer.argBytes noNumberToString) [ArgString (B "k")]) /\
  decodesTo noParseFloat [Writer.encodeCommand noNumberToString (B "GET") [ArgString (B "k")]]
    (mkSinks [plain (array (Some [bulkString (B "GET"); bulkString (B "k")]))] [] []).
Proof.
  assert (H1 : smallSize (B "GET")) by reflexivity.
  assert (H2 : Forall (fun a => smallSize (Writer.argBytes noNumberToString a))
                 [ArgString (B "k")]).
  { apply Forall_cons; [reflexivity|apply Forall_nil]. }
  assert (H3 : smallSize (B "GET" :: List.map (Writer.argBytes noNumberToString)
                                       [ArgString (B "k")])) by reflexivity.
  split; [exact H1|]. split; [exact H2|]. split; [exact H3|].
  exact (encoded_command_decodes_to_its_arguments noParseFloat noNumberToString
           (B "GET") [ArgString (B "k")] H1 H2 H3).
Defined.

(** A push frame of one element, read without a push handler. *)
Lemma push_without_handler_goes_to_replies_witness :
  flat noParseFloat noNumberToString (plain (push [plain (simple_string (B "m"))])) /\
  Parser.isPush (plain (push [plain (simple_string (B "m"))])) = true /\
  decodesTo noParseFloat
    [Writer.encode noNumberToString (plain (push [plain (simple_string (B "m"))]))]
    (mkSinks [] [plain (push [plain (simple_string (B "m"))])] []).
Proof.
  assert (H : flat noParseFloat noNumberToString
                (plain (push [plain (simple_string (B "m"))]))).
  { split; [reflexivity|]. split; [reflexivity|].
    apply Forall_cons; [split; reflexivity|apply Forall_nil]. }
  split; [exact H|]. split; [reflexivity|].
  exact (proj2 (push_without_handler_goes_to_replies noParseFloat noNumberToString _ H
                  eq_refl)).
Defined.

(** [+OK] and [:7], cut inside the first line, inside its CR LF and
    after the prefix of the second, with an empty chunk between. *)
Lemma scalar_stream_decodes_across_any_chunking_witness :
  Forall (frameless noParseFloat noNumberToString)
    [plain (simple_string (B "OK")); plain (integer 7)] /\
  List.concat [B "+O"; []; B "K" ++ [CR]; LF :: B ":"; B "7" ++ CRLF]
  = encodeAll noNumberToString [plain (simple_string (B "OK")); plain (integer 7)] /\
  decodesTo noParseFloat [B "+O"; []; B "K" ++ [CR]; LF :: B ":"; B "7" ++ CRLF]
    (emittedAll [plain (simple_string (B "OK")); plain (integer 7)]).
Proof.
  assert (H : Forall (frameless noParseFloat noNumberToString)
                [plain (simple_string (B "OK")); plain (integer 7)]).
  { apply Forall_cons; [split; reflexivity|].
    apply Forall_cons; [split; [reflexivity|exact I]|apply Forall_nil]. }
  split; [exact H|]. split; [reflexivity|].
  exact (scalar_stream_decodes_across_any_chunking noParseFloat noNumberToString
           [plain (simple_string (B "OK")); plain (integer 7)]
           [B "+O"; []; B "K" ++ [CR]; LF :: B ":"; B "7" ++ CRLF] H eq_refl).
Defined.

(** A chunk that starts with a question mark. *)
Lemma unknown_prefix_drops_the_chunk_witness :
  ~ In "?"%char (lineTypes ++ lengthTypes) /\
  feeds noParseFloat recorder ["?"%char :: lines ["+OK"]] Parser.initial noSinks
    (Parser.initial,
     mkSinks [] [] [Error (B "Unknown RESP3 prefix: 0x" ++ Parser.hexOfByte "?"%char)]).
Proof.
  assert (H : ~ In "?"%char (lineTypes ++ lengthTypes)).
  { cbn. intuition discriminate. }
  split; [exact H|].
  exact (unknown_prefix_drops_the_chunk noParseFloat "?"%char (lines ["+OK"]) H).
Defined.

(** The integer line [:42]. *)
Lemma integer_line_is_read_by_BigInt_witness :
  isAscii (B "42") /\ noCRLF (B "42") /\
  decodesTo noParseFloat [":"%char :: B "42" ++ CRLF] (mkSinks [plain (integer 42)] [] []).
Proof.
  assert (Ha : isAscii (B "42")).
  { repeat (apply Forall_cons; [vm_compute; lia|]). apply Forall_nil. }
  assert (H : noCRLF (B "42")) by reflexivity.
  split; [exact Ha|]. split; [exact H|].
  exact (proj1 (integer_line_is_read_by_BigInt noParseFloat (B "42") [] Ha H) 42 eq_refl).
Defined.

(** [+OK] followed by [$-7]. *)
Lemma negative_bulk_length_hangs_the_decoder_witness :
  frameless noParseFloat noNumberToString (plain (simple_string (B "OK"))) /\
  Parser.feed noParseFloat recorder 1000
    (Writer.encode noNumberToString (plain (simple_string (B "OK"))) ++ lines ["$-7"])
    Parser.initial noSinks
  = None.
Proof.
  assert (H : frameless noParseFloat noNumberToString (plain (simple_string (B "OK"))))
    by (split; reflexivity).
  split; [exact H|].
  exact (negative_bulk_length_hangs_the_decoder noParseFloat noNumberToString
           (plain (simple_string (B "OK"))) 1000 H).
Defined.

(** The array that holds the array of the integer 1, followed by [+OK]. *)
Lemma nested_array_is_never_emitted_witness :
  frameless noParseFloat noNumberToString (plain (integer 1)) /\
  frameless noParseFloat noNumberToString (plain (simple_string (B "OK"))) /\
  feeds noParseFloat recorder
    [Writer.encode noNumberToString
       (plain (array (Some [plain (array (Some [plain (integer 1)]))])))
     ++ Writer.encode noNumberToString (plain (simple_string (B "OK")))]
    Parser.initial noSinks
    (Parser.initial, mkSinks [] [] [Parser.undefinedItems]).
Proof.
  assert (H : frameless noParseFloat noNumberToString (plain (integer 1)))
    by (split; [reflexivity|exact I]).
  assert (H' : frameless noParseFloat noNumberToString (plain (simple_string (B "OK"))))
    by (split; reflexivity).
  split; [exact H|]. split; [exact H'|].
  exact (proj2 (nested_array_is_never_emitted noParseFloat noNumberToString
                  (plain (integer 1)) H)
           (plain (simple_string (B "OK"))) H').
Defined.
